(** * GIMP MCP server: shallow embedding of [src/gimp_mcp/server.py]

    The file embeds the Python program as Rocq functions and proves the
    properties of its natural-language specification.

    Layout: the Python values the program handles, the [json] codec the
    program calls ([json.dumps], [json.loads]), the UTF-8 codec
    ([str.encode], [bytes.decode]), the socket world, and the program itself
    ([GimpConnection.connect], [GimpConnection.send_command],
    [get_gimp_connection], [call_api], [get_images], [get_image_info],
    [apply_gaussian_blur]).  Definitions come first, theorems after: the
    properties of the specification, then further properties of the code
    (replies and errors of [call_api], the connection object, the chained
    operations, the request and the reply on the wire).

    What the embedding leaves out: logging; the context argument of the
    tools, which no body reads; binary64 arithmetic (a float is its decimal
    literal); the recursion limit of the interpreter and its limit of 4300
    digits on the conversion of an integer to and from text, so that
    [json_dumps] and [json_loads] take any integer and any depth of nesting
    where [json.dumps] and [json.loads] raise beyond the limits; and
    exceptions outside [Exception] such as [KeyboardInterrupt], which no
    handler of the program catches. *)

From Stdlib Require Import List String Ascii NArith ZArith Bool Lia.
From Stdlib Require Import Decimal DecimalFacts DecimalPos DecimalN.
From Stdlib.Strings Require Byte.
Import ListNotations.

Set Warnings "-register-all".

(* ================================================================= *)
(** ** Python strings *)

(** A Python [str] is a sequence of Unicode code points. *)
Definition pystr := list N.

(** A Python [bytes] object. *)
Definition pybytes := list Byte.byte.

(** The [str] written as an ASCII literal in the source. *)
Definition text (s : string) : pystr :=
  map N_of_ascii (list_ascii_of_string s).

(** Same as [text] with every apostrophe standing for a double quote
    (code point 34); used to write JSON documents legibly. *)
Definition quoted (s : string) : pystr :=
  map (fun c => if N.eqb c 39 then 34%N else c) (text s).

Definition pystr_eqb (a b : pystr) : bool :=
  if list_eq_dec N.eq_dec a b then true else false.

(** [strip_prefix p s] is [Some r] when [s = p ++ r]. *)
Fixpoint strip_prefix (p s : pystr) : option pystr :=
  match p, s with
  | [], _ => Some s
  | _ :: _, [] => None
  | a :: p', b :: s' => if N.eqb a b then strip_prefix p' s' else None
  end.

(** [s.startswith(p)] *)
Definition startswith (p s : pystr) : bool :=
  match strip_prefix p s with Some _ => true | None => false end.

(** [needle in hay] on strings: substring test. *)
Fixpoint contains (needle hay : pystr) : bool :=
  startswith needle hay ||
  match hay with
  | [] => false
  | _ :: hay' => contains needle hay'
  end.

(** [sep.join(parts)] *)
Fixpoint join (sep : pystr) (parts : list pystr) : pystr :=
  match parts with
  | [] => []
  | [p] => p
  | p :: rest => p ++ sep ++ join sep rest
  end.

(* ================================================================= *)
(** ** Python values and exceptions *)

(** A Python [float] is carried as the decimal literal that denotes it (for
    a value built by the program, its [repr]); no binary64 arithmetic is
    done, so two literals of one float are kept apart and the exponent range
    is not checked.  The three special values are separate. *)
Inductive pyfloat :=
| FNum (lit : pystr)
| FNan
| FInf (negative : bool).

(** Keys that [json.dumps] accepts in a [dict]. *)
Inductive pykey :=
| KStr (s : pystr)
| KInt (z : Z)
| KBool (b : bool)
| KNone
| KFloat (f : pyfloat).

(** The Python values that reach the codec.  A [dict] keeps its insertion
    order: it is an association list.  [PObject] is any other object (a
    [set], [bytes], an instance): [json.dumps] does not serialize it. *)
Inductive pyval :=
| PNone
| PBool (b : bool)
| PInt (z : Z)
| PFloat (f : pyfloat)
| PStr (s : pystr)
| PList (l : list pyval)
| PTuple (l : list pyval)
| PDict (d : list (pykey * pyval))
| PObject (tyname : pystr).

(** The exceptions the program meets; each carries what [str(e)] shows.
    The texts of library exceptions are the library's: the embedding keeps
    the leading sentence and not positions or errno numbers. *)
Inductive exn :=
| ConnectionError (msg : pystr)
| OSError (msg : pystr)
| JSONDecodeError (msg : pystr)
| UnicodeDecodeError (msg : pystr)
| UnicodeEncodeError (msg : pystr)
| TypeError (msg : pystr)
| AttributeError (msg : pystr)
| KeyError (key : pystr)
| RecursionError
| Exception_ (msg : pystr).

(** [str(e)]; a [KeyError] shows the [repr] of its key, here always a plain
    literal of the source. *)
Definition str_exn (e : exn) : pystr :=
  match e with
  | ConnectionError m | OSError m | JSONDecodeError m
  | UnicodeDecodeError m | UnicodeEncodeError m | TypeError m
  | AttributeError m | Exception_ m => m
  | KeyError k => text "'" ++ k ++ text "'"
  | RecursionError => text "maximum recursion depth exceeded"
  end.

(** A computation that returns or raises. *)
Inductive res (A : Type) :=
| Ok (a : A)
| Raise (e : exn).
Arguments Ok {A} a.
Arguments Raise {A} e.

Definition res_bind {A B} (r : res A) (k : A -> res B) : res B :=
  match r with
  | Ok a => k a
  | Raise e => Raise e
  end.

(** Runs the computations of a list in order; the first exception wins. *)
Fixpoint sequence {A} (l : list (res A)) : res (list A) :=
  match l with
  | [] => Ok []
  | r :: rest =>
      res_bind r (fun a => res_bind (sequence rest) (fun t => Ok (a :: t)))
  end.

(** The name [type(v).__name__] shows in error messages. *)
Definition type_name (v : pyval) : pystr :=
  match v with
  | PNone => text "NoneType"
  | PBool _ => text "bool"
  | PInt _ => text "int"
  | PFloat _ => text "float"
  | PStr _ => text "str"
  | PList _ => text "list"
  | PTuple _ => text "tuple"
  | PDict _ => text "dict"
  | PObject n => n
  end.

Definition key_is_str (s : pystr) (k : pykey) : bool :=
  match k with
  | KStr t => pystr_eqb s t
  | _ => false
  end.

(** [d.get(s)] for a [str] key [s]; a [str] equals no key of another
    type. *)
Fixpoint dict_get (s : pystr) (d : list (pykey * pyval)) : option pyval :=
  match d with
  | [] => None
  | (k, v) :: d' => if key_is_str s k then Some v else dict_get s d'
  end.

(** [d[s] = v] for a [str] key: an existing key keeps its place. *)
Fixpoint dict_set (s : pystr) (v : pyval) (d : list (pykey * pyval))
  : list (pykey * pyval) :=
  match d with
  | [] => [(KStr s, v)]
  | (k, w) :: d' =>
      if key_is_str s k then (k, v) :: d' else (k, w) :: dict_set s v d'
  end.

(** [v[s]] for a [str] subscript [s]. *)
Definition subscript (v : pyval) (s : pystr) : res pyval :=
  match v with
  | PDict d =>
      match dict_get s d with
      | Some w => Ok w
      | None => Raise (KeyError s)
      end
  | PList _ | PTuple _ =>
      Raise (TypeError (type_name v ++
                        text " indices must be integers or slices, not str"))
  | PStr _ => Raise (TypeError (text "string indices must be integers, not 'str'"))
  | _ => Raise (TypeError (text "'" ++ type_name v ++
                           text "' object is not subscriptable"))
  end.

(** A float literal denotes zero when its mantissa has no digit 1..9. *)
Fixpoint mantissa_zero (lit : pystr) : bool :=
  match lit with
  | [] => true
  | c :: r =>
      if N.eqb c 101 || N.eqb c 69 then true
      else if N.leb 49 c && N.leb c 57 then false
      else mantissa_zero r
  end.

(** Truth value of a Python object, as [or] and [if] test it. *)
Definition truthy (v : pyval) : bool :=
  match v with
  | PNone => false
  | PBool b => b
  | PInt z => negb (Z.eqb z 0)
  | PFloat (FNum lit) => negb (mantissa_zero lit)
  | PFloat _ => true
  | PStr s => negb (pystr_eqb s [])
  | PList l | PTuple l => match l with [] => false | _ => true end
  | PDict d => match d with [] => false | _ => true end
  | PObject _ => true
  end.

(* ================================================================= *)
(** ** [json.dumps]

    The encoder of the standard library with its defaults, as the program
    calls it: [ensure_ascii=True], separators [", "] and [": "],
    [allow_nan=True].  Python's own recursion limit is not modelled. *)

Local Open Scope N_scope.

Fixpoint uint_digits (u : uint) : pystr :=
  match u with
  | Nil => []
  | D0 u => 48 :: uint_digits u
  | D1 u => 49 :: uint_digits u
  | D2 u => 50 :: uint_digits u
  | D3 u => 51 :: uint_digits u
  | D4 u => 52 :: uint_digits u
  | D5 u => 53 :: uint_digits u
  | D6 u => 54 :: uint_digits u
  | D7 u => 55 :: uint_digits u
  | D8 u => 56 :: uint_digits u
  | D9 u => 57 :: uint_digits u
  end.

(** [int.__repr__]: the decimal numeral of an integer. *)
Definition repr_int (z : Z) : pystr :=
  match z with
  | Z0 => [48]
  | Zpos p => uint_digits (Pos.to_uint p)
  | Zneg p => 45 :: uint_digits (Pos.to_uint p)
  end.

(** What the encoder writes for a float: [float.__repr__], or the three
    JavaScript names. *)
Definition float_repr (f : pyfloat) : pystr :=
  match f with
  | FNum lit => lit
  | FNan => text "NaN"
  | FInf false => text "Infinity"
  | FInf true => text "-Infinity"
  end.

Definition hex_digit (n : N) : N :=
  if n <? 10 then 48 + n else 87 + n.

(** ['\\u{0:04x}'.format(c)] *)
Definition u_escape (c : N) : pystr :=
  [92; 117; hex_digit ((c / 4096) mod 16); hex_digit ((c / 256) mod 16);
   hex_digit ((c / 16) mod 16); hex_digit (c mod 16)].

(** One character of [encode_basestring_ascii]: the short escapes, printable
    ASCII as it is, [\uXXXX] for the rest, a surrogate pair above the BMP
    ([0xd800 | ((n >> 10) & 0x3ff)] and [0xdc00 | (n & 0x3ff)] written with
    division and remainder). *)
Definition escape_char (c : N) : pystr :=
  if c =? 34 then [92; 34]
  else if c =? 92 then [92; 92]
  else if c =? 10 then [92; 110]
  else if c =? 13 then [92; 114]
  else if c =? 9 then [92; 116]
  else if c =? 8 then [92; 98]
  else if c =? 12 then [92; 102]
  else if (32 <=? c) && (c <=? 126) then [c]
  else if c <? 65536 then u_escape c
  else
    let n := c - 65536 in
    u_escape (55296 + (n / 1024) mod 1024) ++ u_escape (56320 + n mod 1024).

Definition encode_str (s : pystr) : pystr :=
  34 :: flat_map escape_char s ++ [34].

(** A [dict] key as the encoder coerces it to a string. *)
Definition key_str (k : pykey) : pystr :=
  match k with
  | KStr s => s
  | KInt z => repr_int z
  | KBool true => text "true"
  | KBool false => text "false"
  | KNone => text "null"
  | KFloat f => float_repr f
  end.

Fixpoint json_dumps (v : pyval) : res pystr :=
  match v with
  | PNone => Ok (text "null")
  | PBool true => Ok (text "true")
  | PBool false => Ok (text "false")
  | PInt z => Ok (repr_int z)
  | PFloat f => Ok (float_repr f)
  | PStr s => Ok (encode_str s)
  | PList l | PTuple l =>
      res_bind (sequence (map json_dumps l))
        (fun parts => Ok (91 :: join (text ", ") parts ++ [93]))
  | PDict d =>
      res_bind
        (sequence
           (map (fun kv =>
                   res_bind (json_dumps (snd kv))
                     (fun t => Ok (encode_str (key_str (fst kv))
                                   ++ text ": " ++ t)))
              d))
        (fun parts => Ok (123 :: join (text ", ") parts ++ [125]))
  | PObject n =>
      Raise (TypeError (text "Object of type " ++ n ++
                        text " is not JSON serializable"))
  end.

(* ================================================================= *)
(** ** [json.loads]

    The decoder of the standard library with its defaults ([strict=True], no
    hooks): [scan_once] with the string, number, array and object scanners.
    Error texts are kept without the position suffix; the recursion limit of
    the interpreter is not modelled. *)

Definition is_ws (c : N) : bool :=
  (c =? 32) || (c =? 9) || (c =? 10) || (c =? 13).

Fixpoint skip_ws (s : pystr) : pystr :=
  match s with
  | [] => []
  | c :: r => if is_ws c then skip_ws r else s
  end.

Definition is_digit (c : N) : bool := (48 <=? c) && (c <=? 57).

Definition hexval (c : N) : option N :=
  if is_digit c then Some (c - 48)
  else if (97 <=? c) && (c <=? 102) then Some (c - 87)
  else if (65 <=? c) && (c <=? 70) then Some (c - 55)
  else None.

Definition hex4 (a b c d : N) : option N :=
  match hexval a, hexval b, hexval c, hexval d with
  | Some x, Some y, Some z, Some w => Some (x * 4096 + y * 256 + z * 16 + w)
  | _, _, _, _ => None
  end.

Definition is_high_surrogate (u : N) : bool := (55296 <=? u) && (u <=? 56319).
Definition is_low_surrogate (u : N) : bool := (56320 <=? u) && (u <=? 57343).

(** The character a short escape stands for. *)
Definition unescape (e : N) : option N :=
  if e =? 34 then Some 34
  else if e =? 92 then Some 92
  else if e =? 47 then Some 47
  else if e =? 98 then Some 8
  else if e =? 102 then Some 12
  else if e =? 110 then Some 10
  else if e =? 114 then Some 13
  else if e =? 116 then Some 9
  else None.

Definition push_char {A} (c : N) (r : res (pystr * A)) : res (pystr * A) :=
  res_bind r (fun p => Ok (c :: fst p, snd p)).

(** [scanstring], called after the opening quote: the decoded string and
    the input after the closing quote.  A high surrogate escape directly
    followed by a low surrogate escape makes one character
    ([0x10000 + (((u - 0xd800) << 10) | (u2 - 0xdc00))]). *)
Fixpoint scanstring (s : pystr) : res (pystr * pystr) :=
  match s with
  | [] => Raise (JSONDecodeError (text "Unterminated string starting at"))
  | c :: r =>
      if c =? 34 then Ok ([], r)
      else if c =? 92 then
        match r with
        | [] => Raise (JSONDecodeError (text "Unterminated string starting at"))
        | e :: r1 =>
            if e =? 117 then
              match r1 with
              | h1 :: h2 :: h3 :: h4 :: r2 =>
                  match hex4 h1 h2 h3 h4 with
                  | None => Raise (JSONDecodeError (text "Invalid \uXXXX escape"))
                  | Some u =>
                      match r2 with
                      | b :: k :: l1 :: l2 :: l3 :: l4 :: r3 =>
                          if is_high_surrogate u && (b =? 92) && (k =? 117) then
                            match hex4 l1 l2 l3 l4 with
                            | None =>
                                Raise (JSONDecodeError (text "Invalid \uXXXX escape"))
                            | Some u2 =>
                                if is_low_surrogate u2 then
                                  push_char
                                    (65536 + ((u - 55296) * 1024 + (u2 - 56320)))
                                    (scanstring r3)
                                else push_char u (scanstring r2)
                            end
                          else push_char u (scanstring r2)
                      | _ => push_char u (scanstring r2)
                      end
                  end
              | _ => Raise (JSONDecodeError (text "Invalid \uXXXX escape"))
              end
            else
              match unescape e with
              | Some c' => push_char c' (scanstring r1)
              | None => Raise (JSONDecodeError (text "Invalid \escape"))
              end
        end
      else if c <? 32 then
        Raise (JSONDecodeError (text "Invalid control character at"))
      else push_char c (scanstring r)
  end.

Fixpoint span_digits (s : pystr) : pystr * pystr :=
  match s with
  | [] => ([], [])
  | c :: r =>
      if is_digit c then
        let p := span_digits r in (c :: fst p, snd p)
      else ([], s)
  end.

Fixpoint digits_uint (s : pystr) : uint :=
  match s with
  | [] => Nil
  | c :: r =>
      let u := digits_uint r in
      if c =? 48 then D0 u else if c =? 49 then D1 u
      else if c =? 50 then D2 u else if c =? 51 then D3 u
      else if c =? 52 then D4 u else if c =? 53 then D5 u
      else if c =? 54 then D6 u else if c =? 55 then D7 u
      else if c =? 56 then D8 u else D9 u
  end.

(** [int(text)] for an optional minus sign and a run of digits. *)
Definition int_of_digits (negative : bool) (digits : pystr) : Z :=
  let n := Z.of_N (N.of_uint (digits_uint digits)) in
  if negative then Z.opp n else n.

(** The fraction, a dot and at least one digit, when present. *)
Definition scan_frac (s : pystr) : pystr * pystr :=
  match s with
  | c :: r =>
      if c =? 46 then
        match span_digits r with
        | ([], _) => ([], s)
        | (d, r') => (c :: d, r')
        end
      else ([], s)
  | [] => ([], s)
  end.

(** The exponent, e or E, an optional sign and at least one digit, when
    present. *)
Definition scan_exp (s : pystr) : pystr * pystr :=
  match s with
  | c :: r =>
      if (c =? 101) || (c =? 69) then
        let sr :=
          match r with
          | g :: r' => if (g =? 43) || (g =? 45) then ([g], r') else ([], r)
          | [] => ([], r)
          end in
        match span_digits (snd sr) with
        | ([], _) => ([], s)
        | (d, r') => (c :: fst sr ++ d, r')
        end
      else ([], s)
  | [] => ([], s)
  end.

(** The number pattern of the scanner after the optional minus sign: a
    single 0 or a digit 1..9 followed by digits, then an optional fraction
    and an optional exponent.  The result is an [int] when neither fraction
    nor exponent is there, a [float] otherwise. *)
Definition scan_unsigned (negative : bool) (s : pystr)
  : option (pyval * pystr) :=
  match s with
  | [] => None
  | c :: r =>
      let ip :=
        if c =? 48 then Some ([c], r)
        else if is_digit c then
          let p := span_digits r in Some (c :: fst p, snd p)
        else None in
      match ip with
      | None => None
      | Some (ipart, r1) =>
          let fr := scan_frac r1 in
          let ex := scan_exp (snd fr) in
          match fst fr, fst ex with
          | [], [] => Some (PInt (int_of_digits negative ipart), snd ex)
          | _, _ =>
              Some (PFloat (FNum ((if negative then [45] else [])
                                  ++ ipart ++ fst fr ++ fst ex)),
                    snd ex)
          end
      end
  end.

(** The number pattern with its sign. *)
Definition scan_number (s : pystr) : option (pyval * pystr) :=
  match s with
  | c :: r => if c =? 45 then scan_unsigned true r else scan_unsigned false s
  | [] => None
  end.

(** The constants and numbers of [scan_once]. *)
Definition scan_atom (s : pystr) : res (pyval * pystr) :=
  match strip_prefix (text "null") s with
  | Some r => Ok (PNone, r)
  | None =>
  match strip_prefix (text "true") s with
  | Some r => Ok (PBool true, r)
  | None =>
  match strip_prefix (text "false") s with
  | Some r => Ok (PBool false, r)
  | None =>
  match strip_prefix (text "-Infinity") s with
  | Some r => Ok (PFloat (FInf true), r)
  | None =>
  match scan_number s with
  | Some p => Ok p
  | None =>
  match strip_prefix (text "NaN") s with
  | Some r => Ok (PFloat FNan, r)
  | None =>
  match strip_prefix (text "Infinity") s with
  | Some r => Ok (PFloat (FInf false), r)
  | None => Raise (JSONDecodeError (text "Expecting value"))
  end end end end end end end.

(** [scan_once] and the array and object loops.  The recursion is on a fuel
    that [json_loads] sets from the length of the document;
    [RecursionError] marks its exhaustion, which [json_loads] never
    meets. *)
Fixpoint scan_once (fuel : nat) (s : pystr) : res (pyval * pystr) :=
  match fuel with
  | O => Raise RecursionError
  | S f =>
      match s with
      | [] => Raise (JSONDecodeError (text "Expecting value"))
      | c :: r =>
          if c =? 34 then
            res_bind (scanstring r) (fun p => Ok (PStr (fst p), snd p))
          else if c =? 123 then
            match skip_ws r with
            | c1 :: r2 =>
                if c1 =? 125 then Ok (PDict [], r2)
                else parse_object f (c1 :: r2) []
            | [] => parse_object f [] []
            end
          else if c =? 91 then
            match skip_ws r with
            | c1 :: r2 =>
                if c1 =? 93 then Ok (PList [], r2)
                else parse_array f (c1 :: r2) []
            | [] => parse_array f [] []
            end
          else scan_atom s
      end
  end

with parse_array (fuel : nat) (s : pystr) (acc : list pyval)
  : res (pyval * pystr) :=
  match fuel with
  | O => Raise RecursionError
  | S f =>
      res_bind (scan_once f s) (fun p =>
        match skip_ws (snd p) with
        | c :: r =>
            if c =? 93 then Ok (PList (List.rev (fst p :: acc)), r)
            else if c =? 44 then parse_array f (skip_ws r) (fst p :: acc)
            else Raise (JSONDecodeError (text "Expecting ',' delimiter"))
        | [] => Raise (JSONDecodeError (text "Expecting ',' delimiter"))
        end)
  end

with parse_object (fuel : nat) (s : pystr) (acc : list (pykey * pyval))
  : res (pyval * pystr) :=
  match fuel with
  | O => Raise RecursionError
  | S f =>
      match s with
      | c :: r =>
          if c =? 34 then
            res_bind (scanstring r) (fun k =>
              match skip_ws (snd k) with
              | c1 :: r1 =>
                  if c1 =? 58 then
                    res_bind (scan_once f (skip_ws r1)) (fun p =>
                      let acc' := dict_set (fst k) (fst p) acc in
                      match skip_ws (snd p) with
                      | c2 :: r2 =>
                          if c2 =? 125 then Ok (PDict acc', r2)
                          else if c2 =? 44 then
                            parse_object f (skip_ws r2) acc'
                          else
                            Raise (JSONDecodeError
                                     (text "Expecting ',' delimiter"))
                      | [] =>
                          Raise (JSONDecodeError
                                   (text "Expecting ',' delimiter"))
                      end)
                  else Raise (JSONDecodeError (text "Expecting ':' delimiter"))
              | [] => Raise (JSONDecodeError (text "Expecting ':' delimiter"))
              end)
          else
            Raise (JSONDecodeError
                     (text "Expecting property name enclosed in double quotes"))
      | [] =>
          Raise (JSONDecodeError
                   (text "Expecting property name enclosed in double quotes"))
      end
  end.

(** [json.loads(s)] for a [str]: a leading byte-order mark is refused,
    whitespace around the document is skipped, anything after it is an
    error. *)
Definition json_loads (s : pystr) : res pyval :=
  if startswith [65279] s then
    Raise (JSONDecodeError (text "Unexpected UTF-8 BOM (decode using utf-8-sig)"))
  else
    match scan_once (2 * List.length s + 2) (skip_ws s) with
    | Ok (v, rest) =>
        match skip_ws rest with
        | [] => Ok v
        | _ :: _ => Raise (JSONDecodeError (text "Extra data"))
        end
    | Raise e => Raise e
    end.

(* ================================================================= *)
(** ** UTF-8: [str.encode('utf-8')] and [bytes.decode('utf-8')]

    Both with the default [errors='strict']. *)

Definition is_surrogate (c : N) : bool := (55296 <=? c) && (c <=? 57343).

Definition utf8_encode_char (c : N) : option (list N) :=
  if c <? 128 then Some [c]
  else if c <? 2048 then Some [192 + c / 64; 128 + c mod 64]
  else if c <? 65536 then
    if is_surrogate c then None
    else Some [224 + c / 4096; 128 + (c / 64) mod 64; 128 + c mod 64]
  else if c <? 1114112 then
    Some [240 + c / 262144; 128 + (c / 4096) mod 64;
          128 + (c / 64) mod 64; 128 + c mod 64]
  else None.

Fixpoint utf8_encode (s : pystr) : option (list N) :=
  match s with
  | [] => Some []
  | c :: r =>
      match utf8_encode_char c, utf8_encode r with
      | Some bs, Some rest => Some (bs ++ rest)
      | _, _ => None
      end
  end.

Definition byte_of_N (n : N) : Byte.byte :=
  match Byte.of_N n with
  | Some b => b
  | None => Byte.x00
  end.

Definition str_encode (s : pystr) : res pybytes :=
  match utf8_encode s with
  | Some bs => Ok (map byte_of_N bs)
  | None =>
      Raise (UnicodeEncodeError
               (text "'utf-8' codec can't encode character: surrogates not allowed"))
  end.

Definition is_cont (b : N) : bool := (128 <=? b) && (b <=? 191).

(** The well-formed byte sequences of UTF-8: no overlong form, no surrogate,
    nothing above U+10FFFF. *)
Fixpoint utf8_decode (bs : list N) : option pystr :=
  match bs with
  | [] => Some []
  | b0 :: r =>
      if b0 <? 128 then option_map (cons b0) (utf8_decode r)
      else if (194 <=? b0) && (b0 <=? 223) then
        match r with
        | b1 :: r1 =>
            if is_cont b1 then
              option_map (cons ((b0 - 192) * 64 + (b1 - 128))) (utf8_decode r1)
            else None
        | _ => None
        end
      else if (224 <=? b0) && (b0 <=? 239) then
        match r with
        | b1 :: b2 :: r2 =>
            if ((if b0 =? 224 then 160 else 128) <=? b1)
               && (b1 <=? (if b0 =? 237 then 159 else 191))
               && is_cont b2 then
              option_map
                (cons ((b0 - 224) * 4096 + (b1 - 128) * 64 + (b2 - 128)))
                (utf8_decode r2)
            else None
        | _ => None
        end
      else if (240 <=? b0) && (b0 <=? 244) then
        match r with
        | b1 :: b2 :: b3 :: r3 =>
            if ((if b0 =? 240 then 144 else 128) <=? b1)
               && (b1 <=? (if b0 =? 244 then 143 else 191))
               && is_cont b2 && is_cont b3 then
              option_map
                (cons ((b0 - 240) * 262144 + (b1 - 128) * 4096
                       + (b2 - 128) * 64 + (b3 - 128)))
                (utf8_decode r3)
            else None
        | _ => None
        end
      else None
  end.

Definition bytes_decode (b : pybytes) : res pystr :=
  match utf8_decode (map Byte.to_N b) with
  | Some s => Ok s
  | None =>
      Raise (UnicodeDecodeError (text "'utf-8' codec can't decode bytes"))
  end.

Local Close Scope N_scope.

(* ================================================================= *)
(** ** The world: sockets and the remote plugin *)

(** What the operating system and the remote plugin do.  Sockets are
    numbered in the order of their creation.  An answer [Some msg] is an
    [OSError] with that text. *)
Record world := {
  (** [socket.socket(AF_INET, SOCK_STREAM)] for the socket of that number *)
  socket_create : nat -> option pystr;
  (** [sock.connect((host, port))] *)
  socket_connect : nat -> pystr -> Z -> option pystr;
  (** [sock.sendall(data)] on a connected socket *)
  socket_sendall : nat -> pybytes -> option pystr;
  (** what the peer has ready when [sock.recv] is called after [data] was
      sent, or the error of the read *)
  socket_recv : nat -> pybytes -> pystr + pybytes;
  (** the text of the error for a write on a socket that is not connected *)
  not_connected : pystr
}.

(** What is observed of a run, oldest first.  [EvSendCommand] and
    [EvCallApi] record the entry into the two functions. *)
Inductive event :=
| EvSocket (sid : nat)
| EvConnect (sid : nat) (ok : bool)
| EvSendall (sid : nat) (data : pybytes)
| EvRecv (sid : nat)
| EvSendCommand (command_type : pystr) (params : pyval)
| EvCallApi (api_path : pystr) (args kwargs : pyval).

(** The state outside the Python objects: how many sockets were created,
    which of them are connected, and the events so far. *)
Record os_state := {
  sockets : nat;
  connected : list nat;
  trace : list event
}.

(** class [GimpConnection]: [self.sock] is [None] or a socket, named by its
    number. *)
Record GimpConnection := {
  host : pystr;
  port : Z;
  sock : option nat
}.

(** A method runs on its object and the outer state. *)
Definition obj_state : Type := GimpConnection * os_state.

(** The module: the global [_gimp_connection] and the outer state. *)
Record state := {
  gimp_connection : option GimpConnection;
  os : os_state
}.

(* ================================================================= *)
(** ** State and exception monad *)

Definition M (S A : Type) : Type := S -> S * res A.

Definition ret {S A} (a : A) : M S A := fun s => (s, Ok a).

Definition raise {S A} (e : exn) : M S A := fun s => (s, Raise e).

Definition bind {S A B} (m : M S A) (k : A -> M S B) : M S B :=
  fun s =>
    match m s with
    | (s', Ok a) => k a s'
    | (s', Raise e) => (s', Raise e)
    end.

(** [try: m  except Exception as e: handler e] *)
Definition try_except {S A} (m : M S A) (handler : exn -> M S A) : M S A :=
  fun s =>
    match m s with
    | (s', Ok a) => (s', Ok a)
    | (s', Raise e) => handler e s'
    end.

Definition lift {S A} (r : res A) : M S A := fun s => (s, r).

Definition gets {S A} (f : S -> A) : M S A := fun s => (s, Ok (f s)).

Definition modify {S} (f : S -> S) : M S unit := fun s => (f s, Ok tt).

Declare Scope py_scope.
Delimit Scope py_scope with py.
Notation "'let!' x ':=' m 'in' k" := (bind m (fun x => k))
  (at level 10, x name, m at level 100, k at level 200) : py_scope.
Notation "m ';;' k" := (bind m (fun _ => k))
  (at level 100, k at level 200, right associativity) : py_scope.

(* ================================================================= *)
(** ** The program *)

Section Program.

Variable W : world.

Local Open Scope py_scope.

Definition log {S} (upd : event -> S -> S) (e : event) : M S unit :=
  modify (upd e).

Definition os_log (e : event) (o : os_state) : os_state :=
  {| sockets := sockets o; connected := connected o;
     trace := trace o ++ [e] |}.

Definition obj_log (e : event) (s : obj_state) : obj_state :=
  (fst s, os_log e (snd s)).

(** [self.sock = v] *)
Definition set_sock (v : option nat) : M obj_state unit :=
  modify (fun s =>
            ({| host := host (fst s); port := port (fst s); sock := v |},
             snd s)).

(** [socket.socket(socket.AF_INET, socket.SOCK_STREAM)] *)
Definition socket_socket : M obj_state nat :=
  fun s =>
    let sid := sockets (snd s) in
    let o := os_log (EvSocket sid) (snd s) in
    match socket_create W sid with
    | Some msg => ((fst s, o), Raise (OSError msg))
    | None =>
        ((fst s, {| sockets := S sid; connected := connected o;
                    trace := trace o |}),
         Ok sid)
    end.

(** [sock.connect((host, port))] *)
Definition sock_connect (sid : nat) (h : pystr) (p : Z) : M obj_state unit :=
  fun s =>
    match socket_connect W sid h p with
    | Some msg => (obj_log (EvConnect sid false) s, Raise (OSError msg))
    | None =>
        let o := os_log (EvConnect sid true) (snd s) in
        ((fst s, {| sockets := sockets o; connected := sid :: connected o;
                    trace := trace o |}),
         Ok tt)
    end.

(** [sock.sendall(data)]: a socket that is not connected refuses the
    write. *)
Definition sock_sendall (sid : nat) (data : pybytes) : M obj_state unit :=
  fun s =>
    let s' := obj_log (EvSendall sid data) s in
    if existsb (Nat.eqb sid) (connected (snd s)) then
      match socket_sendall W sid data with
      | Some msg => (s', Raise (OSError msg))
      | None => (s', Ok tt)
      end
    else (s', Raise (OSError (not_connected W))).

(** [sock.recv(bufsize)] after [sent] went out: at most [bufsize] bytes of
    what the peer has ready. *)
Definition sock_recv (sid : nat) (sent : pybytes) (bufsize : nat)
  : M obj_state pybytes :=
  fun s =>
    let s' := obj_log (EvRecv sid) s in
    match socket_recv W sid sent with
    | inl msg => (s', Raise (OSError msg))
    | inr data => (s', Ok (firstn bufsize data))
    end.

(** [GimpConnection.__init__] with its defaults. *)
Definition GimpConnection_init : GimpConnection :=
  {| host := text "localhost"; port := 9877; sock := None |}.

(** The text of the [ConnectionError] that [connect] raises. *)
Definition connect_error : pystr :=
  text "Could not connect to GIMP. Ensure the MCP Server plugin is running.".

(** [GimpConnection.connect] *)
Definition connect : M obj_state unit :=
  let! self := gets fst in
  match sock self with
  | Some _ => ret tt
  | None =>
      try_except
        (let! s := socket_socket in
         set_sock (Some s) ;;
         sock_connect s (host self) (port self) ;;
         ret tt)
        (fun _ =>
           raise (ConnectionError connect_error))
  end.

(** [x or y] *)
Definition py_or (x y : pyval) : pyval := if truthy x then x else y.

(** [self.sock.attr] when [self.sock] may be [None]. *)
Definition the_sock (attr : string) : M obj_state nat :=
  let! self := gets fst in
  match sock self with
  | Some s => ret s
  | None =>
      raise (AttributeError (text "'NoneType' object has no attribute '"
                             ++ text attr ++ text "'"))
  end.

(** The codec of the wire: [json.dumps(command).encode('utf-8')] for the
    request and [json.loads(response.decode('utf-8'))] for the reply. *)
Definition encode_command (command : pyval) : res pybytes :=
  res_bind (json_dumps command) str_encode.

Definition decode_reply (response : pybytes) : res pyval :=
  res_bind (bytes_decode response) json_loads.

(** The command [send_command] builds:
    [{"type": command_type, "params": params or {}}]. *)
Definition make_command (command_type : pystr) (params : pyval) : pyval :=
  PDict [(KStr (text "type"), PStr command_type);
         (KStr (text "params"), py_or params (PDict []))].

(** [GimpConnection.send_command]; [params] is [PNone] for the default. *)
Definition send_command (command_type : pystr) (params : pyval)
  : M obj_state pyval :=
  log obj_log (EvSendCommand command_type params) ;;
  let! self := gets fst in
  (match sock self with
   | None => connect
   | Some _ => ret tt
   end) ;;
  let command := make_command command_type params in
  try_except
    (let! s := the_sock "sendall" in
     let! data := lift (encode_command command) in
     sock_sendall s data ;;
     let! s' := the_sock "recv" in
     let! response := sock_recv s' data 1024 in
     set_sock None ;;
     lift (decode_reply response))
    (fun e =>
       set_sock None ;;
       raise (Exception_ (text "Error communicating with GIMP: "
                          ++ str_exn e))).

(** Runs a method on the object the global [_gimp_connection] names. *)
Definition on_global {A} (attr : string) (m : M obj_state A) : M state A :=
  fun st =>
    match gimp_connection st with
    | Some c =>
        let r := m (c, os st) in
        ({| gimp_connection := Some (fst (fst r)); os := snd (fst r) |},
         snd r)
    | None =>
        (st, Raise (AttributeError
                      (text "'NoneType' object has no attribute '"
                       ++ text attr ++ text "'")))
    end.

(** [get_gimp_connection]: the result is the global object itself. *)
Definition get_gimp_connection : M state unit :=
  let! g := gets gimp_connection in
  match g with
  | None =>
      modify (fun st => {| gimp_connection := Some GimpConnection_init;
                           os := os st |}) ;;
      on_global "connect" connect
  | Some _ => ret tt
  end.

(** [v == s] for a [str] literal [s]. *)
Definition eq_str (v : pyval) (s : pystr) : bool :=
  match v with
  | PStr t => pystr_eqb t s
  | _ => false
  end.

Definition state_log (e : event) (st : state) : state :=
  {| gimp_connection := gimp_connection st; os := os_log e (os st) |}.

(** [call_api]; the context argument, which the body never reads, is left
    out. *)
Definition call_api (api_path : pystr) (args kwargs : pyval)
  : M state pystr :=
  log state_log (EvCallApi api_path args kwargs) ;;
  try_except
    (get_gimp_connection ;;
     let! result :=
       on_global "send_command"
         (send_command (text "call_api")
            (PDict [(KStr (text "api_path"), PStr api_path);
                    (KStr (text "args"), args);
                    (KStr (text "kwargs"), kwargs)])) in
     let! status := lift (subscript result (text "status")) in
     if eq_str status (text "success") then
       let! r := lift (subscript result (text "result")) in
       lift (json_dumps r)
     else
       let! e := lift (subscript result (text "error")) in
       let! d := lift (json_dumps e) in
       ret (text "Error: " ++ d))
    (fun e => ret (text "Error: " ++ str_exn e)).

(** [get_images] *)
Definition get_images : M state pystr :=
  call_api (text "Gimp.get_images") (PList []) (PDict []).

(** [get_image_info] *)
Definition get_image_info (image_id : Z) : M state pystr :=
  let! image :=
    call_api (text "Gimp.Image.get_by_id") (PList [PInt image_id]) (PDict []) in
  if contains (text "Error") image then ret image
  else
    let! image_obj := lift (json_loads image) in
    let! id1 := lift (subscript image_obj (text "id")) in
    let! width :=
      call_api (text "Gimp.Image.get_width") (PList [id1]) (PDict []) in
    let! id2 := lift (subscript image_obj (text "id")) in
    let! height :=
      call_api (text "Gimp.Image.get_height") (PList [id2]) (PDict []) in
    let! id3 := lift (subscript image_obj (text "id")) in
    let! layers :=
      call_api (text "Gimp.Image.get_layers") (PList [id3]) (PDict []) in
    lift (json_dumps
            (PDict [(KStr (text "width"), PStr width);
                    (KStr (text "height"), PStr height);
                    (KStr (text "layers"), PStr layers)])).

(** [apply_gaussian_blur] *)
Definition apply_gaussian_blur (image_id : Z) (radius : pyfloat)
  : M state pystr :=
  let! image :=
    call_api (text "Gimp.Image.get_by_id") (PList [PInt image_id]) (PDict []) in
  if contains (text "Error") image then ret image
  else
    let! image_obj := lift (json_loads image) in
    let! id1 := lift (subscript image_obj (text "id")) in
    let! drawable :=
      call_api (text "Gimp.Image.get_active_layer") (PList [id1]) (PDict []) in
    if contains (text "Error") drawable then ret drawable
    else
      let! drawable_obj := lift (json_loads drawable) in
      let! id2 := lift (subscript image_obj (text "id")) in
      let! did := lift (subscript drawable_obj (text "id")) in
      let! result :=
        call_api (text "Gimp.get_pdb.run_procedure")
          (PList [PStr (text "plug-in-gauss"); id2; did;
                  PFloat radius; PFloat radius; PInt 0])
          (PDict []) in
      if contains (text "Error") result then ret result
      else
        call_api (text "Gimp.displays_flush") (PList []) (PDict []) ;;
        ret (text "Applied Gaussian blur successfully").

End Program.

(* ================================================================= *)
(** ** Observations on a run *)

Definition is_send_command (e : event) : bool :=
  match e with EvSendCommand _ _ => true | _ => false end.

Definition is_call_api (e : event) : bool :=
  match e with EvCallApi _ _ _ => true | _ => false end.

Definition is_connect (e : event) : bool :=
  match e with EvConnect _ _ => true | _ => false end.

(** How many times [send_command] was entered. *)
Definition count_send_command (st : state) : nat :=
  List.length (filter is_send_command (trace (os st))).

(** How many times [call_api] was entered. *)
Definition count_call_api (st : state) : nat :=
  List.length (filter is_call_api (trace (os st))).

(** How many times [sock.connect] was attempted. *)
Definition count_connect (o : os_state) : nat :=
  List.length (filter is_connect (trace o)).

(** The calls of [call_api] in order: path and positional arguments. *)
Definition api_calls (st : state) : list (pystr * pyval) :=
  flat_map (fun e => match e with
                     | EvCallApi p a _ => [(p, a)]
                     | _ => []
                     end)
    (trace (os st)).

(** The start of the process: no connection object, no socket, nothing
    observed. *)
Definition initial_state : state :=
  {| gimp_connection := None;
     os := {| sockets := 0; connected := []; trace := [] |} |}.

(** A returned string that reports an error: it starts with ["Error: "]. *)
Definition is_error (s : pystr) : bool := startswith (text "Error: ") s.

(** Events of the socket layer. *)
Definition io_event (e : event) : bool :=
  negb (is_send_command e) && negb (is_call_api e).

Definition no_call_api (e : event) : bool := negb (is_call_api e).

(** The exchange read a reply from a socket: at most 1024 bytes of what the
    peer had ready, decoded to [reply]. *)
Definition delivered (W : world) (reply : pyval) : Prop :=
  exists sid data bytes,
    socket_recv W sid data = inr bytes /\
    decode_reply (firstn 1024 bytes) = Ok reply.

(** [s] is the JSON text of the result field of a reply whose status is
    success. *)
Definition success_of (reply : pyval) (s : pystr) : Prop :=
  exists status payload,
    subscript reply (text "status") = Ok status /\
    eq_str status (text "success") = true /\
    subscript reply (text "result") = Ok payload /\
    json_dumps payload = Ok s.

(* ================================================================= *)
(** ** Sample worlds *)

(** The [api_path] of the command a request carries. *)
Definition request_path (data : pybytes) : option pystr :=
  match res_bind (bytes_decode data) json_loads with
  | Ok cmd =>
      match res_bind (subscript cmd (text "params"))
              (fun p => subscript p (text "api_path")) with
      | Ok (PStr a) => Some a
      | _ => None
      end
  | Raise _ => None
  end.

Fixpoint lookup_path (a : pystr) (answers : list (pystr * pystr))
  : option pystr :=
  match answers with
  | [] => None
  | (p, doc) :: rest => if pystr_eqb a p then Some doc else lookup_path a rest
  end.

Definition ascii_bytes (s : pystr) : pybytes := map byte_of_N s.

(** A plugin that is up and answers each API path with a fixed document,
    and with an error reply for a path it does not know. *)
Definition plugin_world (answers : list (pystr * pystr)) : world :=
  {| socket_create := fun _ => None;
     socket_connect := fun _ _ _ => None;
     socket_sendall := fun _ _ => None;
     socket_recv := fun _ data =>
       inr (ascii_bytes
              (match request_path data with
               | Some a =>
                   match lookup_path a answers with
                   | Some doc => doc
                   | None => quoted "{'status': 'error', 'error': 'unknown'}"
                   end
               | None => quoted "{'status': 'error', 'error': 'bad request'}"
               end));
     not_connected := text "[Errno 32] Broken pipe" |}.

(** No plugin is listening: every connect is refused. *)
Definition down_world : world :=
  {| socket_create := fun _ => None;
     socket_connect := fun _ _ _ => Some (text "[Errno 111] Connection refused");
     socket_sendall := fun _ _ => None;
     socket_recv := fun _ _ => inr [];
     not_connected := text "[Errno 32] Broken pipe" |}.

(* ================================================================= *)
(** ** JSON-native values

    The values the decoder can produce and that read back as they are:
    [None], booleans, integers, floats other than NaN whose text is a float
    literal of the number pattern, strings without a surrogate pair, lists,
    and dicts whose keys are distinct strings. *)

Local Open Scope N_scope.

(** A code point of a [str]. *)
Definition code_point (c : N) : bool := c <? 1114112.

(** No high surrogate is directly followed by a low surrogate: such a pair
    is written as two escapes, which read back as one character. *)
Fixpoint no_surrogate_pair (s : pystr) : bool :=
  match s with
  | [] => true
  | c :: r =>
      match r with
      | c' :: _ => negb (is_high_surrogate c && is_low_surrogate c')
      | [] => true
      end && no_surrogate_pair r
  end.

(** The strings that read back as they are. *)
Definition str_ok (s : pystr) : bool :=
  forallb code_point s && no_surrogate_pair s.

(** After the escape of a high surrogate: the text does not go on with the
    escape of a low surrogate. *)
Definition plain_after_high (rest : pystr) : bool :=
  match rest with
  | b :: k :: l1 :: l2 :: l3 :: l4 :: _ =>
      negb ((b =? 92) && (k =? 117))
      || match hex4 l1 l2 l3 l4 with
         | Some u2 => negb (is_low_surrogate u2)
         | None => false
         end
  | _ => true
  end.

Definition float_literal (lit : pystr) : bool :=
  match scan_number lit with
  | Some (PFloat (FNum l), []) => pystr_eqb l lit
  | _ => false
  end.

Fixpoint distinct (l : list pystr) : bool :=
  match l with
  | [] => true
  | x :: r => negb (existsb (pystr_eqb x) r) && distinct r
  end.

Definition str_keys (d : list (pykey * pyval)) : list pystr :=
  flat_map (fun kv => match fst kv with KStr k => [k] | _ => [] end) d.

Fixpoint json_native (v : pyval) : bool :=
  match v with
  | PNone | PBool _ | PInt _ => true
  | PFloat (FNum lit) => float_literal lit
  | PFloat FNan => false
  | PFloat (FInf _) => true
  | PStr s => str_ok s
  | PList l => forallb json_native l
  | PTuple _ | PObject _ => false
  | PDict d =>
      forallb (fun kv =>
                 match fst kv with
                 | KStr k => str_ok k
                 | _ => false
                 end && json_native (snd kv)) d
      && distinct (str_keys d)
  end.

(** The text [json.dumps] writes when it does not raise. *)
Fixpoint render (v : pyval) : pystr :=
  match v with
  | PNone => text "null"
  | PBool true => text "true"
  | PBool false => text "false"
  | PInt z => repr_int z
  | PFloat f => float_repr f
  | PStr s => encode_str s
  | PList l | PTuple l => 91 :: join (text ", ") (map render l) ++ [93]
  | PDict d =>
      123 :: join (text ", ")
               (map (fun kv => encode_str (key_str (fst kv))
                               ++ text ": " ++ render (snd kv)) d)
          ++ [125]
  | PObject _ => []
  end.

(** A float literal as the scanner writes it into a value: it starts with a
    digit or a minus sign. *)
Definition float_head_ok (f : pyfloat) : bool :=
  match f with
  | FNum (c :: _) => is_digit c || (c =? 45)
  | FNum [] => false
  | _ => true
  end.

Fixpoint floats_ok (v : pyval) : bool :=
  match v with
  | PFloat f => float_head_ok f
  | PList l | PTuple l => forallb floats_ok l
  | PDict d => forallb (fun kv => floats_ok (snd kv)) d
  | _ => true
  end.

(** Where a number ends: at the end of the text, or before a character that
    cannot continue a number. *)
Definition number_stops (rest : pystr) : bool :=
  match rest with
  | [] => true
  | c :: _ =>
      negb (is_digit c || (c =? 46) || (c =? 101) || (c =? 69)
            || (c =? 43) || (c =? 45))
  end.

(** The result of a scan when [rest] is appended to the input. *)
Definition extend (rest : pystr) (o : option (pyval * pystr))
  : option (pyval * pystr) :=
  match o with
  | Some (v, r) => Some (v, r ++ rest)
  | None => None
  end.

Local Close Scope N_scope.

(** Fuel that [scan_once] needs to read a rendered value back. *)
Fixpoint need (v : pyval) : nat :=
  match v with
  | PList l | PTuple l => S (fold_right (fun x n => S (need x + n)) O l)
  | PDict d => S (fold_right (fun kv n => S (need (snd kv) + n)) O d)
  | _ => 1
  end.

(* ================================================================= *)
(** ** Scenarios *)

Definition get_by_id : pystr := text "Gimp.Image.get_by_id".
Definition get_width : pystr := text "Gimp.Image.get_width".
Definition get_height : pystr := text "Gimp.Image.get_height".
Definition get_layers : pystr := text "Gimp.Image.get_layers".
Definition get_active_layer : pystr := text "Gimp.Image.get_active_layer".
Definition run_procedure : pystr := text "Gimp.get_pdb.run_procedure".
Definition displays_flush : pystr := text "Gimp.displays_flush".

(** The float [10.0]. *)
Definition ten : pyfloat := FNum (text "10.0").

(** The positional arguments of the procedure call of
    [apply_gaussian_blur] for image [i], drawable [d] and a radius. *)
Definition gauss_args (i d : pyval) (radius : pyfloat) : pyval :=
  PList [PStr (text "plug-in-gauss"); i; d; PFloat radius; PFloat radius;
         PInt 0].

(** The plugin reports that the image does not exist. *)
Definition no_image_world : world :=
  plugin_world
    [(get_by_id, quoted "{'status':'error','error':'no such image'}")].

(** The plugin resolves the image to an object with id 1 and answers width,
    height and layers. *)
Definition image_world : world :=
  plugin_world
    [(get_by_id, quoted "{'status':'success','result':{'id':1}}");
     (get_width, quoted "{'status':'success','result':800}");
     (get_height, quoted "{'status':'success','result':600}");
     (get_layers, quoted "{'status':'success','result':[0]}")].

(** As [image_world], but the width call fails. *)
Definition no_width_world : world :=
  plugin_world
    [(get_by_id, quoted "{'status':'success','result':{'id':1}}");
     (get_width, quoted "{'status':'error','error':'boom'}");
     (get_height, quoted "{'status':'success','result':600}");
     (get_layers, quoted "{'status':'success','result':[0]}")].

(** Every call succeeds; the image object has no id. *)
Definition no_id_world : world :=
  plugin_world
    [(get_by_id, quoted "{'status':'success','result':{'name':'untitled'}}")].

(** Every call succeeds; the plugin answers the requested image 5 with the
    object of id [i], whose active layer has id 3. *)
Definition blur_world (i : pystr) : world :=
  plugin_world
    [(get_by_id,
      quoted "{'status':'success','result':{'id':" ++ i ++ quoted "}}");
     (get_active_layer, quoted "{'status':'success','result':{'id':3}}");
     (run_procedure, quoted "{'status':'success','result':null}");
     (displays_flush, quoted "{'status':'success','result':null}")].

(** Every call succeeds; the image is named Error.png. *)
Definition error_name_world : world :=
  plugin_world
    [(get_by_id,
      quoted "{'status':'success','result':{'id':5,'name':'Error.png'}}");
     (get_active_layer, quoted "{'status':'success','result':{'id':3}}");
     (run_procedure, quoted "{'status':'success','result':null}");
     (displays_flush, quoted "{'status':'success','result':null}")].

(** As [blur_world], but the final flush fails. *)
Definition no_flush_world : world :=
  plugin_world
    [(get_by_id, quoted "{'status':'success','result':{'id':5}}");
     (get_active_layer, quoted "{'status':'success','result':{'id':3}}");
     (run_procedure, quoted "{'status':'success','result':null}");
     (displays_flush, quoted "{'status':'error','error':'no display'}")].

(** The plugin answers with a list, or with a mapping without status. *)
Definition shapeless_world : world :=
  plugin_world [(text "Gimp.one", quoted "[1]");
                (text "Gimp.two", quoted "{'result': 1}")].


(** The procedure call is refused by the plugin. *)
Definition refused_world : world :=
  plugin_world
    [(get_by_id, quoted "{'status':'success','result':{'id':5}}");
     (get_active_layer, quoted "{'status':'success','result':{'id':3}}");
     (run_procedure, quoted "{'status':'error','error':'bad radius'}")].

(* ================================================================= *)
(** ** Reading back what was written *)

Local Open Scope N_scope.

(** The first character a value is written with: no whitespace and no
    closing bracket. *)
Definition value_head (c : N) : Prop :=
  is_ws c = false /\ c <> 93 /\ c <> 125.

(** A value reads back: any text that stops a number may follow, and the
    fuel of [need] is enough. *)
Definition reads_back (v : pyval) : Prop :=
  forall rest fuel,
    number_stops rest = true ->
    (need v <= fuel)%nat ->
    scan_once fuel (render v ++ rest) = Ok (v, rest).

Local Close Scope N_scope.

(** A character of ASCII. *)
Definition ascii_char (c : N) : bool := N.ltb c 128.

(** The errors of the decoder proper. *)
Definition is_json_error (e : exn) : bool :=
  match e with
  | JSONDecodeError _ => true
  | _ => false
  end.

(** A scan of a text shorter than [len] went well: it raised an error of the
    decoder, or it returned with less text left (and, for a value, with
    float literals as the scanner writes them). *)
Definition scan_string_ok (len : nat) (x : res (pystr * pystr)) : Prop :=
  match x with
  | Ok p => (List.length (snd p) < len)%nat
  | Raise e => is_json_error e = true
  end.

Definition scan_value_ok (len : nat) (x : res (pyval * pystr)) : Prop :=
  match x with
  | Ok p => floats_ok (fst p) = true /\ (List.length (snd p) < len)%nat
  | Raise e => is_json_error e = true
  end.
(* ================================================================= *)
(** ** Calls on a fresh connection *)

(** The connection object a call of [call_api] works on: the global one, or
    the one [get_gimp_connection] creates. *)
Definition connection_of (st : state) : GimpConnection :=
  match gimp_connection st with
  | Some c => c
  | None => GimpConnection_init
  end.

(** The parameters [call_api] hands to [send_command], and the command that
    goes out. *)
Definition api_params (api_path : pystr) (args kwargs : pyval) : pyval :=
  PDict [(KStr (text "api_path"), PStr api_path);
         (KStr (text "args"), args);
         (KStr (text "kwargs"), kwargs)].

Definition api_command (api_path : pystr) (args kwargs : pyval) : pyval :=
  make_command (text "call_api") (api_params api_path args kwargs).

(** No handle is stored and the world lets the next socket through: it is
    created, it connects to the address of [c], it takes [data] and it has
    [bytes] ready for the read. *)
Definition live (W : world) (c : GimpConnection) (o : os_state)
  (data bytes : pybytes) : Prop :=
  sock c = None /\
  socket_create W (sockets o) = None /\
  socket_connect W (sockets o) (host c) (port c) = None /\
  socket_sendall W (sockets o) data = None /\
  socket_recv W (sockets o) data = inr bytes.

(** The events of the socket layer in a trace. *)
Definition wire_events (t : list event) : list event := filter io_event t.

(** The events of one complete exchange on socket [sid]. *)
Definition exchange_events (sid : nat) (data : pybytes) : list event :=
  [EvSocket sid; EvConnect sid true; EvSendall sid data; EvRecv sid].

(** The [except] clause of [send_command] around the result of decoding. *)
Definition wrap_error (r : res pyval) : res pyval :=
  match r with
  | Ok v => Ok v
  | Raise e =>
      Raise (Exception_ (text "Error communicating with GIMP: " ++ str_exn e))
  end.

(** What the [try] block of [call_api] makes of the reply that
    [send_command] returned. *)
Definition reply_text (result : pyval) : res pystr :=
  res_bind (subscript result (text "status")) (fun status =>
    if eq_str status (text "success") then
      res_bind (subscript result (text "result")) json_dumps
    else
      res_bind (subscript result (text "error")) (fun e =>
        res_bind (json_dumps e) (fun d => Ok (text "Error: " ++ d)))).

(** The string [call_api] returns when the exchange returned or raised
    [r]. *)
Definition call_result (r : res pyval) : pystr :=
  match res_bind r reply_text with
  | Ok s => s
  | Raise e => text "Error: " ++ str_exn e
  end.

Definition is_sendall (e : event) : bool :=
  match e with EvSendall _ _ => true | _ => false end.

Definition is_recv (e : event) : bool :=
  match e with EvRecv _ => true | _ => false end.

Definition is_socket (e : event) : bool :=
  match e with EvSocket _ => true | _ => false end.

(** The plugin accepts the connection and the request and closes without
    an answer: the read returns no bytes. *)
Definition silent_world : world :=
  {| socket_create := fun _ => None;
     socket_connect := fun _ _ _ => None;
     socket_sendall := fun _ _ => None;
     socket_recv := fun _ _ => inr [];
     not_connected := text "[Errno 32] Broken pipe" |}.

(** The plugin accepts the connection; the write fails. *)
Definition broken_pipe_world : world :=
  {| socket_create := fun _ => None;
     socket_connect := fun _ _ _ => None;
     socket_sendall := fun _ _ => Some (text "[Errno 32] Broken pipe");
     socket_recv := fun _ _ => inr [];
     not_connected := text "[Errno 32] Broken pipe" |}.

(** The plugin takes the request; the read fails. *)
Definition reset_world : world :=
  {| socket_create := fun _ => None;
     socket_connect := fun _ _ _ => None;
     socket_sendall := fun _ _ => None;
     socket_recv := fun _ _ => inl (text "[Errno 104] Connection reset by peer");
     not_connected := text "[Errno 32] Broken pipe" |}.

(** Replies that lack the key [call_api] reads next. *)
Definition keyless_world : world :=
  plugin_world
    [(text "Gimp.one", quoted "[1]");
     (text "Gimp.two", quoted "{'result': 1}");
     (text "Gimp.three", quoted "{'status': 'success'}");
     (text "Gimp.four", quoted "{'status': 'failed', 'result': 1}");
     (text "Gimp.five", quoted "{'status': 'failed', 'error': {'code': 7}}")].

(** The bytes of the request of [call_api] for JSON-native arguments. *)
Definition request_bytes (api_path : pystr) (args kwargs : pyval) : pybytes :=
  ascii_bytes (render (api_command api_path args kwargs)).

(** The socket part of the [try] block of [send_command] on a connected
    socket: the write, then the read of at most 1024 bytes. *)
Definition socket_io (W : world) (sid : nat) (data : pybytes) : res pybytes :=
  match socket_sendall W sid data with
  | Some msg => Raise (OSError msg)
  | None =>
      match socket_recv W sid data with
      | inl msg => Raise (OSError msg)
      | inr bytes => Ok (firstn 1024 bytes)
      end
  end.

(** No handle is stored, the next socket is created and connects. *)
Definition opens (W : world) (c : GimpConnection) (o : os_state) : Prop :=
  sock c = None /\
  socket_create W (sockets o) = None /\
  socket_connect W (sockets o) (host c) (port c) = None.

(** [json.loads(s)["id"]]: the id that the chained operations read from the
    payload of a sub-call. *)
Definition payload_id (s : pystr) : res pyval :=
  res_bind (json_loads s) (fun o => subscript o (text "id")).

(** The exceptions that parsing a payload and reading its id can raise. *)
Definition payload_error (e : exn) : Prop :=
  (exists m, e = JSONDecodeError m) \/ e = KeyError (text "id")
  \/ (exists m, e = TypeError m).

(** The request of [get_images] as it goes out. *)
Definition get_images_request : pybytes :=
  ascii_bytes
    (quoted "{'type': 'call_api', 'params': {'api_path': 'Gimp.get_images', 'args': [], 'kwargs': {}}}").

(** The text [get_image_info] returns for the strings of its three
    sub-calls. *)
Definition image_info_text (width height layers : pystr) : pystr :=
  quoted "{'width': " ++ encode_str width
  ++ quoted ", 'height': " ++ encode_str height
  ++ quoted ", 'layers': " ++ encode_str layers ++ quoted "}".

(** Two images are open. *)
Definition two_images_world : world :=
  plugin_world
    [(text "Gimp.get_images", quoted "{'status':'success','result':[1, 2]}")].

(** The text of every float of the value is ASCII, as every [repr] of a
    float is. *)
Definition float_ascii (f : pyfloat) : bool :=
  match f with
  | FNum lit => forallb ascii_char lit
  | _ => true
  end.

Fixpoint floats_ascii (v : pyval) : bool :=
  match v with
  | PFloat f => float_ascii f
  | PList l | PTuple l => forallb floats_ascii l
  | PDict d => forallb (fun kv => floats_ascii (snd kv)) d
  | _ => true
  end.

(** A byte of ASCII. *)
Definition ascii_byte (b : Byte.byte) : bool := N.ltb (Byte.to_N b) 128.

(** The reply of a plugin that reports success with [result]. *)
Definition success_reply (result : pyval) : pyval :=
  PDict [(KStr (text "status"), PStr (text "success"));
         (KStr (text "result"), result)].

(** The values whose text ends with a closing quote or bracket. *)
Definition is_container (v : pyval) : bool :=
  match v with
  | PStr _ | PList _ | PTuple _ | PDict _ => true
  | _ => false
  end.

(** A character of the text of a constant or a number: no whitespace, no
    comma, no quote, no bracket. *)
Definition atom_char (c : N) : bool :=
  negb (is_ws c) && negb (N.eqb c 44) && negb (N.eqb c 34)
  && negb (N.eqb c 91) && negb (N.eqb c 93)
  && negb (N.eqb c 123) && negb (N.eqb c 125).

(** What scanning a text that was cut short may give: an error, or, for a
    constant or a number only, a value with a rest that no array or object
    can go on with. *)
Definition cut_short (v : pyval) (x : res (pyval * pystr)) : Prop :=
  match x with
  | Raise _ => True
  | Ok p => is_container v = false /\ forallb atom_char (snd p) = true
  end.

(** A character of the text of a number. *)
Definition num_char (c : N) : bool :=
  is_digit c || N.eqb c 46 || N.eqb c 101 || N.eqb c 69 || N.eqb c 43
  || N.eqb c 45.

(** Every strict prefix of the text of [v] is cut short. *)
Definition cuts_short (v : pyval) : Prop :=
  forall p q fuel,
    p ++ q = render v -> q <> [] -> cut_short v (scan_once fuel p).

(** A Unicode scalar value: a code point that is no surrogate. *)
Definition scalar (c : N) : bool := code_point c && negb (is_surrogate c).

(* ----------------------------------------------------------------- *)
(** *** Limits of the interpreter *)

(** [json.dumps] and [json.loads] convert an integer to and from its decimal
    text, which Python refuses with a [ValueError] beyond 4300 digits, and
    they recurse on nested lists and mappings, which the interpreter stops
    with a [RecursionError].  [json_dumps] and [json_loads] have neither
    limit: the round trip of the codec is stated for values within both. *)







(* ================================================================= *)
(** ** Proof tactics *)

(** Case analysis on the innermost scrutinee of the goal. *)
Ltac break_match :=
  match goal with
  | |- context [match ?x with _ => _ end] =>
      lazymatch x with
      | context [match _ with _ => _ end] => fail
      | _ => destruct x eqn:?
      end
  end.

Ltac unfold_monad :=
  unfold try_except, bind, log, modify, gets, ret, raise, lift in *.

(** [lia] reasons about division and remainder by constants. *)
Ltac Zify.zify_post_hook ::= Z.to_euclidean_division_equations.

(** Settles each comparison of the goal whose outcome [lia] can tell. *)
Ltac decide_tests :=
  repeat match goal with
         | |- context [N.ltb ?a ?b] =>
             first [ replace (N.ltb a b) with true
                       by (symmetry; apply N.ltb_lt; lia)
                   | replace (N.ltb a b) with false
                       by (symmetry; apply N.ltb_ge; lia) ]
         | |- context [N.leb ?a ?b] =>
             first [ replace (N.leb a b) with true
                       by (symmetry; apply N.leb_le; lia)
                   | replace (N.leb a b) with false
                       by (symmetry; apply N.leb_gt; lia) ]
         | |- context [N.eqb ?a ?b] =>
             first [ replace (N.eqb a b) with true
                       by (symmetry; apply N.eqb_eq; lia)
                   | replace (N.eqb a b) with false
                       by (symmetry; apply N.eqb_neq; lia) ]
         end.
(* ================================================================= *)
(** * Properties of the program *)

(** ** Strings *)

Lemma strip_prefix_app p : forall s r, strip_prefix p s = Some r -> s = p ++ r.
Proof.
  induction p as [|a p IH]; intros [|b s] r H; simpl in H;
    try discriminate; try (injection H as <-; reflexivity).
  destruct (N.eqb_spec a b) as [->|]; [|discriminate].
  simpl. f_equal. auto.
Qed.

Lemma is_error_prefix x : is_error (text "Error: " ++ x) = true.
Proof. reflexivity. Qed.

Lemma is_error_contains s : is_error s = true -> contains (text "Error") s = true.
Proof.
  unfold is_error, startswith. intros H.
  destruct (strip_prefix (text "Error: ") s) as [r|] eqn:E; [|discriminate].
  apply strip_prefix_app in E. subst s. reflexivity.
Qed.

(** ** Traces *)

Lemma io_no_call_api t :
  forallb io_event t = true -> forallb no_call_api t = true.
Proof.
  rewrite !forallb_forall. intros H e He. specialize (H e He).
  unfold io_event in H. apply andb_true_iff in H. apply H.
Qed.

Lemma io_no_send_command t :
  forallb io_event t = true -> filter is_send_command t = [].
Proof.
  induction t as [|e t IH]; cbn; [reflexivity|].
  intros H. apply andb_true_iff in H. destruct H as [He Ht].
  unfold io_event in He. apply andb_true_iff in He.
  destruct (is_send_command e); [now destruct He|]. auto.
Qed.

Lemma no_call_api_filter t :
  forallb no_call_api t = true -> filter is_call_api t = [].
Proof.
  induction t as [|e t IH]; cbn; [reflexivity|].
  intros H. apply andb_true_iff in H. destruct H as [He Ht].
  unfold no_call_api in He. destruct (is_call_api e); [discriminate|]. auto.
Qed.

Lemma no_call_api_calls t :
  forallb no_call_api t = true ->
  flat_map (fun e => match e with
                     | EvCallApi p a _ => [(p, a)]
                     | _ => []
                     end) t = [].
Proof.
  induction t as [|e t IH]; cbn; [reflexivity|].
  intros H. apply andb_true_iff in H. destruct H as [He Ht].
  destruct e; cbn in *; try discriminate; auto.
Qed.

Section ProgramFacts.

Variable W : world.

#[local] Arguments json_dumps : simpl never.
#[local] Arguments json_loads : simpl never.
#[local] Arguments encode_command : simpl never.
#[local] Arguments decode_reply : simpl never.
#[local] Arguments subscript : simpl never.
#[local] Arguments firstn : simpl never.
#[local] Arguments text : simpl never.
#[local] Arguments make_command : simpl never.
#[local] Arguments str_exn : simpl never.
#[local] Arguments connect : simpl never.
#[local] Arguments send_command : simpl never.
#[local] Arguments contains : simpl never.

(** ** [GimpConnection.connect] *)

(** What [connect] does when no handle is stored: it extends the trace by
    socket events, keeps host and port, and either returns with the new
    socket stored and connected, or raises the [ConnectionError]. *)
Lemma connect_cases c o :
  sock c = None ->
  exists t,
    trace (snd (fst (connect W (c, o)))) = trace o ++ t /\
    forallb io_event t = true /\
    host (fst (fst (connect W (c, o)))) = host c /\
    port (fst (fst (connect W (c, o)))) = port c /\
    match snd (connect W (c, o)) with
    | Ok _ =>
        sock (fst (fst (connect W (c, o)))) = Some (sockets o) /\
        existsb (Nat.eqb (sockets o))
          (connected (snd (fst (connect W (c, o))))) = true /\
        socket_create W (sockets o) = None /\
        socket_connect W (sockets o) (host c) (port c) = None /\
        List.length (filter is_connect t) = 1%nat
    | Raise e =>
        e = ConnectionError connect_error /\
        List.length (filter is_connect t) <= 1
    end.
Proof.
  intros Hs. unfold connect, socket_socket, sock_connect, set_sock, obj_log, os_log.
  unfold_monad. cbn. rewrite Hs. cbn.
  repeat (break_match; cbn).
  all: rewrite <- ?app_assoc; eexists; split; [reflexivity|]; cbn.
  all: rewrite ?Nat.eqb_refl; auto 10.
Qed.

(** With a handle stored, [connect] does nothing. *)
Lemma connect_idle c o s : sock c = Some s -> connect W (c, o) = ((c, o), Ok tt).
Proof.
  intros Hs. unfold connect. unfold_monad. cbn. now rewrite Hs.
Qed.

(** On success the newly connected handle is stored. *)
Lemma connect_success_stores_handle c o :
  sock c = None ->
  socket_create W (sockets o) = None ->
  socket_connect W (sockets o) (host c) (port c) = None ->
  snd (connect W (c, o)) = Ok tt /\
  sock (fst (fst (connect W (c, o)))) = Some (sockets o).
Proof.
  intros Hs Hc Hk. unfold connect, socket_socket, sock_connect, set_sock.
  unfold_monad. cbn. rewrite Hs. cbn. rewrite Hc. cbn. rewrite Hk. cbn. auto.
Qed.

(** When the socket cannot even be created, no handle is stored. *)
Lemma connect_no_socket_keeps_none c o msg :
  sock c = None ->
  socket_create W (sockets o) = Some msg ->
  snd (connect W (c, o)) = Raise (ConnectionError connect_error) /\
  sock (fst (fst (connect W (c, o)))) = None.
Proof.
  intros Hs Hc. unfold connect, socket_socket, sock_connect, set_sock.
  unfold_monad. cbn. rewrite Hs. cbn. rewrite Hc. cbn. auto.
Qed.

(** ** [GimpConnection.send_command] *)

Lemma send_command_cases ct p c o :
  exists t,
    trace (snd (fst (send_command W ct p (c, o))))
    = trace o ++ EvSendCommand ct p :: t /\
    forallb io_event t = true /\
    match snd (send_command W ct p (c, o)) with
    | Ok reply =>
        sock (fst (fst (send_command W ct p (c, o)))) = None /\
        delivered W reply
    | Raise e =>
        (e = ConnectionError connect_error /\ sock c = None) \/
        (sock (fst (fst (send_command W ct p (c, o)))) = None /\
         exists e', e = Exception_ (text "Error communicating with GIMP: "
                                    ++ str_exn e'))
    end.
Proof.
  unfold send_command. unfold_monad. cbn.
  destruct (sock c) eqn:Hs.
  - cbn. unfold the_sock, sock_sendall, sock_recv, set_sock, obj_log, os_log.
    unfold_monad. cbn. rewrite Hs.
    repeat (break_match; cbn).
    all: rewrite <- ?app_assoc; eexists; split; [reflexivity|]; cbn.
    all: repeat split; eauto 10.
    unfold delivered; eauto 10.
  - cbn.
    destruct (connect_cases c (os_log (EvSendCommand ct p) o) Hs)
      as (t & Ht & Hio & _ & _ & Hr).
    unfold obj_log. cbn.
    destruct (connect W (c, os_log (EvSendCommand ct p) o)) as [[c1 o1] [[]|e]];
      cbn in *.
    + destruct Hr as (Hs1 & Hc1 & _).
      unfold the_sock, sock_sendall, sock_recv, set_sock, obj_log, os_log.
      unfold_monad. cbn. rewrite Hs1. cbn.
      repeat (break_match; cbn).
      all: try congruence.
      all: rewrite Ht, <- ?app_assoc; cbn; eexists; split; [reflexivity|]; cbn.
      all: rewrite ?forallb_app, ?Hio; cbn.
      all: repeat split; eauto 10.
      unfold delivered; eauto 10.
    + destruct Hr as (-> & _). exists t. rewrite Ht, <- app_assoc. cbn. auto 10.
Qed.

(** An exchange that finds a handle stored attempts no connect and
    discards the handle. *)
Lemma send_command_with_handle ct p c o s :
  sock c = Some s ->
  exists t,
    trace (snd (fst (send_command W ct p (c, o))))
    = trace o ++ EvSendCommand ct p :: t /\
    forallb io_event t = true /\
    filter is_connect t = [] /\
    sock (fst (fst (send_command W ct p (c, o)))) = None.
Proof.
  intros Hs. unfold send_command. unfold_monad. cbn. rewrite Hs.
  cbn. unfold the_sock, sock_sendall, sock_recv, set_sock, obj_log, os_log.
  unfold_monad. cbn. rewrite Hs.
  repeat (break_match; cbn).
  all: rewrite <- ?app_assoc; eexists; split; [reflexivity|]; cbn.
  all: repeat split; eauto 10.
Qed.

(** An exchange whose connect fails raises the [ConnectionError] and leaves
    the socket that did not connect in the handle attribute. *)
Lemma send_command_connect_failure ct p c o msg :
  sock c = None ->
  socket_create W (sockets o) = None ->
  socket_connect W (sockets o) (host c) (port c) = Some msg ->
  send_command W ct p (c, o)
  = (({| host := host c; port := port c; sock := Some (sockets o) |},
      {| sockets := S (sockets o); connected := connected o;
         trace := trace o ++ [EvSendCommand ct p; EvSocket (sockets o);
                              EvConnect (sockets o) false] |}),
     Raise (ConnectionError connect_error)).
Proof.
  intros Hs Hc Hk.
  unfold send_command, connect, socket_socket, sock_connect, set_sock, obj_log,
    os_log.
  unfold_monad. cbn. repeat (rewrite ?Hs, ?Hc, ?Hk; cbn).
  rewrite <- !app_assoc. reflexivity.
Qed.

(** The handle is discarded by every exchange that gets past the connect
    stage. *)
Lemma send_command_discards_handle ct p c o :
  snd (send_command W ct p (c, o)) <> Raise (ConnectionError connect_error) ->
  sock (fst (fst (send_command W ct p (c, o)))) = None.
Proof.
  intros Hne. destruct (send_command_cases ct p c o) as (t & _ & _ & Hr).
  destruct (snd (send_command W ct p (c, o))) as [reply|e].
  - apply Hr.
  - destruct Hr as [[-> _]|[Hs _]]; [congruence|assumption].
Qed.

(** ** [call_api] *)

(** Every call of [call_api] returns a string.  It extends the trace by its
    own entry and by events that are no [call_api] entries.  Either
    [send_command] was entered once, and the string carries the error prefix
    or is the JSON text of the result of a delivered success reply; or the
    connection object did not exist yet, its first connect failed, and
    [send_command] was not entered. *)
Lemma call_api_cases p a k st :
  exists st' s t,
    call_api W p a k st = (st', Ok s) /\
    trace (os st') = trace (os st) ++ EvCallApi p a k :: t /\
    forallb no_call_api t = true /\
    ((List.length (filter is_send_command t) = 1%nat /\
      (is_error s = true \/
       exists reply, delivered W reply /\ success_of reply s))
     \/
     (filter is_send_command t = [] /\ gimp_connection st = None /\
      s = text "Error: " ++ connect_error)).
Proof.
  unfold call_api, get_gimp_connection, on_global, state_log.
  unfold_monad. cbn.
  destruct (gimp_connection st) as [c|] eqn:Hg; cbn.
  - match goal with |- context [send_command W ?ct ?pp ?s0] =>
      destruct (send_command_cases ct pp (fst s0) (snd s0))
        as (t & Ht & Hio & Hr);
      cbn in Ht, Hr;
      destruct (send_command W ct pp s0) as [[c1 o1] [reply|e]]
    end; cbn in *.
    + destruct Hr as [_ Hd].
      repeat (break_match; cbn).
      all: do 3 eexists; split; [reflexivity|]; cbn.
      all: rewrite Ht, <- app_assoc; cbn; split; [reflexivity|].
      all: (split; [cbn; apply io_no_call_api, Hio|]).
      all: left; cbn; rewrite io_no_send_command by assumption;
        split; [reflexivity|].
      all: try (left; apply is_error_prefix).
      right. exists reply. split; [assumption|]. unfold success_of; eauto 10.
    + do 3 eexists; split; [reflexivity|]; cbn.
      rewrite Ht, <- app_assoc; cbn; split; [reflexivity|].
      split; [cbn; apply io_no_call_api, Hio|].
      left. cbn; rewrite io_no_send_command by assumption; split; [reflexivity|].
      left; apply is_error_prefix.
  - destruct (connect_cases GimpConnection_init
                (os_log (EvCallApi p a k) (os st)) eq_refl)
      as (t0 & Ht0 & Hio0 & _ & _ & Hr0).
    destruct (connect W (GimpConnection_init, os_log (EvCallApi p a k) (os st)))
      as [[c0 o0] [[]|e0]]; cbn in *.
    + match goal with |- context [send_command W ?ct ?pp ?s0] =>
        destruct (send_command_cases ct pp (fst s0) (snd s0))
          as (t & Ht & Hio & Hr);
        cbn in Ht, Hr;
        destruct (send_command W ct pp s0) as [[c1 o1] [reply|e]]
      end; cbn in *.
      * destruct Hr as [_ Hd].
        repeat (break_match; cbn).
        all: do 3 eexists; split; [reflexivity|]; cbn.
        all: rewrite Ht, Ht0, <- !app_assoc; cbn; split; [reflexivity|].
        all: (split; [rewrite forallb_app; cbn;
                      rewrite !io_no_call_api by assumption; reflexivity|]).
        all: left; rewrite filter_app; cbn;
          rewrite !io_no_send_command by assumption; split; [reflexivity|].
        all: try (left; apply is_error_prefix).
        right. exists reply. split; [assumption|]. unfold success_of; eauto 10.
      * do 3 eexists; split; [reflexivity|]; cbn.
        rewrite Ht, Ht0, <- !app_assoc; cbn; split; [reflexivity|].
        split; [rewrite forallb_app; cbn;
                rewrite !io_no_call_api by assumption; reflexivity|].
        left; rewrite filter_app; cbn;
          rewrite !io_no_send_command by assumption; split; [reflexivity|].
        left; apply is_error_prefix.
    + destruct Hr0 as [-> _].
      do 3 eexists; split; [reflexivity|]; cbn.
      rewrite Ht0, <- !app_assoc; cbn; split; [reflexivity|].
      split; [apply io_no_call_api, Hio0|].
      right. split; [apply io_no_send_command, Hio0|]. split; reflexivity.
Qed.

(** [call_api] never raises. *)
Lemma call_api_returns p a k st : exists s, snd (call_api W p a k st) = Ok s.
Proof.
  destruct (call_api_cases p a k st) as (st' & s & t & -> & _). now exists s.
Qed.

(** One call of [call_api] is one more entry in the list of calls. *)
Lemma call_api_counts p a k st st' r :
  call_api W p a k st = (st', r) ->
  count_call_api st' = S (count_call_api st) /\
  api_calls st' = api_calls st ++ [(p, a)].
Proof.
  intros H. destruct (call_api_cases p a k st) as (st1 & s & t & E & Ht & Hn & _).
  rewrite E in H. injection H as <- <-.
  unfold count_call_api, api_calls. rewrite Ht. split.
  - rewrite filter_app, length_app. cbn.
    rewrite (no_call_api_filter _ Hn). cbn. lia.
  - rewrite flat_map_app. cbn. now rewrite (no_call_api_calls _ Hn).
Qed.

(** [get_images] is one call of [call_api]: it never raises either. *)
Lemma get_images_returns st : exists s, snd (get_images W st) = Ok s.
Proof. apply call_api_returns. Qed.

End ProgramFacts.

Section Operations.

Variable W : world.

#[local] Arguments json_dumps : simpl never.
#[local] Arguments json_loads : simpl never.
#[local] Arguments subscript : simpl never.
#[local] Arguments text : simpl never.
#[local] Arguments call_api : simpl never.
#[local] Arguments contains : simpl never.

(** ** [get_image_info] and [apply_gaussian_blur] *)

(** The first check of both operations: a string with the marker is
    returned as it is, at once. *)
Lemma first_check image_id radius st st1 s :
  call_api W get_by_id (PList [PInt image_id]) (PDict []) st = (st1, Ok s) ->
  contains (text "Error") s = true ->
  get_image_info W image_id st = (st1, Ok s) /\
  apply_gaussian_blur W image_id radius st = (st1, Ok s).
Proof.
  intros H Hc. unfold get_image_info, apply_gaussian_blur, get_by_id in *.
  unfold_monad. rewrite H, Hc. split; reflexivity.
Qed.

(** The second check of [apply_gaussian_blur]. *)
Lemma second_check image_id radius st st1 st2 s1 s2 o1 i :
  call_api W get_by_id (PList [PInt image_id]) (PDict []) st = (st1, Ok s1) ->
  contains (text "Error") s1 = false ->
  json_loads s1 = Ok o1 ->
  subscript o1 (text "id") = Ok i ->
  call_api W get_active_layer (PList [i]) (PDict []) st1 = (st2, Ok s2) ->
  contains (text "Error") s2 = true ->
  apply_gaussian_blur W image_id radius st = (st2, Ok s2).
Proof.
  intros H1 C1 L1 I1 H2 C2.
  unfold apply_gaussian_blur, get_by_id, get_active_layer in *.
  unfold_monad. rewrite H1, C1, L1, I1, H2, C2. reflexivity.
Qed.

(** The run of [apply_gaussian_blur] up to the procedure call. *)
Lemma blur_unfold image_id radius st st1 st2 st3 s1 s2 s3 o1 o2 i d :
  call_api W get_by_id (PList [PInt image_id]) (PDict []) st = (st1, Ok s1) ->
  contains (text "Error") s1 = false ->
  json_loads s1 = Ok o1 ->
  subscript o1 (text "id") = Ok i ->
  call_api W get_active_layer (PList [i]) (PDict []) st1 = (st2, Ok s2) ->
  contains (text "Error") s2 = false ->
  json_loads s2 = Ok o2 ->
  subscript o2 (text "id") = Ok d ->
  call_api W run_procedure (gauss_args i d radius) (PDict []) st2
  = (st3, Ok s3) ->
  apply_gaussian_blur W image_id radius st =
  if contains (text "Error") s3 then (st3, Ok s3)
  else (fst (call_api W displays_flush (PList []) (PDict []) st3),
        Ok (text "Applied Gaussian blur successfully")).
Proof.
  intros H1 C1 L1 I1 H2 C2 L2 I2 H3.
  unfold apply_gaussian_blur, get_by_id, get_active_layer, run_procedure,
    displays_flush, gauss_args in *.
  unfold_monad. rewrite H1, C1, L1, I1, H2, C2, L2, I2, H3.
  destruct (contains (text "Error") s3); [reflexivity|].
  destruct (call_api_cases W (text "Gimp.displays_flush") (PList [])
              (PDict []) st3)
    as (st4 & s4 & t & -> & _).
  reflexivity.
Qed.

End Operations.

(** C5. Fail-fast chaining: when the first sub-call, the lookup of the image
    by its id, returns an error string, [get_image_info] and
    [apply_gaussian_blur] return that very string, in the state the
    sub-call left, so [call_api] was entered exactly once. *)
Theorem fail_fast_on_first_error W image_id radius st st1 s :
  call_api W get_by_id (PList [PInt image_id]) (PDict []) st = (st1, Ok s) ->
  is_error s = true ->
  get_image_info W image_id st = (st1, Ok s) /\
  apply_gaussian_blur W image_id radius st = (st1, Ok s) /\
  count_call_api st1 = S (count_call_api st).
Proof.
  intros H He. apply is_error_contains in He.
  destruct (first_check W image_id radius st st1 s H He) as [Hi Hb].
  repeat split; try assumption.
  apply (call_api_counts _ _ _ _ _ _ _ H).
Qed.

Lemma fail_fast_on_first_error_witness :
  get_image_info no_image_world 99 initial_state
  = (fst (call_api no_image_world get_by_id (PList [PInt 99]) (PDict [])
            initial_state),
     Ok (quoted "Error: 'no such image'")) /\
  apply_gaussian_blur no_image_world 99 ten initial_state
  = (fst (call_api no_image_world get_by_id (PList [PInt 99]) (PDict [])
            initial_state),
     Ok (quoted "Error: 'no such image'")) /\
  count_call_api
    (fst (call_api no_image_world get_by_id (PList [PInt 99]) (PDict [])
            initial_state)) = 1%nat.
Proof.
  apply (fail_fast_on_first_error no_image_world 99 ten initial_state
           (fst (call_api no_image_world get_by_id (PList [PInt 99])
                   (PDict []) initial_state))
           (quoted "Error: 'no such image'")).
  - vm_compute. reflexivity.
  - vm_compute. reflexivity.
Defined.

(** C6. Scenario 3: the image is resolved to the object with id 1, and the
    width, height and layers sub-calls return 800, 600 and [0]; then
    [get_image_info(1)] returns one JSON object whose three fields hold the
    strings the nested calls returned. *)
Theorem image_info_scenario W st st1 st2 st3 st4 :
  call_api W get_by_id (PList [PInt 1]) (PDict []) st
  = (st1, Ok (quoted "{'id': 1}")) ->
  call_api W get_width (PList [PInt 1]) (PDict []) st1
  = (st2, Ok (text "800")) ->
  call_api W get_height (PList [PInt 1]) (PDict []) st2
  = (st3, Ok (text "600")) ->
  call_api W get_layers (PList [PInt 1]) (PDict []) st3
  = (st4, Ok (text "[0]")) ->
  get_image_info W 1 st
  = (st4,
     Ok (quoted "{'width': '800', 'height': '600', 'layers': '[0]'}")).
Proof.
  intros H1 H2 H3 H4.
  unfold get_image_info, get_by_id, get_width, get_height, get_layers in *.
  assert (C : contains (text "Error") (quoted "{'id': 1}") = false)
    by reflexivity.
  assert (L : json_loads (quoted "{'id': 1}")
              = Ok (PDict [(KStr (text "id"), PInt 1)]))
    by (vm_compute; reflexivity).
  assert (I : subscript (PDict [(KStr (text "id"), PInt 1)]) (text "id")
              = Ok (PInt 1))
    by (vm_compute; reflexivity).
  unfold_monad. rewrite H1, C, L, I, H2, H3, H4. reflexivity.
Qed.

Lemma image_info_scenario_witness :
  let st1 := fst (call_api image_world get_by_id (PList [PInt 1]) (PDict [])
                    initial_state) in
  let st2 := fst (call_api image_world get_width (PList [PInt 1]) (PDict [])
                    st1) in
  let st3 := fst (call_api image_world get_height (PList [PInt 1]) (PDict [])
                    st2) in
  let st4 := fst (call_api image_world get_layers (PList [PInt 1]) (PDict [])
                    st3) in
  get_image_info image_world 1 initial_state
  = (st4,
     Ok (quoted "{'width': '800', 'height': '600', 'layers': '[0]'}")).
Proof.
  intros st1 st2 st3 st4.
  apply (image_info_scenario image_world initial_state st1 st2 st3 st4);
    vm_compute; reflexivity.
Defined.

(** C7, as the code has it.  When the image and active-layer sub-calls return
    strings without the marker that parse to objects with ids [i] and [d],
    and the procedure call returns a string without the marker, then
    [apply_gaussian_blur(5, 10.0)] returns the fixed success message; the
    calls are the four of the recipe, the procedure call with the arguments
    plug-in-gauss, [i], [d], 10.0, 10.0, 0; and the final state and the
    result are those after the flush call whatever that call returned. *)
Theorem gaussian_blur_success W st st1 st2 st3 s1 s2 s3 o1 o2 i d :
  call_api W get_by_id (PList [PInt 5]) (PDict []) st = (st1, Ok s1) ->
  contains (text "Error") s1 = false ->
  json_loads s1 = Ok o1 ->
  subscript o1 (text "id") = Ok i ->
  call_api W get_active_layer (PList [i]) (PDict []) st1 = (st2, Ok s2) ->
  contains (text "Error") s2 = false ->
  json_loads s2 = Ok o2 ->
  subscript o2 (text "id") = Ok d ->
  call_api W run_procedure (gauss_args i d ten) (PDict []) st2
  = (st3, Ok s3) ->
  contains (text "Error") s3 = false ->
  let st4 := fst (call_api W displays_flush (PList []) (PDict []) st3) in
  apply_gaussian_blur W 5 ten st
  = (st4, Ok (text "Applied Gaussian blur successfully")) /\
  api_calls st4
  = api_calls st ++ [(get_by_id, PList [PInt 5]);
                     (get_active_layer, PList [i]);
                     (run_procedure, gauss_args i d ten);
                     (displays_flush, PList [])].
Proof.
  intros H1 C1 L1 I1 H2 C2 L2 I2 H3 C3 st4. split.
  - rewrite (blur_unfold W 5 ten st _ _ _ _ _ _ _ _ _ _
               H1 C1 L1 I1 H2 C2 L2 I2 H3), C3.
    reflexivity.
  - subst st4.
    destruct (call_api W displays_flush (PList []) (PDict []) st3)
      as [st4 r4] eqn:H4. cbn.
    rewrite (proj2 (call_api_counts _ _ _ _ _ _ _ H4)),
      (proj2 (call_api_counts _ _ _ _ _ _ _ H3)),
      (proj2 (call_api_counts _ _ _ _ _ _ _ H2)),
      (proj2 (call_api_counts _ _ _ _ _ _ _ H1)).
    rewrite <- !app_assoc. reflexivity.
Qed.

Lemma gaussian_blur_success_witness :
  let W := no_flush_world in
  let st1 := fst (call_api W get_by_id (PList [PInt 5]) (PDict [])
                    initial_state) in
  let st2 := fst (call_api W get_active_layer (PList [PInt 5]) (PDict [])
                    st1) in
  let st3 := fst (call_api W run_procedure (gauss_args (PInt 5) (PInt 3) ten)
                    (PDict []) st2) in
  let st4 := fst (call_api W displays_flush (PList []) (PDict []) st3) in
  (apply_gaussian_blur W 5 ten initial_state
   = (st4, Ok (text "Applied Gaussian blur successfully")) /\
   api_calls st4
   = api_calls initial_state
     ++ [(get_by_id, PList [PInt 5]);
         (get_active_layer, PList [PInt 5]);
         (run_procedure, gauss_args (PInt 5) (PInt 3) ten);
         (displays_flush, PList [])]) /\
  snd (call_api W displays_flush (PList []) (PDict []) st3)
  = Ok (quoted "Error: 'no display'").
Proof.
  intros W st1 st2 st3 st4. split.
  - apply (gaussian_blur_success W initial_state st1 st2 st3
             (quoted "{'id': 5}") (quoted "{'id': 3}") (text "null")
             (PDict [(KStr (text "id"), PInt 5)])
             (PDict [(KStr (text "id"), PInt 3)]) (PInt 5) (PInt 3));
      vm_compute; reflexivity.
  - vm_compute. reflexivity.
Defined.

(** C7 as stated fails: with every remote call succeeding, the operation
    returns the image payload when that payload contains the word Error, and
    the procedure call carries the id of the resolved object, here 7, not
    the requested 5. *)
Lemma gaussian_blur_counterexample :
  snd (apply_gaussian_blur error_name_world 5 ten initial_state)
  = Ok (quoted "{'id': 5, 'name': 'Error.png'}") /\
  snd (apply_gaussian_blur (blur_world (text "7")) 5 ten initial_state)
  = Ok (text "Applied Gaussian blur successfully") /\
  nth_error
    (api_calls
       (fst (apply_gaussian_blur (blur_world (text "7")) 5 ten initial_state)))
    2
  = Some (run_procedure, gauss_args (PInt 7) (PInt 3) ten).
Proof. vm_compute. repeat split; reflexivity. Qed.




(** C2 at the failing input: every call succeeds and the image object has no
    id; the [KeyError] leaves both operations. *)
Theorem missing_id_escapes :
  snd (call_api no_id_world get_by_id (PList [PInt 1]) (PDict [])
         initial_state)
  = Ok (quoted "{'name': 'untitled'}") /\
  snd (get_image_info no_id_world 1 initial_state)
  = Raise (KeyError (text "id")) /\
  snd (apply_gaussian_blur no_id_world 1 ten initial_state)
  = Raise (KeyError (text "id")).
Proof. vm_compute. repeat split; reflexivity. Qed.

(** C3 at the failing input: no handle is stored, the socket is created and
    its connect fails.  [connect] raises the [ConnectionError], and the
    handle attribute holds the socket that did not connect. *)
Theorem connect_failure_keeps_socket W c o msg :
  sock c = None ->
  socket_create W (sockets o) = None ->
  socket_connect W (sockets o) (host c) (port c) = Some msg ->
  snd (connect W (c, o)) = Raise (ConnectionError connect_error) /\
  sock (fst (fst (connect W (c, o)))) = Some (sockets o).
Proof.
  intros Hs Hc Hk. unfold connect, socket_socket, sock_connect, set_sock.
  unfold_monad. cbn. rewrite Hs. cbn. rewrite Hc. cbn. rewrite Hk. cbn. auto.
Qed.

Lemma connect_failure_keeps_socket_witness :
  snd (connect down_world (GimpConnection_init, os initial_state))
  = Raise (ConnectionError connect_error) /\
  sock (fst (fst (connect down_world (GimpConnection_init, os initial_state))))
  = Some 0%nat.
Proof.
  apply (connect_failure_keeps_socket down_world GimpConnection_init
           (os initial_state) (text "[Errno 111] Connection refused"));
    reflexivity.
Defined.

(** C4 at the failing input: no handle is stored and the connect of the
    first exchange fails.  The exchange raises with the socket still stored;
    a second exchange then attempts no connect, so two exchanges made one
    connect attempt. *)
Theorem failed_connect_leaves_handle W ct p ct2 p2 c o msg :
  sock c = None ->
  socket_create W (sockets o) = None ->
  socket_connect W (sockets o) (host c) (port c) = Some msg ->
  let r1 := send_command W ct p (c, o) in
  let r2 := send_command W ct2 p2 (fst r1) in
  snd r1 = Raise (ConnectionError connect_error) /\
  sock (fst (fst r1)) = Some (sockets o) /\
  count_connect (snd (fst r2)) = S (count_connect o) /\
  List.length (filter is_send_command (trace (snd (fst r2))))
  = S (S (List.length (filter is_send_command (trace o)))).
Proof.
  intros Hs Hc Hk r1 r2.
  pose proof (send_command_connect_failure W ct p c o msg Hs Hc Hk) as E1.
  fold r1 in E1. subst r2. rewrite E1. cbn [fst snd sock].
  split; [reflexivity|]. split; [reflexivity|].
  match goal with |- context [send_command W ct2 p2 (?c1, ?o1)] =>
    destruct (send_command_with_handle W ct2 p2 c1 o1 (sockets o) eq_refl)
      as (t & Ht & Hio & Hn & _)
  end.
  unfold count_connect. rewrite Ht. cbn [trace].
  rewrite !filter_app, !length_app. cbn.
  rewrite Hn, (io_no_send_command _ Hio). cbn. split; lia.
Qed.

Lemma failed_connect_leaves_handle_witness :
  let r1 := send_command down_world (text "call_api") PNone
              (GimpConnection_init, os initial_state) in
  let r2 := send_command down_world (text "call_api") PNone (fst r1) in
  snd r1 = Raise (ConnectionError connect_error) /\
  sock (fst (fst r1)) = Some 0%nat /\
  count_connect (snd (fst r2)) = 1%nat /\
  List.length (filter is_send_command (trace (snd (fst r2)))) = 2%nat.
Proof.
  apply (failed_connect_leaves_handle down_world (text "call_api") PNone
           (text "call_api") PNone GimpConnection_init (os initial_state)
           (text "[Errno 111] Connection refused"));
    reflexivity.
Defined.

(* ================================================================= *)
(** * Properties of the JSON codec *)

Local Open Scope N_scope.

(** ** Strings: [scanstring] reads back what [encode_str] writes *)

Lemma hexval_hex_digit d : d < 16 -> hexval (hex_digit d) = Some d.
Proof.
  intros H. unfold hex_digit, hexval, is_digit.
  destruct (N.ltb_spec d 10).
  - replace ((48 <=? 48 + d) && (48 + d <=? 57)) with true.
    + f_equal. lia.
    + symmetry. apply andb_true_iff. split; apply N.leb_le; lia.
  - replace ((48 <=? 87 + d) && (87 + d <=? 57)) with false.
    + replace ((97 <=? 87 + d) && (87 + d <=? 102)) with true.
      * f_equal. lia.
      * symmetry. apply andb_true_iff. split; apply N.leb_le; lia.
    + symmetry. apply andb_false_iff. right. apply N.leb_gt. lia.
Qed.

Lemma hex4_u_escape c :
  c < 65536 ->
  hex4 (hex_digit ((c / 4096) mod 16)) (hex_digit ((c / 256) mod 16))
       (hex_digit ((c / 16) mod 16)) (hex_digit (c mod 16)) = Some c.
Proof.
  intros H. unfold hex4.
  rewrite !hexval_hex_digit by (apply N.mod_lt; discriminate).
  f_equal. lia.
Qed.

Lemma push_char_ok {A} c s (r : A) : push_char c (Ok (s, r)) = Ok (c :: s, r).
Proof. reflexivity. Qed.

(** A [\uXXXX] escape is one character when it is no high surrogate, or
    when no escape of a low surrogate follows. *)
Lemma scanstring_u_plain u h1 h2 h3 h4 r2 :
  hex4 h1 h2 h3 h4 = Some u ->
  is_high_surrogate u = false \/ plain_after_high r2 = true ->
  scanstring (92 :: 117 :: h1 :: h2 :: h3 :: h4 :: r2)
  = push_char u (scanstring r2).
Proof.
  intros Hh Hs.
  change (scanstring (92 :: 117 :: h1 :: h2 :: h3 :: h4 :: r2)) with
    (match hex4 h1 h2 h3 h4 with
     | None => Raise (JSONDecodeError (text "Invalid \uXXXX escape"))
     | Some u =>
         match r2 with
         | b :: k :: l1 :: l2 :: l3 :: l4 :: r3 =>
             if is_high_surrogate u && (b =? 92) && (k =? 117) then
               match hex4 l1 l2 l3 l4 with
               | None => Raise (JSONDecodeError (text "Invalid \uXXXX escape"))
               | Some u2 =>
                   if is_low_surrogate u2 then
                     push_char (65536 + ((u - 55296) * 1024 + (u2 - 56320)))
                       (scanstring r3)
                   else push_char u (scanstring r2)
               end
             else push_char u (scanstring r2)
         | _ => push_char u (scanstring r2)
         end
     end).
  rewrite Hh.
  destruct r2 as [|b [|k [|l1 [|l2 [|l3 [|l4 r3]]]]]]; try reflexivity.
  destruct Hs as [Hs|Hs]; [now rewrite Hs|].
  cbn [plain_after_high] in Hs.
  destruct (is_high_surrogate u); [|reflexivity]. cbn [andb].
  destruct ((b =? 92) && (k =? 117)); [|reflexivity].
  cbn [negb orb] in Hs.
  destruct (hex4 l1 l2 l3 l4) as [u2|]; [|discriminate].
  apply negb_true_iff in Hs. now rewrite Hs.
Qed.

(** A surrogate pair of escapes is one character. *)
Lemma scanstring_u_pair u u2 h1 h2 h3 h4 l1 l2 l3 l4 r3 :
  hex4 h1 h2 h3 h4 = Some u ->
  hex4 l1 l2 l3 l4 = Some u2 ->
  is_high_surrogate u = true ->
  is_low_surrogate u2 = true ->
  scanstring (92 :: 117 :: h1 :: h2 :: h3 :: h4
              :: 92 :: 117 :: l1 :: l2 :: l3 :: l4 :: r3)
  = push_char (65536 + ((u - 55296) * 1024 + (u2 - 56320))) (scanstring r3).
Proof.
  intros Hh Hl Hs Hs2.
  change (scanstring (92 :: 117 :: h1 :: h2 :: h3 :: h4
              :: 92 :: 117 :: l1 :: l2 :: l3 :: l4 :: r3)) with
    (match hex4 h1 h2 h3 h4 with
     | None => Raise (JSONDecodeError (text "Invalid \uXXXX escape"))
     | Some u =>
         if is_high_surrogate u && (92 =? 92) && (117 =? 117) then
           match hex4 l1 l2 l3 l4 with
           | None => Raise (JSONDecodeError (text "Invalid \uXXXX escape"))
           | Some u2 =>
               if is_low_surrogate u2 then
                 push_char (65536 + ((u - 55296) * 1024 + (u2 - 56320)))
                   (scanstring r3)
               else push_char u
                      (scanstring (92 :: 117 :: l1 :: l2 :: l3 :: l4 :: r3))
           end
         else push_char u (scanstring (92 :: 117 :: l1 :: l2 :: l3 :: l4 :: r3))
     end).
  rewrite Hh, Hs, Hl, Hs2. reflexivity.
Qed.

(** A character written as it is. *)
Lemma scanstring_plain c r :
  c <> 34 -> c <> 92 -> 32 <= c ->
  scanstring (c :: r) = push_char c (scanstring r).
Proof.
  intros N34 N92 H32. simpl scanstring.
  destruct (N.eqb_spec c 34); [contradiction|].
  destruct (N.eqb_spec c 92); [contradiction|].
  destruct (N.ltb_spec c 32); [lia|]. reflexivity.
Qed.

Lemma scanstring_escape c rest :
  code_point c = true ->
  is_high_surrogate c = false \/ plain_after_high rest = true ->
  scanstring (escape_char c ++ rest) = push_char c (scanstring rest).
Proof.
  unfold code_point. intros Hlt Hns. apply N.ltb_lt in Hlt.
  unfold escape_char.
  destruct (N.eqb_spec c 34) as [->|N34]; [reflexivity|].
  destruct (N.eqb_spec c 92) as [->|N92]; [reflexivity|].
  destruct (N.eqb_spec c 10) as [->|N10]; [reflexivity|].
  destruct (N.eqb_spec c 13) as [->|N13]; [reflexivity|].
  destruct (N.eqb_spec c 9) as [->|N9]; [reflexivity|].
  destruct (N.eqb_spec c 8) as [->|N8]; [reflexivity|].
  destruct (N.eqb_spec c 12) as [->|N12]; [reflexivity|].
  destruct ((32 <=? c) && (c <=? 126)) eqn:Hp.
  - apply andb_true_iff in Hp. destruct Hp as [H32 H126].
    apply N.leb_le in H32.
    apply scanstring_plain; assumption.
  - destruct (N.ltb_spec c 65536) as [Hb|Hb].
    + unfold u_escape. cbn [List.app].
      apply scanstring_u_plain; [now apply hex4_u_escape|assumption].
    + cbv zeta. unfold u_escape. cbn [List.app].
      set (n := c - 65536).
      assert (Hn : n < 1048576) by (unfold n; lia).
      rewrite (scanstring_u_pair
                 (55296 + (n / 1024) mod 1024) (56320 + n mod 1024)).
      * f_equal. unfold n. lia.
      * apply hex4_u_escape. lia.
      * apply hex4_u_escape. lia.
      * unfold is_high_surrogate. apply andb_true_iff.
        split; apply N.leb_le; lia.
      * unfold is_low_surrogate. apply andb_true_iff.
        split; apply N.leb_le; lia.
Qed.

(** The escape of a character that is no low surrogate is not the escape of
    a low surrogate. *)
Lemma plain_after_high_escape c rest :
  code_point c = true ->
  is_low_surrogate c = false ->
  plain_after_high (escape_char c ++ rest) = true.
Proof.
  unfold code_point. intros Hlt Hlow. apply N.ltb_lt in Hlt.
  assert (Hshort : forall x, x <> 117 ->
                             plain_after_high ([92; x] ++ rest) = true).
  { intros x Hx. cbn [List.app].
    destruct rest as [|? [|? [|? [|? ?]]]]; try reflexivity.
    cbn [plain_after_high].
    destruct (N.eqb_spec x 117); [contradiction|]. reflexivity. }
  unfold escape_char.
  destruct (N.eqb_spec c 34) as [->|N34]; [apply Hshort; discriminate|].
  destruct (N.eqb_spec c 92) as [->|N92]; [apply Hshort; discriminate|].
  destruct (N.eqb_spec c 10) as [->|N10]; [apply Hshort; discriminate|].
  destruct (N.eqb_spec c 13) as [->|N13]; [apply Hshort; discriminate|].
  destruct (N.eqb_spec c 9) as [->|N9]; [apply Hshort; discriminate|].
  destruct (N.eqb_spec c 8) as [->|N8]; [apply Hshort; discriminate|].
  destruct (N.eqb_spec c 12) as [->|N12]; [apply Hshort; discriminate|].
  destruct ((32 <=? c) && (c <=? 126)) eqn:Hp.
  - cbn [List.app].
    destruct rest as [|? [|? [|? [|? [|? ?]]]]]; try reflexivity.
    cbn [plain_after_high].
    destruct (N.eqb_spec c 92); [contradiction|]. reflexivity.
  - destruct (N.ltb_spec c 65536) as [Hb|Hb].
    + unfold u_escape. cbn [List.app plain_after_high].
      rewrite (hex4_u_escape c Hb), Hlow. apply orb_true_r.
    + cbv zeta. unfold u_escape. cbn [List.app plain_after_high].
      set (n := c - 65536).
      assert (Hn : n < 1048576) by (unfold n; lia).
      rewrite hex4_u_escape by lia.
      replace (is_low_surrogate (55296 + (n / 1024) mod 1024)) with false;
        [apply orb_true_r|].
      symmetry. unfold is_low_surrogate. apply andb_false_iff. left.
      apply N.leb_gt. lia.
Qed.

Lemma plain_after_high_quote rest : plain_after_high (34 :: rest) = true.
Proof.
  destruct rest as [|? [|? [|? [|? [|? ?]]]]]; reflexivity.
Qed.

Lemma scanstring_encode s rest :
  str_ok s = true ->
  scanstring (flat_map escape_char s ++ 34 :: rest) = Ok (s, rest).
Proof.
  unfold str_ok. induction s as [|c s IH]; intros H.
  - reflexivity.
  - apply andb_true_iff in H. destruct H as [Hcp Hnp].
    cbn [forallb] in Hcp. apply andb_true_iff in Hcp.
    destruct Hcp as [Hc Hs].
    cbn [no_surrogate_pair] in Hnp. apply andb_true_iff in Hnp.
    destruct Hnp as [Hpair Hnp].
    cbn [flat_map]. rewrite <- List.app_assoc.
    rewrite scanstring_escape; [|assumption|].
    + rewrite IH by (now rewrite Hs, Hnp). reflexivity.
    + destruct (is_high_surrogate c) eqn:Hh; [right|now left].
      destruct s as [|c' s'].
      * apply plain_after_high_quote.
      * cbn [flat_map]. rewrite <- List.app_assoc.
        cbn [andb] in Hpair. apply negb_true_iff in Hpair.
        cbn [forallb] in Hs. apply andb_true_iff in Hs.
        apply plain_after_high_escape; [apply Hs|assumption].
Qed.

(** ** Numbers: the scanner reads back a numeral, and stops where it ends *)

Lemma span_digits_app s rest :
  match rest with [] => true | c :: _ => negb (is_digit c) end = true ->
  span_digits (s ++ rest)
  = (fst (span_digits s), snd (span_digits s) ++ rest).
Proof.
  intros Hr. induction s as [|c s IH].
  - cbn [List.app]. destruct rest as [|c r]; [reflexivity|].
    cbn [span_digits fst snd List.app].
    apply negb_true_iff in Hr. now rewrite Hr.
  - cbn [List.app span_digits]. destruct (is_digit c).
    + rewrite IH. reflexivity.
    + reflexivity.
Qed.

Lemma number_stops_no_digit rest :
  number_stops rest = true ->
  match rest with [] => true | c :: _ => negb (is_digit c) end = true.
Proof.
  destruct rest as [|c r]; [reflexivity|]. cbn.
  destruct (is_digit c); [discriminate|reflexivity].
Qed.

Lemma number_stops_head c r :
  number_stops (c :: r) = true ->
  is_digit c = false /\ c <> 46 /\ c <> 101 /\ c <> 69 /\ c <> 43 /\ c <> 45.
Proof.
  cbn. intros H. apply negb_true_iff in H.
  repeat (apply orb_false_iff in H; destruct H as [H ?]).
  repeat split; try assumption;
    intros ->; discriminate.
Qed.

Lemma scan_frac_app s rest :
  number_stops rest = true ->
  scan_frac (s ++ rest) = (fst (scan_frac s), snd (scan_frac s) ++ rest).
Proof.
  intros Hr. destruct s as [|c s].
  - cbn [List.app]. destruct rest as [|c r]; [reflexivity|].
    apply number_stops_head in Hr. destruct Hr as (_ & N46 & _).
    cbn. destruct (N.eqb_spec c 46); [contradiction|reflexivity].
  - cbn [List.app scan_frac]. destruct (c =? 46); [|reflexivity].
    rewrite span_digits_app by now apply number_stops_no_digit.
    destruct (span_digits s) as [[|d ds] r']; reflexivity.
Qed.

Lemma scan_exp_app s rest :
  number_stops rest = true ->
  scan_exp (s ++ rest) = (fst (scan_exp s), snd (scan_exp s) ++ rest).
Proof.
  intros Hr. destruct s as [|c s].
  - cbn [List.app]. destruct rest as [|c r]; [reflexivity|].
    apply number_stops_head in Hr. destruct Hr as (_ & _ & N101 & N69 & _).
    cbn. destruct (N.eqb_spec c 101); [contradiction|].
    destruct (N.eqb_spec c 69); [contradiction|reflexivity].
  - cbn [List.app scan_exp]. destruct ((c =? 101) || (c =? 69)); [|reflexivity].
    destruct s as [|g s].
    + cbn [List.app]. destruct rest as [|g r]; [reflexivity|].
      apply number_stops_head in Hr.
      destruct Hr as (Hd & _ & _ & _ & N43 & N45).
      cbn -[N.eqb is_digit].
      destruct (N.eqb_spec g 43); [contradiction|].
      destruct (N.eqb_spec g 45); [contradiction|].
      cbn -[N.eqb is_digit]. rewrite Hd. reflexivity.
    + cbn [List.app]. destruct ((g =? 43) || (g =? 45)); cbn [fst snd].
      * rewrite span_digits_app by now apply number_stops_no_digit.
        destruct (span_digits s) as [[|d ds] r']; reflexivity.
      * change (g :: s ++ rest) with ((g :: s) ++ rest).
        rewrite span_digits_app by now apply number_stops_no_digit.
        destruct (span_digits (g :: s)) as [[|d ds] r']; reflexivity.
Qed.

Lemma scan_unsigned_app neg s rest :
  number_stops rest = true ->
  scan_unsigned neg (s ++ rest) = extend rest (scan_unsigned neg s).
Proof.
  intros Hr. destruct s as [|c s].
  - cbn [List.app]. destruct rest as [|c r]; [reflexivity|].
    apply number_stops_head in Hr. destruct Hr as (Hd & _).
    cbn. rewrite Hd. destruct (N.eqb_spec c 48) as [->|]; [discriminate|].
    reflexivity.
  - cbn [List.app]. unfold scan_unsigned.
    destruct (c =? 48).
    + cbv zeta. rewrite scan_frac_app by assumption. cbn [fst snd].
      rewrite scan_exp_app by assumption. cbn [fst snd].
      destruct (fst (scan_frac s)), (fst (scan_exp (snd (scan_frac s))));
        reflexivity.
    + destruct (is_digit c); [|reflexivity].
      cbv zeta. rewrite span_digits_app by now apply number_stops_no_digit.
      cbn [fst snd]. rewrite scan_frac_app by assumption. cbn [fst snd].
      rewrite scan_exp_app by assumption. cbn [fst snd].
      destruct (fst (scan_frac (snd (span_digits s)))),
        (fst (scan_exp (snd (scan_frac (snd (span_digits s))))));
        reflexivity.
Qed.

Lemma scan_number_app s rest :
  number_stops rest = true ->
  scan_number (s ++ rest) = extend rest (scan_number s).
Proof.
  intros Hr. destruct s as [|c s].
  - cbn [List.app]. destruct rest as [|c r]; [reflexivity|].
    pose proof (number_stops_head _ _ Hr) as (_ & _ & _ & _ & _ & N45).
    unfold scan_number. destruct (N.eqb_spec c 45); [contradiction|].
    apply (scan_unsigned_app false [] (c :: r) Hr).
  - cbn [List.app]. unfold scan_number. destruct (c =? 45).
    + now apply scan_unsigned_app.
    + now apply (scan_unsigned_app false (c :: s)).
Qed.

(** ** Integers: [int(repr(z)) = z] through the scanner *)

Lemma digits_uint_uint_digits u : digits_uint (uint_digits u) = u.
Proof.
  induction u; cbn [uint_digits digits_uint]; rewrite ?IHu; reflexivity.
Qed.

Lemma uint_digits_all_digits u : forallb is_digit (uint_digits u) = true.
Proof.
  induction u; cbn [uint_digits forallb]; rewrite ?IHu; reflexivity.
Qed.

Lemma span_digits_all s :
  forallb is_digit s = true -> span_digits s = (s, []).
Proof.
  induction s as [|c s IH]; [reflexivity|].
  cbn [forallb span_digits]. intros H.
  apply andb_true_iff in H. destruct H as [Hc Hs].
  rewrite Hc, (IH Hs). reflexivity.
Qed.

(** A numeral without leading zeros that is not zero starts with 1..9. *)
Lemma unorm_fixed_head u :
  unorm u = u -> u <> Nil -> u <> zero ->
  exists c d, uint_digits u = c :: d /\ is_digit c = true /\ c <> 48.
Proof.
  intros Hn Hnil Hz. destruct u.
  - contradiction.
  - exfalso. rewrite unorm_D0 in Hn. destruct (uint_eq_dec u Nil) as [->|Hu].
    + apply Hz. reflexivity.
    + pose proof (nb_digits_unorm u Hu) as Hle. rewrite Hn in Hle.
      cbn in Hle. apply (Nat.nle_succ_diag_l _ Hle).
  - exists 49, (uint_digits u). repeat split; discriminate.
  - exists 50, (uint_digits u). repeat split; discriminate.
  - exists 51, (uint_digits u). repeat split; discriminate.
  - exists 52, (uint_digits u). repeat split; discriminate.
  - exists 53, (uint_digits u). repeat split; discriminate.
  - exists 54, (uint_digits u). repeat split; discriminate.
  - exists 55, (uint_digits u). repeat split; discriminate.
  - exists 56, (uint_digits u). repeat split; discriminate.
  - exists 57, (uint_digits u). repeat split; discriminate.
Qed.

Lemma to_uint_head p :
  exists c d, uint_digits (Pos.to_uint p) = c :: d
              /\ is_digit c = true /\ c <> 48.
Proof.
  apply unorm_fixed_head.
  - pose proof (DecimalPos.Unsigned.to_of (Pos.to_uint p)) as H.
    rewrite DecimalPos.Unsigned.of_to in H. symmetry. exact H.
  - apply DecimalPos.Unsigned.to_uint_nonnil.
  - apply DecimalPos.Unsigned.to_uint_nonzero.
Qed.

Lemma scan_unsigned_numeral neg p :
  scan_unsigned neg (uint_digits (Pos.to_uint p))
  = Some (PInt (if neg then Zneg p else Zpos p), []).
Proof.
  destruct (to_uint_head p) as (c & d & E & Hd & N48).
  pose proof (uint_digits_all_digits (Pos.to_uint p)) as Hall.
  assert (Hv : int_of_digits neg (c :: d) = if neg then Zneg p else Zpos p).
  { rewrite <- E. unfold int_of_digits. rewrite digits_uint_uint_digits.
    unfold N.of_uint. rewrite DecimalPos.Unsigned.of_to.
    destruct neg; reflexivity. }
  rewrite E in *. cbn [forallb] in Hall.
  apply andb_true_iff in Hall. destruct Hall as [_ Hall].
  unfold scan_unsigned.
  destruct (N.eqb_spec c 48); [contradiction|].
  rewrite Hd. cbv zeta. rewrite (span_digits_all d Hall). cbn [fst snd].
  cbn [scan_frac scan_exp fst snd]. rewrite Hv. reflexivity.
Qed.

Lemma scan_number_repr_int z : scan_number (repr_int z) = Some (PInt z, []).
Proof.
  destruct z as [|p|p].
  - reflexivity.
  - cbn [repr_int]. destruct (to_uint_head p) as (c & d & E & Hd & N48).
    pose proof (scan_unsigned_numeral false p) as H. rewrite E in *.
    unfold scan_number. destruct (N.eqb_spec c 45) as [->|]; [discriminate|].
    exact H.
  - cbn [repr_int]. unfold scan_number. cbn [N.eqb Pos.eqb].
    apply (scan_unsigned_numeral true p).
Qed.

(** ** Constants and numbers through [scan_once] *)

Lemma pystr_eqb_eq a b : pystr_eqb a b = true -> a = b.
Proof.
  unfold pystr_eqb. destruct (list_eq_dec N.eq_dec a b); [auto|discriminate].
Qed.

Lemma pystr_eqb_refl a : pystr_eqb a a = true.
Proof.
  unfold pystr_eqb. destruct (list_eq_dec N.eq_dec a a); [auto|contradiction].
Qed.

Lemma pystr_eqb_neq a b : pystr_eqb a b = false -> a <> b.
Proof.
  unfold pystr_eqb. destruct (list_eq_dec N.eq_dec a b); [discriminate|auto].
Qed.

Lemma float_literal_scan lit :
  float_literal lit = true -> scan_number lit = Some (PFloat (FNum lit), []).
Proof.
  unfold float_literal.
  destruct (scan_number lit) as [[v r]|]; [|discriminate].
  destruct v; try discriminate. destruct f; try discriminate.
  destruct r; try discriminate.
  intros H. apply pystr_eqb_eq in H. now subst.
Qed.

(** A text the number scanner accepts starts with a digit, or with a minus
    sign and a digit. *)
Lemma scan_unsigned_head neg s v r :
  scan_unsigned neg s = Some (v, r) ->
  exists c t, s = c :: t /\ is_digit c = true.
Proof.
  destruct s as [|c t]; [discriminate|].
  intros H. exists c, t. split; [reflexivity|].
  unfold scan_unsigned in H.
  destruct (N.eqb_spec c 48) as [->|]; [reflexivity|].
  destruct (is_digit c); [reflexivity|discriminate].
Qed.

Lemma scan_number_head s v r :
  scan_number s = Some (v, r) ->
  exists c t, s = c :: t /\
    (is_digit c = true \/
     (c = 45 /\ exists c' t', t = c' :: t' /\ is_digit c' = true)).
Proof.
  destruct s as [|c t]; [discriminate|].
  unfold scan_number. intros H. exists c, t. split; [reflexivity|].
  destruct (N.eqb_spec c 45) as [->|].
  - right. split; [reflexivity|]. apply (scan_unsigned_head _ _ _ _ H).
  - left. destruct (scan_unsigned_head _ _ _ _ H) as (c' & t' & E & Hd).
    now injection E as <- <-.
Qed.

Lemma is_digit_range c : is_digit c = true -> 48 <= c <= 57.
Proof.
  unfold is_digit. intros H. apply andb_true_iff in H.
  destruct H as [H1 H2]. apply N.leb_le in H1. apply N.leb_le in H2. lia.
Qed.

Lemma strip_prefix_head_neq a p c t :
  a <> c -> strip_prefix (a :: p) (c :: t) = None.
Proof.
  intros H. cbn. destruct (N.eqb_spec a c); [contradiction|reflexivity].
Qed.

Lemma strip_prefix_head_eq a p t :
  strip_prefix (a :: p) (a :: t) = strip_prefix p t.
Proof. cbn [strip_prefix]. now rewrite N.eqb_refl. Qed.

(** What the number scanner accepts, [scan_atom] returns. *)
Lemma scan_atom_number s v r :
  scan_number s = Some (v, r) -> scan_atom s = Ok (v, r).
Proof.
  intros H. destruct (scan_number_head _ _ _ H) as (c & t & -> & Hc).
  unfold scan_atom. rewrite H.
  assert (Hne : c <> 110 /\ c <> 116 /\ c <> 102).
  { destruct Hc as [Hd|[-> _]].
    - apply is_digit_range in Hd. lia.
    - repeat split; discriminate. }
  destruct Hne as (N1 & N2 & N3).
  change (text "null") with (110 :: text "ull").
  change (text "true") with (116 :: text "rue").
  change (text "false") with (102 :: text "alse").
  rewrite !strip_prefix_head_neq by congruence.
  replace (strip_prefix (text "-Infinity") (c :: t)) with (@None pystr);
    [reflexivity|].
  symmetry. change (text "-Infinity") with (45 :: 73 :: text "nfinity").
  destruct Hc as [Hd|[-> (c' & t' & -> & Hd)]].
  - apply strip_prefix_head_neq. apply is_digit_range in Hd. lia.
  - rewrite strip_prefix_head_eq.
    apply strip_prefix_head_neq. apply is_digit_range in Hd. lia.
Qed.

Lemma scan_once_atom f c r :
  c <> 34 -> c <> 123 -> c <> 91 ->
  scan_once (S f) (c :: r) = scan_atom (c :: r).
Proof.
  intros N1 N2 N3. cbn [scan_once].
  destruct (N.eqb_spec c 34); [contradiction|].
  destruct (N.eqb_spec c 123); [contradiction|].
  destruct (N.eqb_spec c 91); [contradiction|]. reflexivity.
Qed.

(** A numeral followed by a text that stops it. *)
Lemma scan_once_number f lit v rest :
  scan_number lit = Some (v, []) ->
  number_stops rest = true ->
  scan_once (S f) (lit ++ rest) = Ok (v, rest).
Proof.
  intros H Hr.
  pose proof (scan_number_app lit rest Hr) as Ha. rewrite H in Ha.
  cbn [extend List.app] in Ha.
  destruct (scan_number_head _ _ _ H) as (c & t & -> & Hc).
  cbn [List.app] in *. rewrite scan_once_atom.
  - now apply scan_atom_number.
  - destruct Hc as [Hd|[-> _]]; [apply is_digit_range in Hd; lia|discriminate].
  - destruct Hc as [Hd|[-> _]]; [apply is_digit_range in Hd; lia|discriminate].
  - destruct Hc as [Hd|[-> _]]; [apply is_digit_range in Hd; lia|discriminate].
Qed.

(** ** Values: [scan_once] reads back what [json.dumps] writes *)

(** Induction on values, with the hypothesis for every element of a list,
    of a tuple and of a dict. *)
Lemma pyval_induction (P : pyval -> Prop) :
  P PNone ->
  (forall b, P (PBool b)) ->
  (forall z, P (PInt z)) ->
  (forall f, P (PFloat f)) ->
  (forall s, P (PStr s)) ->
  (forall l, Forall P l -> P (PList l)) ->
  (forall l, Forall P l -> P (PTuple l)) ->
  (forall d, Forall (fun kv => P (snd kv)) d -> P (PDict d)) ->
  (forall n, P (PObject n)) ->
  forall v, P v.
Proof.
  intros HN HB HI HF HS HL HT HD HO.
  fix IH 1. intros v. destruct v as [ |b|z|f|s|l|l|d|n].
  - exact HN.
  - apply HB.
  - apply HI.
  - apply HF.
  - apply HS.
  - apply HL. revert l. fix IHl 1. intros [|x l].
    + constructor.
    + constructor; [apply IH|apply IHl].
  - apply HT. revert l. fix IHl 1. intros [|x l].
    + constructor.
    + constructor; [apply IH|apply IHl].
  - apply HD. revert d. fix IHd 1. intros [|[k x] d].
    + constructor.
    + constructor; [apply IH|apply IHd].
  - apply HO.
Qed.

Lemma skip_ws_head c r : is_ws c = false -> skip_ws (c :: r) = c :: r.
Proof. intros H. cbn [skip_ws]. now rewrite H. Qed.

Lemma is_ws_digit c : is_digit c = true -> is_ws c = false.
Proof.
  intros H. apply is_digit_range in H. unfold is_ws.
  destruct (N.eqb_spec c 32); [lia|]. destruct (N.eqb_spec c 9); [lia|].
  destruct (N.eqb_spec c 10); [lia|]. destruct (N.eqb_spec c 13); [lia|].
  reflexivity.
Qed.

Lemma value_head_digit c : is_digit c = true -> value_head c.
Proof.
  intros H. split; [now apply is_ws_digit|].
  apply is_digit_range in H. lia.
Qed.

Lemma render_head v :
  json_native v = true -> exists c r, render v = c :: r /\ value_head c.
Proof.
  destruct v as [ |[|]|z|f|s|l|l|d|n]; cbn [json_native render]; intros H;
    try discriminate.
  - exists 110, (text "ull"). repeat split; discriminate.
  - exists 116, (text "rue"). repeat split; discriminate.
  - exists 102, (text "alse"). repeat split; discriminate.
  - destruct z as [|p|p]; cbn [repr_int].
    + exists 48, []. repeat split; discriminate.
    + destruct (to_uint_head p) as (c & t & -> & Hd & _).
      exists c, t. split; [reflexivity|now apply value_head_digit].
    + eexists _, _. split; [reflexivity|]. repeat split; discriminate.
  - destruct f as [lit| |[|]]; try discriminate; cbn [float_repr].
    + apply float_literal_scan in H.
      destruct (scan_number_head _ _ _ H) as (c & t & -> & [Hd|[-> _]]).
      * exists c, t. split; [reflexivity|now apply value_head_digit].
      * eexists _, _. split; [reflexivity|]. repeat split; discriminate.
    + exists 45, (text "Infinity"). repeat split; discriminate.
    + exists 73, (text "nfinity"). repeat split; discriminate.
  - unfold encode_str. eexists _, _. split; [reflexivity|].
    repeat split; discriminate.
  - eexists _, _. split; [reflexivity|]. repeat split; discriminate.
  - eexists _, _. split; [reflexivity|]. repeat split; discriminate.
Qed.

Lemma join_cons sep p ps :
  join sep (p :: ps)
  = p ++ match ps with [] => [] | _ :: _ => sep ++ join sep ps end.
Proof.
  destruct ps; cbn [join]; [now rewrite List.app_nil_r|reflexivity].
Qed.

Lemma parse_array_render l :
  forall v acc rest fuel,
    Forall (fun x => json_native x = true -> reads_back x) (v :: l) ->
    forallb json_native (v :: l) = true ->
    (fold_right (fun x n => S (need x + n)) O (v :: l) <= fuel)%nat ->
    parse_array fuel (join (text ", ") (map render (v :: l)) ++ 93 :: rest) acc
    = Ok (PList (List.rev acc ++ v :: l), rest).
Proof.
  induction l as [|v' l IH]; intros v acc rest fuel HP Hn Hf.
  - cbn [map join]. cbn [fold_right] in Hf.
    destruct fuel as [|f]; [lia|].
    inversion HP as [|? ? Hv _]; subst.
    cbn [forallb] in Hn. apply andb_true_iff in Hn. destruct Hn as [Hnv _].
    cbn [parse_array]. rewrite (Hv Hnv (93 :: rest) f eq_refl) by lia.
    cbn [res_bind fst snd]. rewrite skip_ws_head by reflexivity.
    cbn [N.eqb Pos.eqb]. cbn [List.rev]. reflexivity.
  - cbn [fold_right] in Hf. destruct fuel as [|f]; [lia|].
    inversion HP as [|? ? Hv HP']; subst.
    cbn [forallb] in Hn. apply andb_true_iff in Hn. destruct Hn as [Hnv Hn'].
    specialize (IH v' (v :: acc) rest f HP' Hn').
    cbn [forallb] in Hn'. apply andb_true_iff in Hn'.
    cbn [map] in *. rewrite join_cons.
    change (text ", ") with [44; 32] in *.
    rewrite <- !List.app_assoc. cbn [List.app].
    cbn [parse_array]. rewrite (Hv Hnv (44 :: 32 :: _) f eq_refl) by lia.
    cbn [res_bind fst snd]. rewrite skip_ws_head by reflexivity.
    cbn [N.eqb Pos.eqb].
    assert (Hws : forall t, skip_ws (32 :: join [44; 32] (render v' :: map render l) ++ t)
                            = join [44; 32] (render v' :: map render l) ++ t).
    { intros t. cbn [skip_ws]. change (is_ws 32) with true. cbv iota.
      rewrite join_cons.
      destruct (render_head v' (proj1 Hn')) as (c & r & -> & Hc & _).
      rewrite <- !List.app_comm_cons. now apply skip_ws_head. }
    rewrite Hws.
    rewrite IH by (cbn [fold_right]; lia).
    cbn [List.rev]. rewrite <- List.app_assoc. reflexivity.
Qed.

Lemma distinct_app_fresh a k b :
  distinct (a ++ k :: b) = true -> existsb (pystr_eqb k) a = false.
Proof.
  induction a as [|x a IH]; [reflexivity|].
  cbn [List.app distinct existsb]. intros H.
  apply andb_true_iff in H. destruct H as [Hx Hd].
  apply negb_true_iff in Hx. rewrite existsb_app in Hx.
  apply orb_false_iff in Hx. destruct Hx as [_ Hx].
  cbn [existsb] in Hx. apply orb_false_iff in Hx. destruct Hx as [Hx _].
  rewrite (IH Hd), orb_false_r.
  destruct (pystr_eqb k x) eqn:E; [|reflexivity].
  apply pystr_eqb_eq in E. subst. now rewrite pystr_eqb_refl in Hx.
Qed.

Lemma dict_set_fresh k v acc :
  existsb (pystr_eqb k) (str_keys acc) = false ->
  dict_set k v acc = acc ++ [(KStr k, v)].
Proof.
  induction acc as [|[k' w] acc IH]; [reflexivity|].
  cbn [dict_set List.app]. unfold str_keys. cbn [flat_map fst].
  destruct k' as [t| | | | ]; cbn [key_is_str List.app existsb];
    intros H; try (rewrite (IH H); reflexivity).
  apply orb_false_iff in H. destruct H as [Ht H].
  rewrite Ht, (IH H). reflexivity.
Qed.

Lemma str_keys_app a b : str_keys (a ++ b) = str_keys a ++ str_keys b.
Proof. unfold str_keys. apply flat_map_app. Qed.

(** How one entry of a dict is written. *)
Lemma parse_object_render d :
  forall k v acc rest fuel,
    Forall (fun kv => json_native (snd kv) = true -> reads_back (snd kv))
      ((KStr k, v) :: d) ->
    forallb (fun kv =>
               match fst kv with
               | KStr k => str_ok k
               | _ => false
               end && json_native (snd kv)) ((KStr k, v) :: d) = true ->
    distinct (str_keys acc ++ str_keys ((KStr k, v) :: d)) = true ->
    (fold_right (fun kv n => S (need (snd kv) + n)) O ((KStr k, v) :: d)
     <= fuel)%nat ->
    parse_object fuel
      (join (text ", ")
         (map (fun kv => encode_str (key_str (fst kv))
                         ++ text ": " ++ render (snd kv))
            ((KStr k, v) :: d))
       ++ 125 :: rest) acc
    = Ok (PDict (acc ++ (KStr k, v) :: d), rest).
Proof.
  induction d as [|[k' v'] d IH]; intros k v acc rest fuel HP Hn Hd Hf.
  - cbn [map join fst snd key_str]. cbn [fold_right snd] in Hf.
    destruct fuel as [|f]; [lia|].
    inversion HP as [|? ? Hv _]; subst. cbn [snd] in Hv.
    cbn [forallb fst snd] in Hn. rewrite andb_true_r in Hn.
    apply andb_true_iff in Hn. destruct Hn as [Hk Hnv].
    unfold encode_str. change (text ": ") with [58; 32].
    rewrite <- !List.app_assoc. cbn [List.app].
    cbn [parse_object N.eqb Pos.eqb].
    rewrite <- List.app_assoc. cbn [List.app].
    rewrite (scanstring_encode k _ Hk). cbn [res_bind fst snd].
    rewrite skip_ws_head by reflexivity. cbn [N.eqb Pos.eqb].
    destruct (render_head v Hnv) as (c & r & E & Hc & _).
    assert (Hws : forall t, skip_ws (32 :: render v ++ t) = render v ++ t).
    { intros t. cbn [skip_ws]. change (is_ws 32) with true. cbv iota.
      rewrite E, <- List.app_comm_cons. now apply skip_ws_head. }
    rewrite Hws, (Hv Hnv (125 :: rest) f eq_refl) by lia.
    cbn [res_bind fst snd]. rewrite skip_ws_head by reflexivity.
    cbn [N.eqb Pos.eqb].
    unfold str_keys in Hd. cbn [flat_map fst List.app] in Hd.
    fold (str_keys acc) in Hd.
    rewrite (dict_set_fresh k v acc (distinct_app_fresh _ _ _ Hd)).
    reflexivity.
  - cbn [fold_right snd] in Hf. destruct fuel as [|f]; [lia|].
    inversion HP as [|? ? Hv HP']; subst. cbn [snd] in Hv.
    cbn [forallb fst snd] in Hn. apply andb_true_iff in Hn.
    destruct Hn as [Hn Hn']. apply andb_true_iff in Hn.
    destruct Hn as [Hk Hnv].
    assert (Hk' : exists t, k' = KStr t).
    { apply andb_true_iff in Hn'. destruct Hn' as [Hn' _].
      apply andb_true_iff in Hn'. destruct Hn' as [Hn' _].
      destruct k'; try discriminate. now eexists. }
    destruct Hk' as (t & ->).
    assert (Hfresh : existsb (pystr_eqb k) (str_keys acc) = false).
    { unfold str_keys in Hd. cbn [flat_map fst List.app] in Hd.
      fold (str_keys acc) in Hd. apply (distinct_app_fresh _ _ _ Hd). }
    specialize (IH t v' (acc ++ [(KStr k, v)]) rest f HP').
    cbn [forallb fst snd] in IH. specialize (IH Hn').
    rewrite str_keys_app, <- List.app_assoc in IH.
    specialize (IH Hd).
    cbn [fold_right snd] in IH.
    cbn [map fst snd key_str] in *. rewrite join_cons.
    unfold encode_str at 1. change (text ": ") with [58; 32] in *.
    change (text ", ") with [44; 32] in *.
    rewrite <- !List.app_assoc. cbn [List.app].
    cbn [parse_object N.eqb Pos.eqb].
    rewrite <- List.app_assoc. cbn [List.app].
    rewrite (scanstring_encode k _ Hk). cbn [res_bind fst snd].
    rewrite skip_ws_head by reflexivity. cbn [N.eqb Pos.eqb].
    destruct (render_head v Hnv) as (c & r & E & Hc & _).
    assert (Hws : forall u, skip_ws (32 :: render v ++ u) = render v ++ u).
    { intros u. cbn [skip_ws]. change (is_ws 32) with true. cbv iota.
      rewrite E, <- List.app_comm_cons. now apply skip_ws_head. }
    rewrite Hws, (Hv Hnv (44 :: 32 :: _) f eq_refl) by lia.
    cbn [res_bind fst snd]. rewrite skip_ws_head by reflexivity.
    cbn [N.eqb Pos.eqb]. rewrite (dict_set_fresh k v acc Hfresh).
    assert (Hws2 : forall es w,
               skip_ws (32 :: join [44; 32]
                                (((encode_str t ++ [58; 32] ++ render v')) :: es)
                          ++ w)
               = join [44; 32]
                   ((encode_str t ++ [58; 32] ++ render v') :: es) ++ w).
    { intros es w. cbn [skip_ws]. change (is_ws 32) with true. cbv iota.
      rewrite join_cons. unfold encode_str.
      rewrite <- !List.app_comm_cons. now apply skip_ws_head. }
    rewrite Hws2.
    rewrite <- List.app_assoc in IH. apply IH. lia.
Qed.

(** Every JSON-native value reads back from its text. *)
Lemma render_reads_back v : json_native v = true -> reads_back v.
Proof.
  induction v as [ |b|z|f|s|l IH|l IH|d IH|n] using pyval_induction;
    intros Hn rest fuel Hr Hf; cbn [need] in Hf;
    (destruct fuel as [|fuel]; [lia|]); try discriminate.
  - reflexivity.
  - destruct b; reflexivity.
  - apply scan_once_number; [apply scan_number_repr_int|assumption].
  - destruct f as [lit| |[|]]; try discriminate; try reflexivity.
    cbn [json_native] in Hn. cbn [render float_repr].
    apply scan_once_number; [now apply float_literal_scan|assumption].
  - cbn [json_native] in Hn. cbn [render]. unfold encode_str.
    rewrite <- List.app_comm_cons, <- List.app_assoc. cbn [List.app].
    cbn [scan_once N.eqb Pos.eqb].
    rewrite (scanstring_encode s rest Hn). reflexivity.
  - cbn [json_native] in Hn. cbn [render].
    rewrite <- List.app_comm_cons, <- List.app_assoc. cbn [List.app].
    destruct l as [|v l].
    + reflexivity.
    + cbn [scan_once N.eqb Pos.eqb].
      assert (Hh : exists c r,
                 join (text ", ") (map render (v :: l)) ++ 93 :: rest = c :: r
                 /\ value_head c).
      { cbn [map]. rewrite join_cons.
        cbn [forallb] in Hn. apply andb_true_iff in Hn.
        destruct (render_head v (proj1 Hn)) as (c & r & -> & Hc).
        rewrite <- !List.app_comm_cons. eauto. }
      destruct Hh as (c & r & E & Hws & N93 & _).
      pose proof (parse_array_render l v [] rest fuel IH Hn) as Hp.
      rewrite E in *. rewrite skip_ws_head by assumption.
      destruct (N.eqb_spec c 93); [contradiction|].
      apply Hp. lia.
  - cbn [json_native] in Hn. apply andb_true_iff in Hn.
    destruct Hn as [Hn Hd]. cbn [render].
    rewrite <- List.app_comm_cons, <- List.app_assoc. cbn [List.app].
    destruct d as [|[k v] d].
    + reflexivity.
    + assert (Hk : exists t, k = KStr t).
      { cbn [forallb fst] in Hn. apply andb_true_iff in Hn.
        destruct Hn as [Hn _]. apply andb_true_iff in Hn.
        destruct Hn as [Hn _]. destruct k; try discriminate. now eexists. }
      destruct Hk as (t & ->).
      pose proof (parse_object_render d t v [] rest fuel IH Hn Hd) as Hp.
      cbn [scan_once N.eqb Pos.eqb].
      cbn [map fst snd key_str] in *. rewrite join_cons in *.
      unfold encode_str at 1. unfold encode_str at 1 in Hp.
      rewrite <- !List.app_comm_cons in *.
      rewrite skip_ws_head by reflexivity.
      cbn [N.eqb Pos.eqb]. apply Hp. lia.
Qed.

(** ** [json.dumps] on JSON-native values *)

Lemma sequence_map_ok {A B} (f : A -> res B) (g : A -> B) l :
  Forall (fun x => f x = Ok (g x)) l -> sequence (map f l) = Ok (map g l).
Proof.
  induction 1 as [|x l Hx _ IH]; [reflexivity|].
  cbn [map sequence]. rewrite Hx, IH. reflexivity.
Qed.

Lemma Forall_forallb_imp {A} (P : A -> Prop) (b : A -> bool) l :
  Forall (fun x => b x = true -> P x) l ->
  forallb b l = true -> Forall P l.
Proof.
  induction 1 as [|x l Hx _ IH]; intros H; [constructor|].
  cbn [forallb] in H. apply andb_true_iff in H. destruct H as [Hb Hl].
  constructor; auto.
Qed.

(** On a JSON-native value the encoder does not raise, and writes the text
    of [render]. *)
Lemma dumps_render v : json_native v = true -> json_dumps v = Ok (render v).
Proof.
  induction v as [ |b|z|f|s|l IH|l IH|d IH|n] using pyval_induction;
    intros Hn; try discriminate; try reflexivity.
  - destruct b; reflexivity.
  - cbn [json_native] in Hn. cbn [json_dumps render].
    rewrite (sequence_map_ok json_dumps render l
               (Forall_forallb_imp _ _ l IH Hn)).
    reflexivity.
  - cbn [json_native] in Hn. apply andb_true_iff in Hn. destruct Hn as [Hn _].
    cbn [json_dumps render].
    rewrite (sequence_map_ok _
               (fun kv => encode_str (key_str (fst kv))
                          ++ text ": " ++ render (snd kv)) d).
    + reflexivity.
    + clear -IH Hn. induction IH as [|kv d Hkv _ IHd]; [constructor|].
      cbn [forallb] in Hn. apply andb_true_iff in Hn. destruct Hn as [Hb Hl].
      apply andb_true_iff in Hb. destruct Hb as [_ Hb].
      constructor; [|auto]. now rewrite (Hkv Hb).
Qed.

(** ** The fuel of [json.loads] is enough *)

Lemma join_cons_length sep p q ps :
  List.length (join sep (p :: q :: ps))
  = (List.length p + List.length sep + List.length (join sep (q :: ps)))%nat.
Proof.
  change (join sep (p :: q :: ps)) with (p ++ sep ++ join sep (q :: ps)).
  rewrite !length_app. lia.
Qed.

Lemma need_sum_le {A} (nd : A -> nat) (rd : A -> pystr) l :
  forall x,
    Forall (fun y => (nd y <= 2 * List.length (rd y))%nat) (x :: l) ->
    (fold_right (fun y n => S (nd y + n)) O (x :: l)
     <= 2 * List.length (join (text ", ") (map rd (x :: l))) + 1)%nat.
Proof.
  induction l as [|y l IH]; intros x H.
  - inversion H as [|? ? Hx _]; subst. cbn [fold_right map join]. lia.
  - inversion H as [|? ? Hx H']; subst. specialize (IH y H').
    cbn [map] in *. rewrite join_cons_length.
    cbn [fold_right] in *. change (List.length (text ", ")) with 2%nat. lia.
Qed.

Lemma need_le_render v :
  json_native v = true -> (need v <= 2 * List.length (render v))%nat.
Proof.
  induction v as [ |b|z|f|s|l IH|l IH|d IH|n] using pyval_induction;
    intros Hn; try discriminate;
    try (destruct (render_head _ Hn) as (c & r & -> & _); cbn; lia).
  - cbn [json_native] in Hn. cbn [need render].
    destruct l as [|x l]; [cbn; lia|].
    pose proof (need_sum_le need render l x
                  (Forall_forallb_imp _ _ _ IH Hn)) as H.
    cbn [List.length]. rewrite length_app. cbn [List.length]. lia.
  - cbn [json_native] in Hn. apply andb_true_iff in Hn. destruct Hn as [Hn _].
    cbn [need render].
    assert (Hall : Forall
              (fun y : pykey * pyval =>
                 (need (snd y)
                  <= 2 * List.length (encode_str (key_str (fst y))
                                      ++ text ": " ++ render (snd y)))%nat)
              d).
    { clear -IH Hn. induction IH as [|kv d Hkv _ IHd]; [constructor|].
      cbn [forallb] in Hn. apply andb_true_iff in Hn. destruct Hn as [Hb Hl].
      apply andb_true_iff in Hb. destruct Hb as [_ Hb].
      constructor; [|auto]. specialize (Hkv Hb). rewrite !length_app. lia. }
    destruct d as [|x d]; [cbn; lia|].
    pose proof (need_sum_le (fun kv => need (snd kv))
                  (fun kv => encode_str (key_str (fst kv))
                             ++ text ": " ++ render (snd kv)) d x Hall) as H.
    cbv beta in H.
    cbn [List.length]. rewrite length_app. cbn [List.length].
    match type of H with
    | (?a <= 2 * ?b + 1)%nat =>
        match goal with
        | |- (S ?a' <= 2 * S (?b' + 1))%nat =>
            change a' with a; change b' with b
        end
    end.
    lia.
Qed.

(** ** The text of [json.dumps] is ASCII *)

Lemma hex_digit_ascii d : d < 16 -> ascii_char (hex_digit d) = true.
Proof.
  intros H. unfold ascii_char, hex_digit. apply N.ltb_lt.
  destruct (d <? 10); lia.
Qed.

Lemma u_escape_ascii c : forallb ascii_char (u_escape c) = true.
Proof.
  unfold u_escape. cbn [forallb].
  rewrite !hex_digit_ascii by (apply N.mod_lt; discriminate). reflexivity.
Qed.

Lemma escape_char_ascii c : forallb ascii_char (escape_char c) = true.
Proof.
  unfold escape_char.
  repeat match goal with
         | |- context [if ?b =? ?k then _ else _] =>
             destruct (b =? k); [reflexivity|]
         end.
  destruct ((32 <=? c) && (c <=? 126)) eqn:Hp.
  - apply andb_true_iff in Hp. destruct Hp as [_ Hp]. apply N.leb_le in Hp.
    cbn [forallb]. unfold ascii_char. rewrite andb_true_r. apply N.ltb_lt. lia.
  - destruct (c <? 65536); [apply u_escape_ascii|].
    cbv zeta. rewrite forallb_app, !u_escape_ascii. reflexivity.
Qed.

Lemma encode_str_ascii s : forallb ascii_char (encode_str s) = true.
Proof.
  unfold encode_str. cbn [forallb]. rewrite forallb_app. cbn [forallb].
  rewrite andb_true_r. cbn [ascii_char N.ltb N.compare Pos.compare
                             Pos.compare_cont andb].
  induction s as [|c s IH]; [reflexivity|].
  cbn [flat_map]. now rewrite forallb_app, escape_char_ascii, IH.
Qed.

Lemma digit_ascii c : is_digit c = true -> ascii_char c = true.
Proof.
  intros H. apply is_digit_range in H. apply N.ltb_lt. lia.
Qed.

Lemma digits_ascii s :
  forallb is_digit s = true -> forallb ascii_char s = true.
Proof.
  induction s as [|c s IH]; [reflexivity|]. cbn [forallb]. intros H.
  apply andb_true_iff in H. destruct H as [Hc Hs].
  now rewrite (digit_ascii c Hc), (IH Hs).
Qed.

Lemma repr_int_ascii z : forallb ascii_char (repr_int z) = true.
Proof.
  destruct z as [|p|p]; cbn [repr_int forallb]; try reflexivity.
  - apply digits_ascii, uint_digits_all_digits.
  - rewrite (digits_ascii _ (uint_digits_all_digits _)). reflexivity.
Qed.

Lemma span_digits_fst s : forallb is_digit (fst (span_digits s)) = true.
Proof.
  induction s as [|c s IH]; [reflexivity|]. cbn [span_digits].
  destruct (is_digit c) eqn:E; [|reflexivity].
  cbn [fst forallb]. now rewrite E, IH.
Qed.

Lemma scan_frac_ascii s : forallb ascii_char (fst (scan_frac s)) = true.
Proof.
  destruct s as [|c s]; [reflexivity|]. cbn [scan_frac].
  destruct (N.eqb_spec c 46) as [->|]; [|reflexivity].
  pose proof (span_digits_fst s) as H.
  destruct (span_digits s) as [[|d ds] r]; [reflexivity|].
  cbn [fst] in H. apply digits_ascii in H.
  change (forallb ascii_char (46 :: d :: ds) = true).
  cbn [forallb] in *. exact H.
Qed.

Lemma scan_exp_ascii s : forallb ascii_char (fst (scan_exp s)) = true.
Proof.
  destruct s as [|c s]; [reflexivity|]. cbn [scan_exp].
  destruct ((c =? 101) || (c =? 69)) eqn:Ec; [|reflexivity].
  assert (Hc : ascii_char c = true).
  { apply orb_true_iff in Ec. destruct Ec as [E|E];
      apply N.eqb_eq in E; subst; reflexivity. }
  assert (Hsr : forall r,
             forallb ascii_char
               (fst (match r with
                     | g :: r' => if (g =? 43) || (g =? 45)
                                  then ([g], r') else ([], r)
                     | [] => ([], r)
                     end)) = true).
  { intros [|g r']; [reflexivity|].
    destruct ((g =? 43) || (g =? 45)) eqn:Eg; [|reflexivity].
    apply orb_true_iff in Eg. destruct Eg as [E|E];
      apply N.eqb_eq in E; subst; reflexivity. }
  specialize (Hsr s). cbv zeta.
  match goal with
  | |- context [span_digits ?x] =>
      pose proof (span_digits_fst x) as H;
      destruct (span_digits x) as [[|d ds] r]; [reflexivity|]
  end.
  cbn [fst] in H. apply digits_ascii in H.
  match goal with
  | |- forallb ascii_char (fst (let (_, _) := (_, _) in (c :: ?sg ++ _, _)))
       = true =>
      change (forallb ascii_char (c :: sg ++ d :: ds) = true)
  | |- forallb ascii_char (fst (c :: ?sg ++ _, _)) = true =>
      change (forallb ascii_char (c :: sg ++ d :: ds) = true)
  end.
  cbn [forallb]. rewrite Hc, forallb_app, Hsr, H. reflexivity.
Qed.

Lemma number_literal_ascii (neg : bool) (ip r1 : pystr) (z : Z) lit r :
  forallb ascii_char ip = true ->
  match fst (scan_frac r1), fst (scan_exp (snd (scan_frac r1))) with
  | [], [] => Some (PInt z, snd (scan_exp (snd (scan_frac r1))))
  | _, _ =>
      Some (PFloat (FNum ((if neg then [45] else [])
                          ++ ip ++ fst (scan_frac r1)
                          ++ fst (scan_exp (snd (scan_frac r1))))),
            snd (scan_exp (snd (scan_frac r1))))
  end = Some (PFloat (FNum lit), r) ->
  forallb ascii_char lit = true.
Proof.
  intros Hip.
  assert (Hsign : forallb ascii_char (if neg then [45] else []) = true)
    by (destruct neg; reflexivity).
  pose proof (scan_frac_ascii r1) as Hf.
  pose proof (scan_exp_ascii (snd (scan_frac r1))) as He.
  assert (Hall : forallb ascii_char
                   ((if neg then [45] else []) ++ ip ++ fst (scan_frac r1)
                    ++ fst (scan_exp (snd (scan_frac r1)))) = true)
    by (rewrite !forallb_app, Hsign, Hip, Hf, He; reflexivity).
  destruct (fst (scan_frac r1)), (fst (scan_exp (snd (scan_frac r1))));
    intros H; try discriminate; injection H as <- _; exact Hall.
Qed.

Lemma scan_unsigned_ascii neg s lit r :
  scan_unsigned neg s = Some (PFloat (FNum lit), r) ->
  forallb ascii_char lit = true.
Proof.
  destruct s as [|c s]; [discriminate|]. unfold scan_unsigned.
  destruct (N.eqb_spec c 48) as [->|].
  - cbv zeta. apply number_literal_ascii. reflexivity.
  - destruct (is_digit c) eqn:Hd; [|discriminate]. cbv zeta. cbn [fst snd].
    apply number_literal_ascii. cbn [forallb].
    now rewrite (digit_ascii c Hd), (digits_ascii _ (span_digits_fst s)).
Qed.

Lemma float_literal_ascii lit :
  float_literal lit = true -> forallb ascii_char lit = true.
Proof.
  intros H. apply float_literal_scan in H.
  destruct lit as [|c s]; [discriminate|]. unfold scan_number in H.
  destruct (c =? 45); eapply scan_unsigned_ascii; exact H.
Qed.

Lemma join_ascii sep parts :
  forallb ascii_char sep = true ->
  Forall (fun p => forallb ascii_char p = true) parts ->
  forallb ascii_char (join sep parts) = true.
Proof.
  intros Hs. induction 1 as [|p ps Hp Hps IH]; [reflexivity|].
  rewrite join_cons, forallb_app, Hp. destruct ps; [reflexivity|].
  now rewrite forallb_app, Hs, IH.
Qed.

Lemma render_ascii v :
  json_native v = true -> forallb ascii_char (render v) = true.
Proof.
  induction v as [ |b|z|f|s|l IH|l IH|d IH|n] using pyval_induction;
    intros Hn; try discriminate; try reflexivity.
  - destruct b; reflexivity.
  - apply repr_int_ascii.
  - destruct f as [lit| |[|]]; try discriminate; try reflexivity.
    now apply float_literal_ascii.
  - apply encode_str_ascii.
  - cbn [json_native] in Hn. cbn [render forallb].
    rewrite forallb_app, join_ascii; [reflexivity|reflexivity|].
    apply Forall_map. apply (Forall_forallb_imp _ _ l IH Hn).
  - cbn [json_native] in Hn. apply andb_true_iff in Hn. destruct Hn as [Hn _].
    cbn [render forallb].
    rewrite forallb_app, join_ascii; [reflexivity|reflexivity|].
    apply Forall_map. clear -IH Hn.
    induction IH as [|kv d Hkv _ IHd]; [constructor|].
    cbn [forallb] in Hn. apply andb_true_iff in Hn. destruct Hn as [Hb Hl].
    apply andb_true_iff in Hb. destruct Hb as [_ Hb].
    constructor; [|auto].
    rewrite !forallb_app, encode_str_ascii, (Hkv Hb). reflexivity.
Qed.

(** ** UTF-8 on ASCII text *)

Lemma utf8_encode_ascii s :
  forallb ascii_char s = true -> utf8_encode s = Some s.
Proof.
  induction s as [|c s IH]; [reflexivity|]. cbn [forallb]. intros H.
  apply andb_true_iff in H. destruct H as [Hc Hs].
  cbn [utf8_encode]. unfold utf8_encode_char.
  unfold ascii_char in Hc. rewrite Hc, (IH Hs). reflexivity.
Qed.

Lemma utf8_decode_ascii s :
  forallb ascii_char s = true -> utf8_decode s = Some s.
Proof.
  induction s as [|c s IH]; [reflexivity|]. cbn [forallb]. intros H.
  apply andb_true_iff in H. destruct H as [Hc Hs].
  cbn [utf8_decode]. unfold ascii_char in Hc. rewrite Hc, (IH Hs).
  reflexivity.
Qed.

Lemma to_N_byte_of_N c : c < 256 -> Byte.to_N (byte_of_N c) = c.
Proof.
  intros H. unfold byte_of_N. destruct (Byte.of_N c) as [b|] eqn:E.
  - now apply Byte.to_of_N.
  - apply Byte.of_N_None_iff in E. lia.
Qed.

Lemma to_N_ascii_bytes s :
  forallb ascii_char s = true -> map Byte.to_N (ascii_bytes s) = s.
Proof.
  unfold ascii_bytes. induction s as [|c s IH]; [reflexivity|].
  cbn [forallb map]. intros H.
  apply andb_true_iff in H. destruct H as [Hc Hs].
  apply N.ltb_lt in Hc. rewrite to_N_byte_of_N by lia. f_equal. auto.
Qed.

Lemma str_encode_ascii s :
  forallb ascii_char s = true -> str_encode s = Ok (ascii_bytes s).
Proof.
  intros H. unfold str_encode. now rewrite (utf8_encode_ascii s H).
Qed.

Lemma bytes_decode_ascii s :
  forallb ascii_char s = true -> bytes_decode (ascii_bytes s) = Ok s.
Proof.
  intros H. unfold bytes_decode.
  now rewrite (to_N_ascii_bytes s H), (utf8_decode_ascii s H).
Qed.

(** ** [json.loads] after [json.dumps] *)

Lemma json_loads_render v : json_native v = true -> json_loads (render v) = Ok v.
Proof.
  intros Hn. unfold json_loads.
  destruct (render_head v Hn) as (c & r & E & Hws & _).
  pose proof (render_ascii v Hn) as Ha.
  pose proof (render_reads_back v Hn [] (2 * List.length (render v) + 2)%nat
                eq_refl) as Hr.
  pose proof (need_le_render v Hn) as Hf.
  rewrite List.app_nil_r in Hr. rewrite E in *.
  cbn [forallb] in Ha. apply andb_true_iff in Ha. destruct Ha as [Hc _].
  apply N.ltb_lt in Hc.
  unfold startswith. cbn [strip_prefix].
  destruct (N.eqb_spec 65279 c); [lia|].
  rewrite skip_ws_head by assumption. rewrite Hr by lia. reflexivity.
Qed.



(** ** The decoder on any text: it ends, and only with its own errors *)

Lemma push_char_string_ok c m len x :
  scan_string_ok m x -> (m <= len)%nat ->
  scan_string_ok len (push_char c x).
Proof.
  destruct x as [[k r]|e]; cbn; [lia|auto].
Qed.

Lemma scanstring_ok_bounded n :
  forall s, (List.length s <= n)%nat ->
            scan_string_ok (S (List.length s)) (scanstring s).
Proof.
  induction n as [|n IH]; intros s Hs.
  - destruct s; [reflexivity|cbn in Hs; lia].
  - destruct s as [|c r]; [reflexivity|].
    cbn [List.length] in Hs.
    assert (Hrec : forall t, (List.length t <= List.length r)%nat ->
                             scan_string_ok (S (S (List.length r)))
                               (scanstring t)).
    { intros t Ht. specialize (IH t ltac:(lia)).
      destruct (scanstring t) as [[k q]|e]; cbn in *; [lia|auto]. }
    assert (Hpush : forall u t, (List.length t <= List.length r)%nat ->
                                scan_string_ok (S (S (List.length r)))
                                  (push_char u (scanstring t))).
    { intros u t Ht. eapply push_char_string_ok; [apply (Hrec t Ht)|lia]. }
    cbn [List.length]. cbn [scanstring].
    destruct (c =? 34); [cbn; lia|].
    destruct (c =? 92).
    + destruct r as [|e r1]; [reflexivity|].
      destruct (e =? 117).
      * destruct r1 as [|h1 [|h2 [|h3 [|h4 r2]]]]; try reflexivity.
        destruct (hex4 h1 h2 h3 h4) as [u|]; [|reflexivity].
        destruct r2 as [|b [|k [|l1 [|l2 [|l3 [|l4 r3]]]]]];
          try (apply Hpush; cbn [List.length]; lia).
        destruct (is_high_surrogate u && (b =? 92) && (k =? 117));
          [|apply Hpush; cbn [List.length]; lia].
        destruct (hex4 l1 l2 l3 l4) as [u2|]; [|reflexivity].
        destruct (is_low_surrogate u2); apply Hpush; cbn [List.length]; lia.
      * destruct (unescape e); [|reflexivity].
        apply Hpush. cbn [List.length]. lia.
    + destruct (c <? 32); [reflexivity|]. apply Hpush. lia.
Qed.

Lemma scanstring_ok s : scan_string_ok (S (List.length s)) (scanstring s).
Proof. apply (scanstring_ok_bounded (List.length s)). lia. Qed.

Lemma skip_ws_length s : (List.length (skip_ws s) <= List.length s)%nat.
Proof.
  induction s as [|c s IH]; [reflexivity|]. cbn [skip_ws].
  destruct (is_ws c); cbn [List.length]; lia.
Qed.

Lemma span_digits_length s :
  (List.length (snd (span_digits s)) <= List.length s)%nat.
Proof.
  induction s as [|c s IH]; [reflexivity|]. cbn [span_digits].
  destruct (is_digit c); cbn [snd List.length]; lia.
Qed.

Lemma scan_frac_length s :
  (List.length (snd (scan_frac s)) <= List.length s)%nat.
Proof.
  destruct s as [|c s]; [reflexivity|]. cbn [scan_frac].
  destruct (c =? 46); [|reflexivity].
  pose proof (span_digits_length s) as H.
  destruct (span_digits s) as [[|d ds] r]; cbn [snd List.length] in *; lia.
Qed.

Lemma scan_exp_length s :
  (List.length (snd (scan_exp s)) <= List.length s)%nat.
Proof.
  destruct s as [|c s]; [reflexivity|]. cbn [scan_exp].
  destruct ((c =? 101) || (c =? 69)); [|reflexivity].
  cbv zeta.
  assert (Hsr : (List.length
                   (snd (match s with
                         | g :: r' => if N.eqb g 43 || N.eqb g 45
                                      then ([g], r') else ([], s)
                         | [] => ([], s)
                         end)) <= List.length s)%nat).
  { destruct s as [|g r']; [reflexivity|].
    destruct ((g =? 43) || (g =? 45)); cbn [snd List.length]; lia. }
  match goal with
  | |- context [span_digits ?x] =>
      pose proof (span_digits_length x) as H;
      destruct (span_digits x) as [[|d ds] r]
  end; cbn [snd List.length] in *; lia.
Qed.

Lemma float_head_sign (neg : bool) (t : pystr) :
  t <> [] ->
  (forall c r, t = c :: r -> is_digit c = true) ->
  float_head_ok (FNum ((if neg then [45] else []) ++ t)) = true.
Proof.
  intros Ht Hd. destruct t as [|c r]; [contradiction|].
  destruct neg; [reflexivity|]. cbn [List.app float_head_ok].
  now rewrite (Hd c r eq_refl).
Qed.

Lemma number_value_ok (neg : bool) (c : N) (ipt r1 : pystr) :
  is_digit c = true ->
  scan_value_ok (S (List.length r1))
    (match
        match fst (scan_frac r1), fst (scan_exp (snd (scan_frac r1))) with
        | [], [] =>
            Some (PInt (int_of_digits neg (c :: ipt)),
                  snd (scan_exp (snd (scan_frac r1))))
        | _, _ =>
            Some (PFloat (FNum ((if neg then [45] else [])
                                ++ (c :: ipt) ++ fst (scan_frac r1)
                                ++ fst (scan_exp (snd (scan_frac r1))))),
                  snd (scan_exp (snd (scan_frac r1))))
        end
      with
      | Some p => Ok p
      | None => Raise (JSONDecodeError (text "Expecting value"))
      end).
Proof.
  intros Hd.
  pose proof (scan_frac_length r1) as Hf.
  pose proof (scan_exp_length (snd (scan_frac r1))) as He.
  assert (Hh : float_head_ok
                 (FNum ((if neg then [45] else [])
                        ++ (c :: ipt) ++ fst (scan_frac r1)
                        ++ fst (scan_exp (snd (scan_frac r1))))) = true).
  { change ((c :: ipt) ++ fst (scan_frac r1)
            ++ fst (scan_exp (snd (scan_frac r1))))
      with (c :: (ipt ++ fst (scan_frac r1)
                  ++ fst (scan_exp (snd (scan_frac r1))))).
    apply float_head_sign; [discriminate|].
    intros c' r' E. now injection E as <- _. }
  destruct (fst (scan_frac r1)), (fst (scan_exp (snd (scan_frac r1))));
    cbn [scan_value_ok fst snd floats_ok]; (split; [try reflexivity; exact Hh|lia]).
Qed.

Lemma scan_value_ok_mono m len x :
  scan_value_ok m x -> (m <= len)%nat -> scan_value_ok len x.
Proof.
  destruct x as [[v r]|e]; cbn; [|auto]. intros [H1 H2] H. split; [auto|lia].
Qed.

Lemma scan_unsigned_value_ok neg s :
  scan_value_ok (List.length s)
    (match scan_unsigned neg s with
     | Some p => Ok p
     | None => Raise (JSONDecodeError (text "Expecting value"))
     end).
Proof.
  destruct s as [|c s]; [reflexivity|]. unfold scan_unsigned.
  destruct (N.eqb_spec c 48) as [->|].
  - cbv zeta.
    eapply scan_value_ok_mono;
      [apply (number_value_ok neg 48 [] s eq_refl)|cbn [List.length]; lia].
  - destruct (is_digit c) eqn:Hd; [|reflexivity]. cbv zeta. cbn [fst snd].
    pose proof (span_digits_length s) as Hl.
    eapply scan_value_ok_mono;
      [apply (number_value_ok neg c (fst (span_digits s))
                (snd (span_digits s)) Hd)|cbn [List.length]; lia].
Qed.

Lemma scan_number_value_ok s :
  scan_value_ok (List.length s)
    (match scan_number s with
     | Some p => Ok p
     | None => Raise (JSONDecodeError (text "Expecting value"))
     end).
Proof.
  destruct s as [|c s]; [reflexivity|]. unfold scan_number.
  destruct (c =? 45).
  - eapply scan_value_ok_mono;
      [apply (scan_unsigned_value_ok true s)|cbn [List.length]; lia].
  - apply (scan_unsigned_value_ok false (c :: s)).
Qed.

Lemma strip_prefix_length p s r :
  strip_prefix p s = Some r ->
  (List.length r + List.length p = List.length s)%nat.
Proof.
  intros H. apply strip_prefix_app in H. subst. rewrite length_app. lia.
Qed.

Lemma scan_atom_ok s :
  scan_value_ok (List.length s) (scan_atom s).
Proof.
  unfold scan_atom.
  repeat match goal with
         | |- context [strip_prefix ?p s] =>
             let E := fresh "E" in
             destruct (strip_prefix p s) eqn:E;
             [apply strip_prefix_length in E; cbn in E |- *;
              split; [reflexivity|lia]|]
         | |- context [scan_number s] =>
             let H := fresh "H" in
             pose proof (scan_number_value_ok s) as H;
             destruct (scan_number s) as [[? ?]|]; [exact H|clear H]
         end.
  reflexivity.
Qed.

Lemma scan_value_bind m len x (k : pyval * pystr -> res (pyval * pystr)) :
  scan_value_ok m x ->
  (forall v r, floats_ok v = true -> (List.length r < m)%nat ->
               scan_value_ok len (k (v, r))) ->
  scan_value_ok len (res_bind x k).
Proof.
  destruct x as [[v r]|e]; cbn [res_bind scan_value_ok fst snd]; [|auto].
  intros [H1 H2] Hk. now apply Hk.
Qed.

Lemma scan_string_bind m len x (k : pystr * pystr -> res (pyval * pystr)) :
  scan_string_ok m x ->
  (forall s r, (List.length r < m)%nat -> scan_value_ok len (k (s, r))) ->
  scan_value_ok len (res_bind x k).
Proof.
  destruct x as [[s r]|e]; cbn [res_bind scan_string_ok scan_value_ok fst snd];
    [|auto].
  intros H Hk. now apply Hk.
Qed.

Lemma forallb_rev {A} (f : A -> bool) l :
  forallb f l = true -> forallb f (List.rev l) = true.
Proof.
  rewrite !forallb_forall. intros H x Hx. apply H. now apply in_rev.
Qed.

Lemma dict_set_floats_ok k v acc :
  floats_ok v = true ->
  forallb (fun kv => floats_ok (snd kv)) acc = true ->
  forallb (fun kv => floats_ok (snd kv)) (dict_set k v acc) = true.
Proof.
  intros Hv. induction acc as [|[k' w] acc IH]; cbn [dict_set forallb snd].
  - now rewrite Hv.
  - intros H. apply andb_true_iff in H. destruct H as [Hw Ha].
    destruct (key_is_str k k'); cbn [forallb snd].
    + now rewrite Hv, Ha.
    + now rewrite Hw, (IH Ha).
Qed.

(** With fuel above twice the length of the text, the scanners never run out
    of it: they end with a value and less text, or with an error of the
    decoder. *)
Lemma scan_fuel fuel :
  (forall s, (2 * List.length s < fuel)%nat ->
             scan_value_ok (List.length s) (scan_once fuel s)) /\
  (forall s acc, (2 * List.length s + 1 < fuel)%nat ->
                 forallb floats_ok acc = true ->
                 scan_value_ok (List.length s) (parse_array fuel s acc)) /\
  (forall s acc, (2 * List.length s + 1 < fuel)%nat ->
                 forallb (fun kv => floats_ok (snd kv)) acc = true ->
                 scan_value_ok (List.length s) (parse_object fuel s acc)).
Proof.
  induction fuel as [|f (IH1 & IH2 & IH3)].
  { repeat split; intros; lia. }
  split; [|split].
  - intros [|c r] Hf; [reflexivity|]. cbn [List.length] in Hf |- *.
    pose proof (skip_ws_length r) as Hw.
    cbn [scan_once].
    destruct (c =? 34).
    { eapply scan_string_bind; [apply scanstring_ok|].
      intros s q Hq. cbn. split; [reflexivity|lia]. }
    destruct (c =? 123).
    { destruct (skip_ws r) as [|c1 r2] eqn:E.
      - eapply scan_value_ok_mono; [apply (IH3 [] []); cbn; [lia|reflexivity]|].
        cbn. lia.
      - cbn [List.length] in Hw. destruct (c1 =? 125).
        + cbn. split; [reflexivity|lia].
        + eapply scan_value_ok_mono;
            [apply (IH3 (c1 :: r2) []); cbn [List.length]; [lia|reflexivity]|].
          cbn [List.length]. lia. }
    destruct (c =? 91).
    { destruct (skip_ws r) as [|c1 r2] eqn:E.
      - eapply scan_value_ok_mono; [apply (IH2 [] []); cbn; [lia|reflexivity]|].
        cbn. lia.
      - cbn [List.length] in Hw. destruct (c1 =? 93).
        + cbn. split; [reflexivity|lia].
        + eapply scan_value_ok_mono;
            [apply (IH2 (c1 :: r2) []); cbn [List.length]; [lia|reflexivity]|].
          cbn [List.length]. lia. }
    apply (scan_atom_ok (c :: r)).
  - intros s acc Hf Hacc. cbn [parse_array].
    eapply scan_value_bind; [apply IH1; lia|].
    intros v r1 Hv Hr1. cbn [fst snd].
    pose proof (skip_ws_length r1) as Hw.
    destruct (skip_ws r1) as [|c r2]; [reflexivity|].
    cbn [List.length] in Hw.
    destruct (c =? 93).
    { cbn [scan_value_ok fst snd floats_ok]. split; [|lia].
      apply forallb_rev. cbn [forallb]. now rewrite Hv, Hacc. }
    destruct (c =? 44); [|reflexivity].
    pose proof (skip_ws_length r2) as Hw2.
    eapply scan_value_ok_mono.
    + apply IH2; [lia|]. cbn [forallb]. now rewrite Hv, Hacc.
    + lia.
  - intros [|c r] acc Hf Hacc; [reflexivity|].
    cbn [List.length] in Hf |- *. cbn [parse_object].
    destruct (c =? 34); [|reflexivity].
    eapply scan_string_bind; [apply scanstring_ok|].
    intros k rk Hrk. cbn [fst snd].
    pose proof (skip_ws_length rk) as Hw.
    destruct (skip_ws rk) as [|c1 r1]; [reflexivity|].
    cbn [List.length] in Hw.
    destruct (c1 =? 58); [|reflexivity].
    pose proof (skip_ws_length r1) as Hw1.
    eapply scan_value_bind; [apply IH1; lia|].
    intros v r2 Hv Hr2. cbn [fst snd].
    pose proof (skip_ws_length r2) as Hw2.
    pose proof (dict_set_floats_ok k v acc Hv Hacc) as Hacc'.
    destruct (skip_ws r2) as [|c2 r3]; [reflexivity|].
    cbn [List.length] in Hw2.
    destruct (c2 =? 125).
    { cbn [scan_value_ok fst snd floats_ok]. split; [assumption|lia]. }
    destruct (c2 =? 44); [|reflexivity].
    pose proof (skip_ws_length r3) as Hw3.
    eapply scan_value_ok_mono; [apply IH3; [lia|assumption]|lia].
Qed.

(** [json.loads] returns a value with float literals as the scanner writes
    them, or raises a [JSONDecodeError]: the fuel never runs out. *)
Lemma json_loads_ok s :
  match json_loads s with
  | Ok v => floats_ok v = true
  | Raise e => is_json_error e = true
  end.
Proof.
  unfold json_loads. destruct (startswith [65279] s); [reflexivity|].
  pose proof (skip_ws_length s) as Hw.
  pose proof (proj1 (scan_fuel (2 * List.length s + 2)) (skip_ws s)
                ltac:(lia)) as H.
  destruct (scan_once (2 * List.length s + 2) (skip_ws s)) as [[v r]|e];
    cbn in H; [|assumption].
  destruct (skip_ws r); [apply H|reflexivity].
Qed.

(** ** Replies and results *)

(** Decoding a reply fails exactly when the bytes are not UTF-8 or their
    text is not JSON; what it returns has float literals as the scanner
    writes them. *)
Lemma decode_reply_cases b :
  match decode_reply b with
  | Ok v =>
      floats_ok v = true /\
      exists s, bytes_decode b = Ok s /\ json_loads s = Ok v
  | Raise e =>
      (bytes_decode b = Raise e /\ exists m, e = UnicodeDecodeError m) \/
      (exists s m, bytes_decode b = Ok s /\ json_loads s = Raise e
                   /\ e = JSONDecodeError m)
  end.
Proof.
  unfold decode_reply.
  destruct (bytes_decode b) as [s|e] eqn:E; cbn [res_bind].
  - pose proof (json_loads_ok s) as H.
    destruct (json_loads s) as [v|e] eqn:L.
    + split; [assumption|]. now exists s.
    + right. destruct e; try discriminate. now eexists s, _.
  - left. split; [reflexivity|]. unfold bytes_decode in E.
    destruct (utf8_decode (map Byte.to_N b)); [discriminate|].
    injection E as <-. now eexists.
Qed.






Local Close Scope N_scope.





Section Exchange.

Variable W : world.

#[local] Arguments json_dumps : simpl never.
#[local] Arguments json_loads : simpl never.
#[local] Arguments encode_command : simpl never.
#[local] Arguments decode_reply : simpl never.
#[local] Arguments firstn : simpl never.
#[local] Arguments text : simpl never.
#[local] Arguments make_command : simpl never.
#[local] Arguments str_exn : simpl never.

(** An exchange whose write and read go through, on a stored handle that
    is connected or on the socket it opens, returns what decoding the bytes
    read returns, and wraps what decoding raises. *)
Lemma send_command_decodes ct p c o sid data bytes :
  (sock c = Some sid /\ existsb (Nat.eqb sid) (connected o) = true) \/
  (opens W c o /\ sid = sockets o) ->
  encode_command (make_command ct p) = Ok data ->
  socket_sendall W sid data = None ->
  socket_recv W sid data = inr bytes ->
  snd (send_command W ct p (c, o))
  = match decode_reply (firstn 1024 bytes) with
    | Ok v => Ok v
    | Raise e =>
        Raise (Exception_ (text "Error communicating with GIMP: "
                           ++ str_exn e))
    end.
Proof.
  intros [[Hs Hc]|[(Hs & Hc & Hk) ->]] He Hw Hr.
  - unfold send_command, the_sock, sock_sendall, sock_recv, set_sock, obj_log,
      os_log.
    unfold_monad. cbn. repeat (rewrite ?Hs, ?He, ?Hc, ?Hw, ?Hr; cbn).
    destruct (decode_reply (firstn 1024 bytes)); reflexivity.
  - unfold send_command, connect, the_sock, socket_socket, sock_connect,
      sock_sendall, sock_recv, set_sock, obj_log, os_log.
    unfold_monad. cbn.
    repeat (rewrite ?Hs, ?Hc, ?Hk, ?He, ?Hw, ?Hr, ?Nat.eqb_refl; cbn).
    destruct (decode_reply (firstn 1024 bytes)); reflexivity.
Qed.

End Exchange.

(** C9, as the code has it.  In an exchange whose write and read go through,
    on a stored handle that is connected or on the socket the exchange
    opens, reply decoding fails (and the exchange raises, wrapping the
    cause) exactly when the bytes read are not valid UTF-8 or their text is
    not valid JSON: bytes that are not UTF-8 make it raise with the
    [UnicodeDecodeError] as cause, a text that is not JSON with the
    [JSONDecodeError], and whatever it raises has one of the two as cause;
    every other reply is returned as the result of the exchange, whatever
    its shape. *)
Theorem reply_decoding W ct p c o sid data bytes :
  (sock c = Some sid /\ existsb (Nat.eqb sid) (connected o) = true) \/
  (opens W c o /\ sid = sockets o) ->
  encode_command (make_command ct p) = Ok data ->
  socket_sendall W sid data = None ->
  socket_recv W sid data = inr bytes ->
  ((exists e, snd (send_command W ct p (c, o)) = Raise e) <->
   (exists cause, bytes_decode (firstn 1024 bytes) = Raise cause) \/
   (exists s cause,
       bytes_decode (firstn 1024 bytes) = Ok s /\
       json_loads s = Raise cause)) /\
  (forall s v,
      bytes_decode (firstn 1024 bytes) = Ok s -> json_loads s = Ok v ->
      snd (send_command W ct p (c, o)) = Ok v) /\
  (forall cause,
      bytes_decode (firstn 1024 bytes) = Raise cause ->
      snd (send_command W ct p (c, o))
      = Raise (Exception_ (text "Error communicating with GIMP: "
                           ++ str_exn cause)) /\
      exists m, cause = UnicodeDecodeError m) /\
  (forall s cause,
      bytes_decode (firstn 1024 bytes) = Ok s ->
      json_loads s = Raise cause ->
      snd (send_command W ct p (c, o))
      = Raise (Exception_ (text "Error communicating with GIMP: "
                           ++ str_exn cause)) /\
      exists m, cause = JSONDecodeError m) /\
  (forall e,
      snd (send_command W ct p (c, o)) = Raise e ->
      exists cause,
        e = Exception_ (text "Error communicating with GIMP: "
                        ++ str_exn cause) /\
        ((bytes_decode (firstn 1024 bytes) = Raise cause /\
          exists m, cause = UnicodeDecodeError m) \/
         (exists s m,
             bytes_decode (firstn 1024 bytes) = Ok s /\
             json_loads s = Raise cause /\ cause = JSONDecodeError m))).
Proof.
  intros Hh He Hw Hr.
  rewrite (send_command_decodes W ct p c o sid data bytes Hh He Hw Hr).
  pose proof (decode_reply_cases (firstn 1024 bytes)) as H.
  unfold decode_reply in *.
  destruct (bytes_decode (firstn 1024 bytes)) as [s|cause] eqn:Hb;
    cbn [res_bind] in *.
  - destruct (json_loads s) as [v|cause] eqn:Hl.
    + split; [|split; [|split; [|split]]].
      * split.
        -- intros [e E]. discriminate.
        -- intros [[cause E]|(s' & cause & [= <-] & E)]; congruence.
      * intros s' v' [= <-] E. congruence.
      * intros cause E. discriminate.
      * intros s' cause [= <-] E. congruence.
      * intros e E. discriminate.
    + destruct H as [[E _]|(s0 & m & _ & _ & ->)]; [discriminate|].
      split; [|split; [|split; [|split]]].
      * split; [|now eexists]. intros _. right. now exists s, (JSONDecodeError m).
      * intros s' v' [= <-] E. congruence.
      * intros cause E. discriminate.
      * intros s' cause [= <-] E. rewrite Hl in E. injection E as <-.
        split; [reflexivity|now exists m].
      * intros e [= <-]. exists (JSONDecodeError m). split; [reflexivity|].
        right. now exists s, m.
  - destruct H as [[_ [m ->]]|(s0 & m & E & _)]; [|discriminate].
    split; [|split; [|split; [|split]]].
    + split; [|now eexists]. intros _. left. now eexists.
    + intros s' v' E. discriminate.
    + intros cause [= <-]. split; [reflexivity|now exists m].
    + intros s' cause E. discriminate.
    + intros e [= <-]. exists (UnicodeDecodeError m). split; [reflexivity|].
      left. split; [reflexivity|now exists m].
Qed.

Lemma reply_decoding_witness :
  let data :=
    ascii_bytes
      (quoted "{'type': 'call_api', 'params': {'api_path': 'Gimp.one'}}") in
  let c := {| host := text "localhost"; port := 9877; sock := Some 0 |} in
  let o := {| sockets := 1; connected := [0]; trace := [] |} in
  let p := PDict [(KStr (text "api_path"), PStr (text "Gimp.one"))] in
  let bytes := ascii_bytes (quoted "[1]") in
  let result := snd (send_command shapeless_world (text "call_api") p (c, o)) in
  ((exists e, result = Raise e) <->
   (exists cause, bytes_decode (firstn 1024 bytes) = Raise cause) \/
   (exists s cause,
       bytes_decode (firstn 1024 bytes) = Ok s /\
       json_loads s = Raise cause)) /\
  (forall s v,
      bytes_decode (firstn 1024 bytes) = Ok s -> json_loads s = Ok v ->
      result = Ok v) /\
  (forall cause,
      bytes_decode (firstn 1024 bytes) = Raise cause ->
      result
      = Raise (Exception_ (text "Error communicating with GIMP: "
                           ++ str_exn cause)) /\
      exists m, cause = UnicodeDecodeError m) /\
  (forall s cause,
      bytes_decode (firstn 1024 bytes) = Ok s ->
      json_loads s = Raise cause ->
      result
      = Raise (Exception_ (text "Error communicating with GIMP: "
                           ++ str_exn cause)) /\
      exists m, cause = JSONDecodeError m) /\
  (forall e,
      result = Raise e ->
      exists cause,
        e = Exception_ (text "Error communicating with GIMP: "
                        ++ str_exn cause) /\
        ((bytes_decode (firstn 1024 bytes) = Raise cause /\
          exists m, cause = UnicodeDecodeError m) \/
         (exists s m,
             bytes_decode (firstn 1024 bytes) = Ok s /\
             json_loads s = Raise cause /\ cause = JSONDecodeError m))).
Proof.
  intros data c o p bytes result.
  apply (reply_decoding shapeless_world (text "call_api") p c o 0 data bytes).
  - left. split; reflexivity.
  - vm_compute; reflexivity.
  - vm_compute; reflexivity.
  - vm_compute; reflexivity.
Defined.

(** C9 as stated fails: a reply that is valid JSON but no mapping, or a
    mapping without status, is decoded and returned by the exchange; it is
    [call_api] that fails on the lookup of status and reports it. *)
Lemma reply_decoding_counterexample :
  let c := {| host := text "localhost"; port := 9877; sock := None |} in
  decode_reply (ascii_bytes (quoted "[1]")) = Ok (PList [PInt 1]) /\
  snd (send_command shapeless_world (text "call_api")
         (PDict [(KStr (text "api_path"), PStr (text "Gimp.two"))])
         (c, os initial_state))
  = Ok (PDict [(KStr (text "result"), PInt 1)]) /\
  subscript (PDict [(KStr (text "result"), PInt 1)]) (text "status")
  = Raise (KeyError (text "status")) /\
  snd (call_api shapeless_world (text "Gimp.two") (PList []) (PDict [])
         initial_state)
  = Ok (text "Error: 'status'").
Proof. vm_compute. repeat split; reflexivity. Qed.
(* ================================================================= *)
(** * Further properties of the program *)

Section LiveExchange.

Variable W : world.

#[local] Arguments json_dumps : simpl never.
#[local] Arguments json_loads : simpl never.
#[local] Arguments encode_command : simpl never.
#[local] Arguments decode_reply : simpl never.
#[local] Arguments subscript : simpl never.
#[local] Arguments firstn : simpl never.
#[local] Arguments text : simpl never.
#[local] Arguments make_command : simpl never.
#[local] Arguments str_exn : simpl never.
#[local] Arguments send_command : simpl never.
#[local] Arguments connect : simpl never.

(** One exchange that starts without a handle on a live world. *)
Lemma send_command_live ct p c o data bytes :
  live W c o data bytes ->
  encode_command (make_command ct p) = Ok data ->
  send_command W ct p (c, o)
  = (({| host := host c; port := port c; sock := None |},
      {| sockets := S (sockets o);
         connected := sockets o :: connected o;
         trace := trace o ++ EvSendCommand ct p
                             :: exchange_events (sockets o) data |}),
     wrap_error (decode_reply (firstn 1024 bytes))).
Proof.
  intros (Hs & Hc & Hk & Hw & Hr) He.
  unfold send_command, connect, the_sock, socket_socket, sock_connect,
    sock_sendall, sock_recv, set_sock, obj_log, os_log, wrap_error.
  unfold_monad. cbn.
  repeat (rewrite ?Hs, ?Hc, ?Hk, ?He, ?Hw, ?Hr, ?Nat.eqb_refl; cbn).
  destruct (decode_reply (firstn 1024 bytes)); cbn;
    rewrite <- !app_assoc; reflexivity.
Qed.

(** One exchange on a stored handle that is connected. *)
Lemma send_command_connected ct p c o sid data bytes :
  sock c = Some sid ->
  existsb (Nat.eqb sid) (connected o) = true ->
  encode_command (make_command ct p) = Ok data ->
  socket_sendall W sid data = None ->
  socket_recv W sid data = inr bytes ->
  send_command W ct p (c, o)
  = (({| host := host c; port := port c; sock := None |},
      {| sockets := sockets o; connected := connected o;
         trace := trace o ++ [EvSendCommand ct p; EvSendall sid data;
                              EvRecv sid] |}),
     wrap_error (decode_reply (firstn 1024 bytes))).
Proof.
  intros Hs Hc He Hw Hr.
  unfold send_command, connect, the_sock, socket_socket, sock_connect,
    sock_sendall, sock_recv, set_sock, obj_log, os_log, wrap_error.
  unfold_monad. cbn.
  repeat (rewrite ?Hs, ?Hc, ?He, ?Hw, ?Hr; cbn).
  destruct (decode_reply (firstn 1024 bytes)); cbn;
    rewrite <- !app_assoc; reflexivity.
Qed.

Lemma wire_events_app t u :
  wire_events (t ++ u) = wire_events t ++ wire_events u.
Proof. apply filter_app. Qed.

(** A connect that goes through. *)
Lemma connect_live c o :
  sock c = None ->
  socket_create W (sockets o) = None ->
  socket_connect W (sockets o) (host c) (port c) = None ->
  connect W (c, o)
  = (({| host := host c; port := port c; sock := Some (sockets o) |},
      {| sockets := S (sockets o);
         connected := sockets o :: connected o;
         trace := trace o ++ [EvSocket (sockets o);
                              EvConnect (sockets o) true] |}),
     Ok tt).
Proof.
  intros Hs Hc Hk.
  unfold connect, socket_socket, sock_connect, set_sock, obj_log, os_log.
  unfold_monad. cbn. repeat (rewrite ?Hs, ?Hc, ?Hk; cbn).
  rewrite <- !app_assoc. reflexivity.
Qed.

(** One call of [call_api] that starts without a handle on a live world:
    the string returned, the connection object left, and the events. *)
Lemma call_api_live p a k st data bytes :
  live W (connection_of st) (os st) data bytes ->
  encode_command (api_command p a k) = Ok data ->
  let st' := fst (call_api W p a k st) in
  snd (call_api W p a k st)
  = Ok (call_result (wrap_error (decode_reply (firstn 1024 bytes)))) /\
  gimp_connection st'
  = Some {| host := host (connection_of st); port := port (connection_of st);
            sock := None |} /\
  sockets (os st') = S (sockets (os st)) /\
  wire_events (trace (os st'))
  = wire_events (trace (os st)) ++ exchange_events (sockets (os st)) data /\
  count_send_command st' = S (count_send_command st) /\
  count_call_api st' = S (count_call_api st).
Proof.
  intros (Hs & Hc & Hk & Hw & Hr) He.
  unfold connection_of in *.
  unfold call_api, get_gimp_connection, on_global, state_log.
  unfold_monad. cbn.
  destruct (gimp_connection st) as [c|] eqn:Hg; cbn.
  - rewrite (send_command_live _ _ c (os_log (EvCallApi p a k) (os st))
               data bytes); [|repeat split; assumption|exact He].
    cbn. unfold call_result, reply_text, count_send_command, count_call_api,
           exchange_events.
    destruct (decode_reply (firstn 1024 bytes)) as [reply|e]; cbn.
    + repeat (break_match; cbn).
      all: rewrite <- ?app_assoc, ?wire_events_app, ?filter_app, ?length_app;
        cbn; rewrite ?Nat.add_1_r, ?app_nil_r.
      all: repeat split; try reflexivity; try congruence.
    + rewrite <- ?app_assoc, ?wire_events_app, ?filter_app, ?length_app;
        cbn; rewrite ?Nat.add_1_r, ?app_nil_r.
      repeat split; reflexivity.
  - rewrite (connect_live GimpConnection_init
               (os_log (EvCallApi p a k) (os st)) eq_refl Hc Hk).
    cbn.
    rewrite (send_command_connected _ _ _ _ (sockets (os st)) data bytes);
      [|reflexivity|cbn; rewrite Nat.eqb_refl; reflexivity|exact He
       |exact Hw|exact Hr].
    cbn. unfold call_result, reply_text, count_send_command, count_call_api,
           exchange_events.
    destruct (decode_reply (firstn 1024 bytes)) as [reply|e]; cbn.
    + repeat (break_match; cbn).
      all: rewrite <- ?app_assoc, ?wire_events_app, ?filter_app, ?length_app;
        cbn; rewrite ?Nat.add_1_r, ?app_nil_r.
      all: repeat split; try reflexivity; try congruence.
    + rewrite <- ?app_assoc, ?wire_events_app, ?filter_app, ?length_app;
        cbn; rewrite ?Nat.add_1_r, ?app_nil_r.
      repeat split; reflexivity.
Qed.

(** The result of an exchange that gets a connected socket: what the
    write, the read and the decoding give, inside the [except] clause. *)
Lemma send_command_opened ct p c o data :
  opens W c o ->
  encode_command (make_command ct p) = Ok data ->
  snd (send_command W ct p (c, o))
  = wrap_error (res_bind (socket_io W (sockets o) data) decode_reply) /\
  fst (fst (send_command W ct p (c, o)))
  = {| host := host c; port := port c; sock := None |} /\
  sockets (snd (fst (send_command W ct p (c, o)))) = S (sockets o).
Proof.
  intros (Hs & Hc & Hk) He.
  unfold send_command, connect, the_sock, socket_socket, sock_connect,
    sock_sendall, sock_recv, set_sock, obj_log, os_log, wrap_error, socket_io.
  unfold_monad. cbn.
  repeat (rewrite ?Hs, ?Hc, ?Hk, ?He, ?Nat.eqb_refl; cbn).
  destruct (socket_sendall W (sockets o) data); cbn; [auto|].
  destruct (socket_recv W (sockets o) data) as [m|bs]; cbn; [auto|].
  destruct (decode_reply (firstn 1024 bs)); cbn; auto.
Qed.

Lemma send_command_on_handle ct p c o sid data :
  sock c = Some sid ->
  existsb (Nat.eqb sid) (connected o) = true ->
  encode_command (make_command ct p) = Ok data ->
  snd (send_command W ct p (c, o))
  = wrap_error (res_bind (socket_io W sid data) decode_reply) /\
  fst (fst (send_command W ct p (c, o)))
  = {| host := host c; port := port c; sock := None |} /\
  sockets (snd (fst (send_command W ct p (c, o)))) = sockets o.
Proof.
  intros Hs Hc He.
  unfold send_command, connect, the_sock, socket_socket, sock_connect,
    sock_sendall, sock_recv, set_sock, obj_log, os_log, wrap_error, socket_io.
  unfold_monad. cbn.
  repeat (rewrite ?Hs, ?Hc, ?He; cbn).
  destruct (socket_sendall W sid data); cbn; [auto|].
  repeat (rewrite ?Hs; cbn).
  destruct (socket_recv W sid data) as [m|bs]; cbn; [auto|].
  destruct (decode_reply (firstn 1024 bs)); cbn; auto.
Qed.

(** [call_api] on an existing connection object is one [send_command] on
    it. *)
Lemma call_api_with_object p a k st c :
  gimp_connection st = Some c ->
  call_api W p a k st
  = ({| gimp_connection :=
          Some (fst (fst (send_command W (text "call_api") (api_params p a k)
                            (c, os_log (EvCallApi p a k) (os st)))));
        os := snd (fst (send_command W (text "call_api") (api_params p a k)
                          (c, os_log (EvCallApi p a k) (os st)))) |},
     Ok (call_result
           (snd (send_command W (text "call_api") (api_params p a k)
                   (c, os_log (EvCallApi p a k) (os st)))))).
Proof.
  intros Hg.
  unfold call_api, get_gimp_connection, on_global, state_log, api_params.
  unfold_monad. cbn. rewrite Hg. cbn.
  unfold call_result, reply_text.
  match goal with |- context [send_command W ?ct ?pp ?s0] =>
    destruct (send_command W ct pp s0) as [[c1 o1] [reply|e]]
  end; cbn; [|reflexivity].
  repeat (break_match; cbn); reflexivity.
Qed.

(** The first call of [call_api] creates the object and connects it; when
    that fails the call reports it, otherwise it is one [send_command]. *)
Lemma call_api_first p a k st :
  gimp_connection st = None ->
  call_api W p a k st
  = match connect W (GimpConnection_init, os_log (EvCallApi p a k) (os st))
    with
    | (s, Raise e) =>
        ({| gimp_connection := Some (fst s); os := snd s |},
         Ok (text "Error: " ++ str_exn e))
    | (s, Ok _) =>
        ({| gimp_connection :=
              Some (fst (fst (send_command W (text "call_api")
                                (api_params p a k) s)));
            os := snd (fst (send_command W (text "call_api")
                              (api_params p a k) s)) |},
         Ok (call_result
               (snd (send_command W (text "call_api") (api_params p a k) s))))
    end.
Proof.
  intros Hg.
  unfold call_api, get_gimp_connection, on_global, state_log, api_params.
  unfold_monad. cbn. rewrite Hg. cbn.
  destruct (connect W (GimpConnection_init, os_log (EvCallApi p a k) (os st)))
    as [[c0 o0] [[]|e0]]; cbn; [|reflexivity].
  unfold call_result, reply_text.
  match goal with |- context [send_command W ?ct ?pp ?s0] =>
    destruct (send_command W ct pp s0) as [[c1 o1] [reply|e]]
  end; cbn; [|reflexivity].
  repeat (break_match; cbn); reflexivity.
Qed.

(** The string [call_api] returns when it gets a connected socket. *)
Lemma call_api_opened p a k st data :
  opens W (connection_of st) (os st) ->
  encode_command (api_command p a k) = Ok data ->
  snd (call_api W p a k st)
  = Ok (call_result
          (wrap_error
             (res_bind (socket_io W (sockets (os st)) data) decode_reply))) /\
  gimp_connection (fst (call_api W p a k st))
  = Some {| host := host (connection_of st); port := port (connection_of st);
            sock := None |}.
Proof.
  intros (Hs & Hc & Hk) He. unfold connection_of in *.
  destruct (gimp_connection st) as [c|] eqn:Hg.
  - rewrite (call_api_with_object _ _ _ _ _ Hg). cbn [fst snd gimp_connection].
    destruct (send_command_opened (text "call_api") (api_params p a k) c
                (os_log (EvCallApi p a k) (os st)) data) as (H1 & H2 & _);
      [repeat split; assumption|exact He|].
    rewrite H1, H2. auto.
  - rewrite (call_api_first _ _ _ _ Hg).
    rewrite (connect_live GimpConnection_init
               (os_log (EvCallApi p a k) (os st)) eq_refl Hc Hk).
    cbn [fst snd gimp_connection].
    match goal with |- context [send_command W ?ct ?pp (?c0, ?o0)] =>
      destruct (send_command_on_handle ct pp c0 o0 (sockets (os st)) data)
        as (H1 & H2 & _)
    end; [reflexivity|cbn; rewrite Nat.eqb_refl; reflexivity|exact He|].
    rewrite H1, H2. auto.
Qed.

End LiveExchange.
Section Replies.

#[local] Arguments json_dumps : simpl never.
#[local] Arguments json_loads : simpl never.
#[local] Arguments decode_reply : simpl never.
#[local] Arguments encode_command : simpl never.
#[local] Arguments subscript : simpl never.
#[local] Arguments firstn : simpl never.
#[local] Arguments text : simpl never.
#[local] Arguments str_exn : simpl never.
#[local] Arguments eq_str : simpl never.

Lemma eq_str_refl s : eq_str (PStr s) s = true.
Proof. apply pystr_eqb_refl. Qed.

(** X1. A call that finds no handle on a live world and reads a reply whose
    status is the string success returns the JSON text of the reply's
    result.  The call opened one socket, connected it, wrote the request
    once and read once, in that order, and left no handle stored. *)
Theorem call_api_success_reply W p a k st data bytes reply r s :
  live W (connection_of st) (os st) data bytes ->
  encode_command (api_command p a k) = Ok data ->
  decode_reply (firstn 1024 bytes) = Ok reply ->
  subscript reply (text "status") = Ok (PStr (text "success")) ->
  subscript reply (text "result") = Ok r ->
  json_dumps r = Ok s ->
  snd (call_api W p a k st) = Ok s /\
  wire_events (trace (os (fst (call_api W p a k st))))
  = wire_events (trace (os st))
    ++ [EvSocket (sockets (os st)); EvConnect (sockets (os st)) true;
        EvSendall (sockets (os st)) data; EvRecv (sockets (os st))] /\
  option_map sock (gimp_connection (fst (call_api W p a k st))) = Some None.
Proof.
  intros Hl He Hd Hs Hr Hj.
  destruct (call_api_live W p a k st data bytes Hl He)
    as (H1 & H2 & _ & H4 & _).
  rewrite H1, H2, H4, Hd. unfold call_result, reply_text, wrap_error. cbn.
  rewrite Hs. cbn. rewrite eq_str_refl, Hr. cbn. rewrite Hj. auto.
Qed.

Lemma call_api_success_reply_witness :
  let st := initial_state in
  let data := request_bytes get_width (PList [PInt 1]) (PDict []) in
  snd (call_api image_world get_width (PList [PInt 1]) (PDict []) st)
  = Ok (text "800") /\
  wire_events
    (trace (os (fst (call_api image_world get_width (PList [PInt 1])
                       (PDict []) st))))
  = wire_events (trace (os st))
    ++ [EvSocket (sockets (os st)); EvConnect (sockets (os st)) true;
        EvSendall (sockets (os st)) data; EvRecv (sockets (os st))] /\
  option_map sock
    (gimp_connection
       (fst (call_api image_world get_width (PList [PInt 1]) (PDict []) st)))
  = Some None.
Proof.
  refine (call_api_success_reply image_world get_width (PList [PInt 1])
            (PDict []) initial_state
            (request_bytes get_width (PList [PInt 1]) (PDict []))
            (ascii_bytes (quoted "{'status':'success','result':800}"))
            (PDict [(KStr (text "status"), PStr (text "success"));
                    (KStr (text "result"), PInt 800)])
            (PInt 800) (text "800") _ _ _ _ _ _).
  - repeat split; vm_compute; reflexivity.
  - vm_compute; reflexivity.
  - vm_compute; reflexivity.
  - vm_compute; reflexivity.
  - vm_compute; reflexivity.
  - vm_compute; reflexivity.
Defined.

(** X2. When the reply's status is anything but the string success,
    [call_api] returns the error prefix followed by the JSON text of the
    reply's error field, whatever else the reply holds. *)
Theorem call_api_error_reply W p a k st data bytes reply status e d :
  live W (connection_of st) (os st) data bytes ->
  encode_command (api_command p a k) = Ok data ->
  decode_reply (firstn 1024 bytes) = Ok reply ->
  subscript reply (text "status") = Ok status ->
  eq_str status (text "success") = false ->
  subscript reply (text "error") = Ok e ->
  json_dumps e = Ok d ->
  snd (call_api W p a k st) = Ok (text "Error: " ++ d).
Proof.
  intros Hl He Hd Hs Hne Hr Hj.
  destruct (call_api_live W p a k st data bytes Hl He) as (H1 & _).
  rewrite H1, Hd. unfold call_result, reply_text, wrap_error. cbn.
  rewrite Hs. cbn. rewrite Hne, Hr. cbn. rewrite Hj. reflexivity.
Qed.

Lemma call_api_error_reply_witness :
  snd (call_api keyless_world (text "Gimp.five") (PList []) (PDict [])
         initial_state)
  = Ok (quoted "Error: {'code': 7}").
Proof.
  refine (call_api_error_reply keyless_world (text "Gimp.five") (PList [])
            (PDict []) initial_state
            (request_bytes (text "Gimp.five") (PList []) (PDict []))
            (ascii_bytes
               (quoted "{'status': 'failed', 'error': {'code': 7}}"))
            (PDict [(KStr (text "status"), PStr (text "failed"));
                    (KStr (text "error"),
                     PDict [(KStr (text "code"), PInt 7)])])
            (PStr (text "failed"))
            (PDict [(KStr (text "code"), PInt 7)])
            (quoted "{'code': 7}") _ _ _ _ _ _ _).
  - repeat split; vm_compute; reflexivity.
  - vm_compute; reflexivity.
  - vm_compute; reflexivity.
  - vm_compute; reflexivity.
  - vm_compute; reflexivity.
  - vm_compute; reflexivity.
  - vm_compute; reflexivity.
Defined.

(** X3. A reply that decodes but lacks the key [call_api] reads next is
    reported as an error string that names the key: status first, then
    result for a success reply and error for any other; a reply that is a
    list is reported with the text of the [TypeError]. *)
Theorem call_api_malformed_reply W p a k st data bytes reply :
  live W (connection_of st) (os st) data bytes ->
  encode_command (api_command p a k) = Ok data ->
  decode_reply (firstn 1024 bytes) = Ok reply ->
  (forall d, reply = PDict d -> dict_get (text "status") d = None ->
             snd (call_api W p a k st) = Ok (text "Error: 'status'")) /\
  (forall d, reply = PDict d ->
             dict_get (text "status") d = Some (PStr (text "success")) ->
             dict_get (text "result") d = None ->
             snd (call_api W p a k st) = Ok (text "Error: 'result'")) /\
  (forall d status, reply = PDict d ->
             dict_get (text "status") d = Some status ->
             eq_str status (text "success") = false ->
             dict_get (text "error") d = None ->
             snd (call_api W p a k st) = Ok (text "Error: 'error'")) /\
  (forall l, reply = PList l ->
             snd (call_api W p a k st)
             = Ok (text "Error: list indices must be integers or slices, not str")).
Proof.
  intros Hl He Hd.
  destruct (call_api_live W p a k st data bytes Hl He) as (H1 & _).
  rewrite H1, Hd. unfold call_result, reply_text, wrap_error.
  repeat split.
  - intros d -> Hs. unfold subscript. cbn. rewrite Hs. reflexivity.
  - intros d -> Hs Hr. unfold subscript. cbn. rewrite Hs. cbn.
    rewrite eq_str_refl, Hr. reflexivity.
  - intros d status -> Hs Hne Hr. unfold subscript. cbn. rewrite Hs. cbn.
    rewrite Hne, Hr. reflexivity.
  - intros l ->. reflexivity.
Qed.

Lemma call_api_malformed_reply_witness :
  let W := keyless_world in
  let call (p : string) :=
    snd (call_api W (text p) (PList []) (PDict []) initial_state) in
  call "Gimp.one"%string
  = Ok (text "Error: list indices must be integers or slices, not str") /\
  call "Gimp.two"%string = Ok (text "Error: 'status'") /\
  call "Gimp.three"%string = Ok (text "Error: 'result'") /\
  call "Gimp.four"%string = Ok (text "Error: 'error'").
Proof.
  cbv zeta. split; [|split; [|split]].
  - refine (proj2 (proj2 (proj2
      (call_api_malformed_reply keyless_world (text "Gimp.one") (PList [])
         (PDict []) initial_state
         (request_bytes (text "Gimp.one") (PList []) (PDict []))
         (ascii_bytes (quoted "[1]"))
         (PList [PInt 1]) _ _ _))) [PInt 1] eq_refl);
      try (repeat split; vm_compute; reflexivity).
  - refine (proj1
      (call_api_malformed_reply keyless_world (text "Gimp.two") (PList [])
         (PDict []) initial_state
         (request_bytes (text "Gimp.two") (PList []) (PDict []))
         (ascii_bytes (quoted "{'result': 1}"))
         (PDict [(KStr (text "result"), PInt 1)]) _ _ _) _ eq_refl _);
      try (repeat split; vm_compute; reflexivity).
  - refine (proj1 (proj2
      (call_api_malformed_reply keyless_world (text "Gimp.three") (PList [])
         (PDict []) initial_state
         (request_bytes (text "Gimp.three") (PList []) (PDict []))
         (ascii_bytes (quoted "{'status': 'success'}"))
         (PDict [(KStr (text "status"), PStr (text "success"))]) _ _ _))
      _ eq_refl _ _);
      try (repeat split; vm_compute; reflexivity).
  - refine (proj1 (proj2 (proj2
      (call_api_malformed_reply keyless_world (text "Gimp.four") (PList [])
         (PDict []) initial_state
         (request_bytes (text "Gimp.four") (PList []) (PDict []))
         (ascii_bytes (quoted "{'status': 'failed', 'result': 1}"))
         (PDict [(KStr (text "status"), PStr (text "failed"));
                 (KStr (text "result"), PInt 1)]) _ _ _)))
      _ (PStr (text "failed")) eq_refl _ _ _);
      try (repeat split; vm_compute; reflexivity).
Defined.

End Replies.
Section Connection.

Variable W : world.

#[local] Arguments json_dumps : simpl never.
#[local] Arguments json_loads : simpl never.
#[local] Arguments decode_reply : simpl never.
#[local] Arguments encode_command : simpl never.
#[local] Arguments subscript : simpl never.
#[local] Arguments firstn : simpl never.
#[local] Arguments text : simpl never.
#[local] Arguments str_exn : simpl never.
#[local] Arguments make_command : simpl never.

(** [connect] and [send_command] never change the address of the object. *)
Lemma connect_address c o :
  host (fst (fst (connect W (c, o)))) = host c /\
  port (fst (fst (connect W (c, o)))) = port c.
Proof.
  unfold connect, socket_socket, sock_connect, set_sock, obj_log, os_log.
  unfold_monad. cbn.
  repeat (break_match; cbn); auto.
Qed.

Lemma send_command_address ct p c o :
  host (fst (fst (send_command W ct p (c, o)))) = host c /\
  port (fst (fst (send_command W ct p (c, o)))) = port c.
Proof.
  unfold send_command, connect, the_sock, socket_socket, sock_connect,
    sock_sendall, sock_recv, set_sock, obj_log, os_log.
  unfold_monad. cbn.
  repeat (break_match; cbn in *; subst); auto.
Qed.

(** X9. One call of [send_command] makes one attempt: it creates at most
    one socket, attempts at most one connect, writes at most once and reads
    at most once; it reads only after a write that went through; and when
    it returns a reply it has written once and read once. *)
Theorem send_command_single_attempt ct p c o :
  exists t,
    trace (snd (fst (send_command W ct p (c, o))))
    = trace o ++ EvSendCommand ct p :: t /\
    List.length (filter is_socket t) <= 1 /\
    List.length (filter is_connect t) <= 1 /\
    List.length (filter is_sendall t) <= 1 /\
    List.length (filter is_recv t) <= List.length (filter is_sendall t) /\
    (forall v, snd (send_command W ct p (c, o)) = Ok v ->
               List.length (filter is_sendall t) = 1 /\
               List.length (filter is_recv t) = 1) /\
    (filter is_recv t <> [] ->
     exists sid data, In (EvSendall sid data) t /\
                      socket_sendall W sid data = None).
Proof.
  unfold send_command, connect, the_sock, socket_socket, sock_connect,
    sock_sendall, sock_recv, set_sock, obj_log, os_log.
  unfold_monad. cbn.
  repeat (break_match; cbn in *; subst).
  all: eexists; split; [rewrite <- ?app_assoc; cbn; reflexivity|].
  all: cbn; repeat split; try lia; try discriminate; try congruence.
  all: intros _; do 2 eexists; split; [cbn; eauto 6|]; try eassumption.
Qed.


(** A connect that is refused: the socket stays in the handle. *)
Lemma connect_refused c o msg :
  sock c = None ->
  socket_create W (sockets o) = None ->
  socket_connect W (sockets o) (host c) (port c) = Some msg ->
  connect W (c, o)
  = (({| host := host c; port := port c; sock := Some (sockets o) |},
      {| sockets := S (sockets o); connected := connected o;
         trace := trace o ++ [EvSocket (sockets o);
                              EvConnect (sockets o) false] |}),
     Raise (ConnectionError connect_error)).
Proof.
  intros Hs Hc Hk.
  unfold connect, socket_socket, sock_connect, set_sock, obj_log, os_log.
  unfold_monad. cbn. repeat (rewrite ?Hs, ?Hc, ?Hk; cbn).
  rewrite <- !app_assoc. reflexivity.
Qed.

(** An exchange on a stored socket that is not connected. *)
Lemma send_command_stale ct p c o sid data :
  sock c = Some sid ->
  existsb (Nat.eqb sid) (connected o) = false ->
  encode_command (make_command ct p) = Ok data ->
  send_command W ct p (c, o)
  = (({| host := host c; port := port c; sock := None |},
      {| sockets := sockets o; connected := connected o;
         trace := trace o ++ [EvSendCommand ct p; EvSendall sid data] |}),
     Raise (Exception_ (text "Error communicating with GIMP: "
                        ++ not_connected W))).
Proof.
  intros Hs Hc He.
  unfold send_command, connect, the_sock, socket_socket, sock_connect,
    sock_sendall, sock_recv, set_sock, obj_log, os_log.
  unfold_monad. cbn. repeat (rewrite ?Hs, ?Hc, ?He; cbn).
  rewrite <- !app_assoc. reflexivity.
Qed.

(** X4. After any call of [call_api] the global connection object exists:
    it is the object that was there before the call, or a new one for
    localhost and port 9877, and the call did not change its address. *)
Theorem call_api_keeps_connection_object p a k st :
  exists c',
    gimp_connection (fst (call_api W p a k st)) = Some c' /\
    host c' = host (connection_of st) /\
    port c' = port (connection_of st) /\
    (gimp_connection st = None ->
     host c' = text "localhost" /\ port c' = 9877%Z).
Proof.
  unfold connection_of.
  destruct (gimp_connection st) as [c|] eqn:Hg.
  - rewrite (call_api_with_object W _ _ _ _ _ Hg). cbn [fst gimp_connection].
    eexists; split; [reflexivity|].
    destruct (send_command_address (text "call_api") (api_params p a k) c
                (os_log (EvCallApi p a k) (os st))) as [H1 H2].
    repeat split; try assumption; discriminate.
  - rewrite (call_api_first W _ _ _ _ Hg).
    destruct (connect_address GimpConnection_init
                (os_log (EvCallApi p a k) (os st))) as [H1 H2].
    destruct (connect W (GimpConnection_init,
                         os_log (EvCallApi p a k) (os st)))
      as [[c0 o0] [[]|e0]]; cbn [fst snd gimp_connection] in *.
    + eexists; split; [reflexivity|].
      destruct (send_command_address (text "call_api") (api_params p a k) c0
                  o0) as [H3 H4].
      rewrite H3, H4, H1, H2. auto.
    + eexists; split; [reflexivity|]. rewrite H1, H2. auto.
Qed.

(** X5. When the first call of [call_api] cannot connect, it reports the
    connect error and leaves the connection object with the socket that did
    not connect.  The next call then attempts no connect: it writes to that
    socket, reports the error of the write as a communication error, and
    only then is the handle dropped. *)
Theorem call_api_after_failed_connect p1 a1 k1 p2 a2 k2 st msg data :
  gimp_connection st = None ->
  socket_create W (sockets (os st)) = None ->
  socket_connect W (sockets (os st)) (text "localhost") 9877 = Some msg ->
  existsb (Nat.eqb (sockets (os st))) (connected (os st)) = false ->
  encode_command (api_command p2 a2 k2) = Ok data ->
  let r1 := call_api W p1 a1 k1 st in
  let r2 := call_api W p2 a2 k2 (fst r1) in
  snd r1 = Ok (text "Error: " ++ connect_error) /\
  option_map sock (gimp_connection (fst r1)) = Some (Some (sockets (os st))) /\
  snd r2
  = Ok (text "Error: Error communicating with GIMP: " ++ not_connected W) /\
  count_connect (os (fst r2)) = S (count_connect (os st)) /\
  wire_events (trace (os (fst r2)))
  = wire_events (trace (os st))
    ++ [EvSocket (sockets (os st)); EvConnect (sockets (os st)) false;
        EvSendall (sockets (os st)) data] /\
  option_map sock (gimp_connection (fst r2)) = Some None.
Proof.
  intros Hg Hc Hk Hn He. cbv zeta.
  rewrite (call_api_first W _ _ _ _ Hg).
  rewrite (connect_refused GimpConnection_init
             (os_log (EvCallApi p1 a1 k1) (os st)) msg eq_refl Hc Hk).
  cbn [fst snd gimp_connection os].
  match goal with |- context [call_api W p2 a2 k2 ?s] =>
    rewrite (call_api_with_object W p2 a2 k2 s _ eq_refl)
  end.
  cbn [fst snd gimp_connection os].
  rewrite (send_command_stale (text "call_api") (api_params p2 a2 k2) _ _
             (sockets (os st)) data); [|reflexivity|exact Hn|exact He].
  cbn [fst snd gimp_connection os option_map sock trace os_log sockets].
  unfold count_connect, wire_events. cbn [trace os_log].
  rewrite <- !app_assoc, !filter_app, !length_app. cbn.
  repeat split; try reflexivity; lia.
Qed.

(** X6. When the bytes read do not decode, by UTF-8 or as JSON,
    [call_api] returns the text of the decoding error behind the two error
    prefixes, and the handle is dropped. *)
Theorem call_api_undecodable_reply p a k st data bytes e :
  live W (connection_of st) (os st) data bytes ->
  encode_command (api_command p a k) = Ok data ->
  decode_reply (firstn 1024 bytes) = Raise e ->
  snd (call_api W p a k st)
  = Ok (text "Error: Error communicating with GIMP: " ++ str_exn e) /\
  option_map sock (gimp_connection (fst (call_api W p a k st))) = Some None.
Proof.
  intros Hl He Hd.
  destruct (call_api_live W p a k st data bytes Hl He) as (H1 & H2 & _).
  rewrite H1, H2, Hd. cbn. auto.
Qed.

(** X7. When the peer closes without an answer, so that the read returns
    no bytes, [call_api] returns the error of decoding the empty document
    behind the two error prefixes. *)
Theorem call_api_no_answer p a k st data :
  live W (connection_of st) (os st) data [] ->
  encode_command (api_command p a k) = Ok data ->
  exists m,
    json_loads [] = Raise (JSONDecodeError m) /\
    snd (call_api W p a k st)
    = Ok (text "Error: Error communicating with GIMP: " ++ m).
Proof.
  intros Hl He.
  destruct (call_api_live W p a k st data [] Hl He) as (H1 & _).
  rewrite H1. exists (text "Expecting value"). split; reflexivity.
Qed.

(** X8. When the write or the read on the connected socket fails,
    [call_api] returns the text of the socket error behind the two error
    prefixes, and the handle is dropped. *)
Theorem call_api_socket_failure p a k st data msg :
  opens W (connection_of st) (os st) ->
  encode_command (api_command p a k) = Ok data ->
  socket_sendall W (sockets (os st)) data = Some msg \/
  (socket_sendall W (sockets (os st)) data = None /\
   socket_recv W (sockets (os st)) data = inl msg) ->
  snd (call_api W p a k st)
  = Ok (text "Error: Error communicating with GIMP: " ++ msg) /\
  option_map sock (gimp_connection (fst (call_api W p a k st))) = Some None.
Proof.
  intros Ho He Hf.
  destruct (call_api_opened W p a k st data Ho He) as (H1 & H2).
  rewrite H1, H2. unfold socket_io.
  destruct Hf as [Hw|[Hw Hr]]; rewrite Hw; [|rewrite Hr]; cbn; auto.
Qed.


(** X10. [connect] with a handle stored does nothing.  When it returns, a
    handle is stored; when it raises, it raises the [ConnectionError] with
    the fixed text, whatever the cause was.  After any [connect] that left a
    handle, also one that raised, a further [connect] does nothing and
    returns. *)
Theorem connect_outcome c o :
  (forall s, sock c = Some s -> connect W (c, o) = ((c, o), Ok tt)) /\
  (snd (connect W (c, o)) = Ok tt ->
   sock (fst (fst (connect W (c, o)))) <> None) /\
  (forall e, snd (connect W (c, o)) = Raise e ->
             e = ConnectionError connect_error /\ sock c = None) /\
  (sock (fst (fst (connect W (c, o)))) <> None ->
   connect W (fst (connect W (c, o))) = (fst (connect W (c, o)), Ok tt)).
Proof.
  unfold connect, socket_socket, sock_connect, set_sock, obj_log, os_log.
  unfold_monad. cbn.
  split; [|split; [|split]].
  - intros s ->. reflexivity.
  - repeat (break_match; cbn in *; subst); congruence.
  - intros e. repeat (break_match; cbn in *; subst).
    all: intros H; split; congruence.
  - repeat (break_match; cbn in *; subst); intros; try congruence;
      try reflexivity.
    all: try (rewrite H in *; cbn; reflexivity).
Qed.

(** X11. When [json.dumps] refuses the command, [send_command] writes
    nothing to the socket: it raises the error of the connect stage, or the
    refusal wrapped as a communication error, and in the second case a
    socket that was connected for the exchange is dropped unused. *)
Theorem unserializable_command_not_sent ct p c o e :
  json_dumps (make_command ct p) = Raise e ->
  (snd (send_command W ct p (c, o)) = Raise (ConnectionError connect_error) \/
   (snd (send_command W ct p (c, o))
    = Raise (Exception_ (text "Error communicating with GIMP: "
                         ++ str_exn e)) /\
    sock (fst (fst (send_command W ct p (c, o)))) = None)) /\
  filter is_sendall (trace (snd (fst (send_command W ct p (c, o)))))
  = filter is_sendall (trace o).
Proof.
  intros Hj.
  assert (He : encode_command (make_command ct p) = Raise e).
  { unfold encode_command. rewrite Hj. reflexivity. }
  unfold send_command, connect, the_sock, socket_socket, sock_connect,
    sock_sendall, sock_recv, set_sock, obj_log, os_log.
  unfold_monad. cbn. rewrite !He.
  repeat (break_match; cbn in *; subst).
  all: rewrite ?filter_app; cbn; rewrite ?List.app_nil_r.
  all: split; [|reflexivity].
  all: try (left; reflexivity).
  all: try (right; split; [congruence|reflexivity]).
  all: try congruence.
Qed.


(** X21. No connection is kept between calls: after a call of [call_api]
    no handle is stored, unless the call returned the connect error. *)
Theorem call_api_drops_handle p a k st :
  option_map sock (gimp_connection (fst (call_api W p a k st))) = Some None \/
  snd (call_api W p a k st) = Ok (text "Error: " ++ connect_error).
Proof.
  assert (S : forall c o,
             sock (fst (fst (send_command W (text "call_api")
                               (api_params p a k) (c, o)))) = None \/
             snd (send_command W (text "call_api") (api_params p a k) (c, o))
             = Raise (ConnectionError connect_error)).
  { intros c o.
    destruct (send_command_cases W (text "call_api") (api_params p a k) c o)
      as (t & _ & _ & Hr).
    destruct (snd (send_command W (text "call_api") (api_params p a k)
                     (c, o))) as [reply|e].
    - left. apply Hr.
    - destruct Hr as [[-> _]|[Hs _]]; [right; reflexivity|left; exact Hs]. }
  destruct (gimp_connection st) as [c|] eqn:Hg.
  - rewrite (call_api_with_object W _ _ _ _ _ Hg).
    cbn [fst snd gimp_connection option_map].
    destruct (S c (os_log (EvCallApi p a k) (os st))) as [H|H];
      [left; rewrite H; reflexivity|right; rewrite H; reflexivity].
  - rewrite (call_api_first W _ _ _ _ Hg).
    destruct (connect_cases W GimpConnection_init
                (os_log (EvCallApi p a k) (os st)) eq_refl)
      as (t0 & _ & _ & _ & _ & Hr0).
    destruct (connect W (GimpConnection_init,
                         os_log (EvCallApi p a k) (os st)))
      as [[c0 o0] [[]|e0]]; cbn [fst snd gimp_connection option_map] in *.
    + destruct (S c0 o0) as [H|H];
        [left; rewrite H; reflexivity|right; rewrite H; reflexivity].
    + right. destruct Hr0 as [-> _]. reflexivity.
Qed.

End Connection.

Lemma call_api_after_failed_connect_witness :
  let r1 := call_api down_world (text "Gimp.get_images") (PList []) (PDict [])
              initial_state in
  let r2 := call_api down_world (text "Gimp.get_images") (PList []) (PDict [])
              (fst r1) in
  snd r1 = Ok (text "Error: " ++ connect_error) /\
  option_map sock (gimp_connection (fst r1)) = Some (Some 0) /\
  snd r2
  = Ok (text "Error: Error communicating with GIMP: [Errno 32] Broken pipe") /\
  count_connect (os (fst r2)) = 1 /\
  wire_events (trace (os (fst r2)))
  = [EvSocket 0; EvConnect 0 false;
     EvSendall 0 (request_bytes (text "Gimp.get_images") (PList [])
                    (PDict []))] /\
  option_map sock (gimp_connection (fst r2)) = Some None.
Proof.
  refine (call_api_after_failed_connect down_world
            (text "Gimp.get_images") (PList []) (PDict [])
            (text "Gimp.get_images") (PList []) (PDict [])
            initial_state (text "[Errno 111] Connection refused")
            (request_bytes (text "Gimp.get_images") (PList []) (PDict []))
            _ _ _ _ _); vm_compute; reflexivity.
Defined.

Lemma call_api_undecodable_reply_witness :
  snd (call_api (plugin_world [(text "Gimp.get_images", quoted "{'status':")])
         (text "Gimp.get_images") (PList []) (PDict []) initial_state)
  = Ok (text "Error: Error communicating with GIMP: Expecting value") /\
  option_map sock
    (gimp_connection
       (fst (call_api
               (plugin_world [(text "Gimp.get_images", quoted "{'status':")])
               (text "Gimp.get_images") (PList []) (PDict []) initial_state)))
  = Some None.
Proof.
  refine (call_api_undecodable_reply
            (plugin_world [(text "Gimp.get_images", quoted "{'status':")])
            (text "Gimp.get_images") (PList []) (PDict []) initial_state
            (request_bytes (text "Gimp.get_images") (PList []) (PDict []))
            (ascii_bytes (quoted "{'status':"))
            (JSONDecodeError (text "Expecting value")) _ _ _).
  - repeat split; vm_compute; reflexivity.
  - vm_compute; reflexivity.
  - vm_compute; reflexivity.
Defined.

Lemma call_api_no_answer_witness :
  exists m,
    json_loads [] = Raise (JSONDecodeError m) /\
    snd (call_api silent_world (text "Gimp.get_images") (PList []) (PDict [])
           initial_state)
    = Ok (text "Error: Error communicating with GIMP: " ++ m).
Proof.
  refine (call_api_no_answer silent_world
            (text "Gimp.get_images") (PList []) (PDict []) initial_state
            (request_bytes (text "Gimp.get_images") (PList []) (PDict []))
            _ _).
  - repeat split; vm_compute; reflexivity.
  - vm_compute; reflexivity.
Defined.

Lemma call_api_socket_failure_witness :
  (snd (call_api broken_pipe_world (text "Gimp.get_images") (PList [])
          (PDict []) initial_state)
   = Ok (text "Error: Error communicating with GIMP: [Errno 32] Broken pipe")
   /\
   option_map sock
     (gimp_connection
        (fst (call_api broken_pipe_world (text "Gimp.get_images") (PList [])
                (PDict []) initial_state)))
   = Some None) /\
  (snd (call_api reset_world (text "Gimp.get_images") (PList [])
          (PDict []) initial_state)
   = Ok (text "Error: Error communicating with GIMP: [Errno 104] Connection reset by peer")
   /\
   option_map sock
     (gimp_connection
        (fst (call_api reset_world (text "Gimp.get_images") (PList [])
                (PDict []) initial_state)))
   = Some None).
Proof.
  split.
  - refine (call_api_socket_failure broken_pipe_world
              (text "Gimp.get_images") (PList []) (PDict []) initial_state
              (request_bytes (text "Gimp.get_images") (PList []) (PDict []))
              (text "[Errno 32] Broken pipe") _ _ _).
    + repeat split; vm_compute; reflexivity.
    + vm_compute; reflexivity.
    + left; vm_compute; reflexivity.
  - refine (call_api_socket_failure reset_world
              (text "Gimp.get_images") (PList []) (PDict []) initial_state
              (request_bytes (text "Gimp.get_images") (PList []) (PDict []))
              (text "[Errno 104] Connection reset by peer") _ _ _).
    + repeat split; vm_compute; reflexivity.
    + vm_compute; reflexivity.
    + right; split; vm_compute; reflexivity.
Defined.

Lemma unserializable_command_not_sent_witness :
  let p := PDict [(KStr (text "layers"), PObject (text "set"))] in
  let r := send_command image_world (text "call_api") p
             (GimpConnection_init, os initial_state) in
  (snd r = Raise (ConnectionError connect_error) \/
   (snd r
    = Raise (Exception_
               (text "Error communicating with GIMP: "
                ++ text "Object of type set is not JSON serializable")) /\
    sock (fst (fst r)) = None)) /\
  filter is_sendall (trace (snd (fst r))) = [].
Proof.
  refine (unserializable_command_not_sent image_world (text "call_api")
            (PDict [(KStr (text "layers"), PObject (text "set"))])
            GimpConnection_init (os initial_state)
            (TypeError (text "Object of type set is not JSON serializable"))
            _).
  vm_compute; reflexivity.
Defined.
(** What [json.dumps] writes for the dictionary of [get_image_info]. *)
Lemma dumps_image_info w h l :
  json_dumps (PDict [(KStr (text "width"), PStr w);
                     (KStr (text "height"), PStr h);
                     (KStr (text "layers"), PStr l)])
  = Ok (image_info_text w h l).
Proof.
  unfold image_info_text. cbn [json_dumps map sequence res_bind fst snd join key_str].
  f_equal. generalize (encode_str w) (encode_str h) (encode_str l).
  intros x y z. rewrite <- !List.app_assoc. vm_compute. reflexivity.
Qed.

Section ChainedOperations.

Variable W : world.

#[local] Arguments json_dumps : simpl never.
#[local] Arguments json_loads : simpl never.
#[local] Arguments subscript : simpl never.
#[local] Arguments text : simpl never.
#[local] Arguments call_api : simpl never.
#[local] Arguments contains : simpl never.

Lemma call_api_total p a k st :
  exists st' s, call_api W p a k st = (st', Ok s).
Proof.
  destruct (call_api_cases W p a k st) as (st' & s & t & H & _). eauto.
Qed.

Lemma payload_id_error s e : payload_id s = Raise e -> payload_error e.
Proof.
  unfold payload_id, payload_error. intros H.
  pose proof (json_loads_ok s) as Hl.
  destruct (json_loads s) as [o|e']; cbn in H.
  - unfold subscript in H. destruct o; try (injection H as <-; eauto).
    destruct (dict_get (text "id") d); [discriminate|].
    injection H as <-. auto.
  - injection H as ->. destruct e; try discriminate. eauto.
Qed.

Lemma payload_id_ok s i :
  payload_id s = Ok i ->
  exists o, json_loads s = Ok o /\ subscript o (text "id") = Ok i.
Proof.
  unfold payload_id. destruct (json_loads s) as [o|e]; cbn; [eauto|].
  discriminate.
Qed.

(** Once the image is resolved [get_image_info] returns. *)
Lemma image_info_returns image_id st st1 s1 i :
  call_api W get_by_id (PList [PInt image_id]) (PDict []) st = (st1, Ok s1) ->
  contains (text "Error") s1 = false ->
  payload_id s1 = Ok i ->
  exists st4 s, get_image_info W image_id st = (st4, Ok s).
Proof.
  intros H1 C1 P1.
  destruct (payload_id_ok _ _ P1) as (o1 & L1 & I1).
  unfold get_image_info, get_by_id in *.
  unfold_monad. rewrite H1, C1, L1, I1.
  repeat match goal with
         | |- context [call_api W ?p ?a ?k ?s] =>
             let st' := fresh "st" in
             let r := fresh "r" in
             let E := fresh "E" in
             destruct (call_api_total p a k s) as (st' & r & E); rewrite E
         end.
  rewrite dumps_image_info. eauto.
Qed.

(** X12. Once the image lookup returned a string without the marker that
    parses to an object with an id, [get_image_info] always returns: it
    makes the width, height and layers calls with that id, checks none of
    their results, and returns the JSON object that holds the three
    returned strings as JSON strings.  Four calls of [call_api] were made. *)
Theorem image_info_unchecked_fields image_id st st1 s1 i :
  call_api W get_by_id (PList [PInt image_id]) (PDict []) st = (st1, Ok s1) ->
  contains (text "Error") s1 = false ->
  payload_id s1 = Ok i ->
  exists st2 st3 st4 w h l,
    call_api W get_width (PList [i]) (PDict []) st1 = (st2, Ok w) /\
    call_api W get_height (PList [i]) (PDict []) st2 = (st3, Ok h) /\
    call_api W get_layers (PList [i]) (PDict []) st3 = (st4, Ok l) /\
    get_image_info W image_id st = (st4, Ok (image_info_text w h l)) /\
    api_calls st4
    = api_calls st ++ [(get_by_id, PList [PInt image_id]);
                       (get_width, PList [i]); (get_height, PList [i]);
                       (get_layers, PList [i])].
Proof.
  intros H1 C1 P1.
  destruct (call_api_total get_width (PList [i]) (PDict []) st1)
    as (st2 & w & H2).
  destruct (call_api_total get_height (PList [i]) (PDict []) st2)
    as (st3 & h & H3).
  destruct (call_api_total get_layers (PList [i]) (PDict []) st3)
    as (st4 & l & H4).
  exists st2, st3, st4, w, h, l. repeat (split; [assumption|]).
  split.
  - destruct (payload_id_ok _ _ P1) as (o1 & L1 & I1).
    unfold get_image_info, get_by_id, get_width, get_height, get_layers in *.
    unfold_monad. rewrite H1, C1, L1, I1, H2, H3, H4, dumps_image_info.
    reflexivity.
  - rewrite (proj2 (call_api_counts _ _ _ _ _ _ _ H4)),
      (proj2 (call_api_counts _ _ _ _ _ _ _ H3)),
      (proj2 (call_api_counts _ _ _ _ _ _ _ H2)),
      (proj2 (call_api_counts _ _ _ _ _ _ _ H1)).
    rewrite <- !app_assoc. reflexivity.
Qed.

(** X13. [get_image_info] raises exactly when the image lookup returned a
    string without the marker whose parsing or whose id lookup raises; it
    then raises that exception, after the one call, and the exception is a
    JSON decoding error, the [KeyError] of id, or a [TypeError]. *)
Theorem image_info_raises_on_payload image_id st st1 s1 e :
  call_api W get_by_id (PList [PInt image_id]) (PDict []) st = (st1, Ok s1) ->
  (snd (get_image_info W image_id st) = Raise e <->
   contains (text "Error") s1 = false /\ payload_id s1 = Raise e) /\
  (snd (get_image_info W image_id st) = Raise e ->
   fst (get_image_info W image_id st) = st1 /\ payload_error e).
Proof.
  intros H1.
  assert (R : forall e0,
              contains (text "Error") s1 = false -> payload_id s1 = Raise e0 ->
              get_image_info W image_id st = (st1, Raise e0)).
  { intros e0 C1 P1. unfold payload_id in P1.
    unfold get_image_info, get_by_id in *. unfold_monad. rewrite H1, C1.
    destruct (json_loads s1) as [o1|e1]; cbn in P1.
    - rewrite P1. reflexivity.
    - congruence. }
  assert (L : snd (get_image_info W image_id st) = Raise e ->
              contains (text "Error") s1 = false /\ payload_id s1 = Raise e).
  { destruct (contains (text "Error") s1) eqn:C1.
    - rewrite (proj1 (first_check W image_id FNan st st1 s1 H1 C1)).
      discriminate.
    - destruct (payload_id s1) as [i|e1] eqn:P1.
      + destruct (image_info_returns image_id st st1 s1 i H1 C1 P1)
          as (st4 & s & ->).
        discriminate.
      + rewrite (R e1 eq_refl eq_refl). cbn. intros [= ->]. auto. }
  split; [split|].
  - exact L.
  - intros [C1 P1]. rewrite (R e C1 P1). reflexivity.
  - intros H. destruct (L H) as [C1 P1]. rewrite (R e C1 P1).
    split; [reflexivity|]. exact (payload_id_error _ _ P1).
Qed.



(** Every run of [apply_gaussian_blur]. *)
Lemma blur_cases image_id radius st :
  let blur := apply_gaussian_blur W image_id radius st in
  exists st1 s1,
    call_api W get_by_id (PList [PInt image_id]) (PDict []) st = (st1, Ok s1) /\
    ((contains (text "Error") s1 = true /\ blur = (st1, Ok s1)) \/
     (contains (text "Error") s1 = false /\
      ((exists e, payload_id s1 = Raise e /\ blur = (st1, Raise e)) \/
       exists i st2 s2,
         payload_id s1 = Ok i /\
         call_api W get_active_layer (PList [i]) (PDict []) st1
         = (st2, Ok s2) /\
         ((contains (text "Error") s2 = true /\ blur = (st2, Ok s2)) \/
          (contains (text "Error") s2 = false /\
           ((exists e, payload_id s2 = Raise e /\ blur = (st2, Raise e)) \/
            exists d st3 s3,
              payload_id s2 = Ok d /\
              call_api W run_procedure (gauss_args i d radius) (PDict []) st2
              = (st3, Ok s3) /\
              ((contains (text "Error") s3 = true /\ blur = (st3, Ok s3)) \/
               (contains (text "Error") s3 = false /\
                exists st4 s4,
                  call_api W displays_flush (PList []) (PDict []) st3
                  = (st4, Ok s4) /\
                  blur
                  = (st4, Ok (text "Applied Gaussian blur successfully")))))))))).
Proof.
  cbv zeta.
  destruct (call_api_total get_by_id (PList [PInt image_id]) (PDict []) st)
    as (st1 & s1 & H1).
  exists st1, s1. split; [exact H1|].
  destruct (contains (text "Error") s1) eqn:C1.
  { left. split; [reflexivity|].
    apply (first_check W image_id radius st st1 s1 H1 C1). }
  right. split; [reflexivity|].
  destruct (payload_id s1) as [i|e1] eqn:P1.
  2:{ left. exists e1. split; [reflexivity|].
      unfold payload_id in P1.
      unfold apply_gaussian_blur, get_by_id in *. unfold_monad.
      rewrite H1, C1.
      destruct (json_loads s1) as [o1|e0]; cbn in P1.
      - rewrite P1. reflexivity.
      - congruence. }
  right.
  destruct (payload_id_ok _ _ P1) as (o1 & L1 & I1).
  destruct (call_api_total get_active_layer (PList [i]) (PDict []) st1)
    as (st2 & s2 & H2).
  exists i, st2, s2. split; [reflexivity|]. split; [exact H2|].
  destruct (contains (text "Error") s2) eqn:C2.
  { left. split; [reflexivity|].
    apply (second_check W image_id radius st st1 st2 s1 s2 o1 i
             H1 C1 L1 I1 H2 C2). }
  right. split; [reflexivity|].
  destruct (payload_id s2) as [d|e2] eqn:P2.
  2:{ left. exists e2. split; [reflexivity|].
      unfold payload_id in P2.
      unfold apply_gaussian_blur, get_by_id, get_active_layer in *.
      unfold_monad. rewrite H1, C1, L1, I1, H2, C2.
      destruct (json_loads s2) as [o2|e0]; cbn in P2.
      - rewrite P2. reflexivity.
      - congruence. }
  right.
  destruct (payload_id_ok _ _ P2) as (o2 & L2 & I2).
  destruct (call_api_total run_procedure (gauss_args i d radius) (PDict [])
              st2) as (st3 & s3 & H3).
  exists d, st3, s3. split; [reflexivity|]. split; [exact H3|].
  rewrite (blur_unfold W image_id radius st st1 st2 st3 s1 s2 s3 o1 o2 i d
             H1 C1 L1 I1 H2 C2 L2 I2 H3).
  destruct (contains (text "Error") s3) eqn:C3.
  { left. split; reflexivity. }
  right. split; [reflexivity|].
  destruct (call_api_total displays_flush (PList []) (PDict []) st3)
    as (st4 & s4 & H4).
  exists st4, s4. split; [exact H4|]. rewrite H4. reflexivity.
Qed.

Lemma succ_count p a k st st' r :
  call_api W p a k st = (st', r) ->
  count_call_api st' = S (count_call_api st).
Proof. intros H. apply (call_api_counts W _ _ _ _ _ _ H). Qed.

(** X14. Only the parsing and the id lookup of the image payload and of the
    layer payload raise in [apply_gaussian_blur]: such an exception leaves
    the operation as it is, in the state the sub-call left; nothing else
    ever escapes, and at most two calls of [call_api] were made. *)
Theorem gaussian_blur_raises_on_payload image_id radius st st1 s1 :
  call_api W get_by_id (PList [PInt image_id]) (PDict []) st = (st1, Ok s1) ->
  (forall e,
      contains (text "Error") s1 = false ->
      payload_id s1 = Raise e ->
      apply_gaussian_blur W image_id radius st = (st1, Raise e)) /\
  (forall i st2 s2 e,
      contains (text "Error") s1 = false ->
      payload_id s1 = Ok i ->
      call_api W get_active_layer (PList [i]) (PDict []) st1 = (st2, Ok s2) ->
      contains (text "Error") s2 = false ->
      payload_id s2 = Raise e ->
      apply_gaussian_blur W image_id radius st = (st2, Raise e)) /\
  (forall e,
      snd (apply_gaussian_blur W image_id radius st) = Raise e ->
      payload_error e /\
      count_call_api (fst (apply_gaussian_blur W image_id radius st))
      <= 2 + count_call_api st).
Proof.
  intros H1.
  destruct (blur_cases image_id radius st) as (st1' & s1' & H1' & Hc).
  rewrite H1 in H1'. injection H1' as <- <-.
  split; [|split].
  - intros e C1 P1.
    destruct Hc as [[C _]|[_ [(e' & P & B)|(i & st2 & s2 & P & _)]]];
      congruence.
  - intros i st2 s2 e C1 P1 H2 C2 P2.
    destruct Hc as [[C _]|[_ [(e' & P & B)|(i' & st2' & s2' & P & H2' & Hc)]]];
      try congruence.
    assert (i' = i) by congruence. subst i'.
    rewrite H2 in H2'. injection H2' as <- <-.
    destruct Hc as [[C _]|[_ [(e' & P' & B)|(d & st3 & s3 & P' & _)]]];
      congruence.
  - intros e He.
    destruct Hc as [[C B]|[C1 [(e' & P & B)|(i & st2 & s2 & P & H2 & Hc)]]].
    + rewrite B in He. discriminate.
    + rewrite B in *. cbn in *. injection He as ->.
      split; [exact (payload_id_error _ _ P)|].
      rewrite (succ_count _ _ _ _ _ _ H1). lia.
    + destruct Hc as [[C B]|[C2 [(e' & P' & B)|(d & st3 & s3 & P' & H3 & Hc)]]].
      * rewrite B in He. discriminate.
      * rewrite B in *. cbn in *. injection He as ->.
        split; [exact (payload_id_error _ _ P')|].
        rewrite (succ_count _ _ _ _ _ _ H2), (succ_count _ _ _ _ _ _ H1). lia.
      * destruct Hc as [[C B]|[C3 (st4 & s4 & H4 & B)]];
          rewrite B in He; discriminate.
Qed.

(** X15. A string that [apply_gaussian_blur] returns is the fixed success
    message, after exactly four calls of [call_api], or it contains the
    marker and is the result of the last of at most three calls. *)
Theorem gaussian_blur_result_shape image_id radius st st' s :
  apply_gaussian_blur W image_id radius st = (st', Ok s) ->
  (s = text "Applied Gaussian blur successfully" /\
   count_call_api st' = 4 + count_call_api st) \/
  (contains (text "Error") s = true /\
   count_call_api st' <= 3 + count_call_api st /\
   exists p a st0, call_api W p a (PDict []) st0 = (st', Ok s)).
Proof.
  intros H.
  destruct (blur_cases image_id radius st) as (st1 & s1 & H1 & Hc).
  cbv zeta in Hc. rewrite H in Hc.
  destruct Hc as [[C B]|[C1 [(e' & P & B)|(i & st2 & s2 & P & H2 & Hc)]]].
  - injection B as -> ->. right. split; [exact C|].
    rewrite (succ_count _ _ _ _ _ _ H1). split; [lia|eauto].
  - discriminate.
  - destruct Hc as [[C B]|[C2 [(e' & P' & B)|(d & st3 & s3 & P' & H3 & Hc)]]].
    + injection B as -> ->. right. split; [exact C|].
      rewrite (succ_count _ _ _ _ _ _ H2), (succ_count _ _ _ _ _ _ H1).
      split; [lia|eauto].
    + discriminate.
    + destruct Hc as [[C B]|[C3 (st4 & s4 & H4 & B)]].
      * injection B as -> ->. right. split; [exact C|].
        rewrite (succ_count _ _ _ _ _ _ H3), (succ_count _ _ _ _ _ _ H2),
          (succ_count _ _ _ _ _ _ H1).
        split; [lia|eauto].
      * injection B as -> ->. left. split; [reflexivity|].
        rewrite (succ_count _ _ _ _ _ _ H4), (succ_count _ _ _ _ _ _ H3),
          (succ_count _ _ _ _ _ _ H2), (succ_count _ _ _ _ _ _ H1).
        reflexivity.
Qed.

End ChainedOperations.

Lemma image_info_unchecked_fields_witness :
  let W := no_width_world in
  let st1 := fst (call_api W get_by_id (PList [PInt 1]) (PDict [])
                    initial_state) in
  exists st2 st3 st4 w h l,
    call_api W get_width (PList [PInt 1]) (PDict []) st1 = (st2, Ok w) /\
    call_api W get_height (PList [PInt 1]) (PDict []) st2 = (st3, Ok h) /\
    call_api W get_layers (PList [PInt 1]) (PDict []) st3 = (st4, Ok l) /\
    get_image_info W 1 initial_state = (st4, Ok (image_info_text w h l)) /\
    api_calls st4
    = api_calls initial_state
      ++ [(get_by_id, PList [PInt 1]); (get_width, PList [PInt 1]);
          (get_height, PList [PInt 1]); (get_layers, PList [PInt 1])].
Proof.
  refine (image_info_unchecked_fields no_width_world 1 initial_state
            (fst (call_api no_width_world get_by_id (PList [PInt 1])
                    (PDict []) initial_state))
            (quoted "{'id': 1}") (PInt 1) _ _ _); vm_compute; reflexivity.
Defined.

Lemma image_info_raises_on_payload_witness :
  let e := KeyError (text "id") in
  (snd (get_image_info no_id_world 1 initial_state) = Raise e <->
   contains (text "Error") (quoted "{'name': 'untitled'}") = false /\
   payload_id (quoted "{'name': 'untitled'}") = Raise e) /\
  (snd (get_image_info no_id_world 1 initial_state) = Raise e ->
   fst (get_image_info no_id_world 1 initial_state)
   = fst (call_api no_id_world get_by_id (PList [PInt 1]) (PDict [])
            initial_state) /\
   payload_error e).
Proof.
  refine (image_info_raises_on_payload no_id_world 1 initial_state
            (fst (call_api no_id_world get_by_id (PList [PInt 1]) (PDict [])
                    initial_state))
            (quoted "{'name': 'untitled'}") (KeyError (text "id")) _);
    vm_compute; reflexivity.
Defined.

Lemma gaussian_blur_raises_on_payload_witness :
  let W := no_id_world in
  let st1 := fst (call_api W get_by_id (PList [PInt 1]) (PDict [])
                    initial_state) in
  let s1 := quoted "{'name': 'untitled'}" in
  (forall e,
      contains (text "Error") s1 = false ->
      payload_id s1 = Raise e ->
      apply_gaussian_blur W 1 ten initial_state = (st1, Raise e)) /\
  (forall i st2 s2 e,
      contains (text "Error") s1 = false ->
      payload_id s1 = Ok i ->
      call_api W get_active_layer (PList [i]) (PDict []) st1 = (st2, Ok s2) ->
      contains (text "Error") s2 = false ->
      payload_id s2 = Raise e ->
      apply_gaussian_blur W 1 ten initial_state = (st2, Raise e)) /\
  (forall e,
      snd (apply_gaussian_blur W 1 ten initial_state) = Raise e ->
      payload_error e /\
      count_call_api (fst (apply_gaussian_blur W 1 ten initial_state))
      <= 2 + count_call_api initial_state).
Proof.
  refine (gaussian_blur_raises_on_payload no_id_world 1 ten initial_state
            (fst (call_api no_id_world get_by_id (PList [PInt 1]) (PDict [])
                    initial_state))
            (quoted "{'name': 'untitled'}") _); vm_compute; reflexivity.
Defined.

Lemma gaussian_blur_result_shape_witness :
  let st' := fst (apply_gaussian_blur refused_world 5 ten initial_state) in
  let s := quoted "Error: 'bad radius'" in
  (s = text "Applied Gaussian blur successfully" /\
   count_call_api st' = 4 + count_call_api initial_state) \/
  (contains (text "Error") s = true /\
   count_call_api st' <= 3 + count_call_api initial_state /\
   exists p a st0, call_api refused_world p a (PDict []) st0 = (st', Ok s)).
Proof.
  refine (gaussian_blur_result_shape refused_world 5 ten initial_state
            (fst (apply_gaussian_blur refused_world 5 ten initial_state))
            (quoted "Error: 'bad radius'") _); vm_compute; reflexivity.
Defined.

(** X16. [get_images] writes one request, the bytes of the JSON text
    [{"type": "call_api", "params": {"api_path": "Gimp.get_images",
    "args": [], "kwargs": {}}}], and returns the JSON text of the result of
    a success reply. *)
Theorem get_images_exchange W st bytes reply r s :
  live W (connection_of st) (os st) get_images_request bytes ->
  decode_reply (firstn 1024 bytes) = Ok reply ->
  subscript reply (text "status") = Ok (PStr (text "success")) ->
  subscript reply (text "result") = Ok r ->
  json_dumps r = Ok s ->
  snd (get_images W st) = Ok s /\
  wire_events (trace (os (fst (get_images W st))))
  = wire_events (trace (os st))
    ++ [EvSocket (sockets (os st)); EvConnect (sockets (os st)) true;
        EvSendall (sockets (os st)) get_images_request;
        EvRecv (sockets (os st))].
Proof.
  intros Hl Hd Hs Hr Hj. unfold get_images.
  assert (He : encode_command
                 (api_command (text "Gimp.get_images") (PList []) (PDict []))
               = Ok get_images_request) by (vm_compute; reflexivity).
  destruct (call_api_live W _ _ _ st _ bytes Hl He) as (H1 & _ & _ & H4 & _).
  rewrite H1, H4, Hd. split; [|reflexivity].
  unfold call_result, wrap_error, reply_text, res_bind.
  rewrite Hs.
  change (eq_str (PStr (text "success")) (text "success")) with true.
  cbv iota. rewrite Hr, Hj. reflexivity.
Qed.

Lemma get_images_exchange_witness :
  snd (get_images two_images_world initial_state) = Ok (text "[1, 2]") /\
  wire_events (trace (os (fst (get_images two_images_world initial_state))))
  = wire_events (trace (os initial_state))
    ++ [EvSocket 0; EvConnect 0 true; EvSendall 0 get_images_request;
        EvRecv 0].
Proof.
  refine (get_images_exchange two_images_world initial_state
            (ascii_bytes (quoted "{'status':'success','result':[1, 2]}"))
            (PDict [(KStr (text "status"), PStr (text "success"));
                    (KStr (text "result"), PList [PInt 1; PInt 2])])
            (PList [PInt 1; PInt 2]) (text "[1, 2]") _ _ _ _ _).
  - repeat split; vm_compute; reflexivity.
  - vm_compute; reflexivity.
  - vm_compute; reflexivity.
  - vm_compute; reflexivity.
  - vm_compute; reflexivity.
Defined.
(* ================================================================= *)
(** ** The request and the reply on the wire *)

Lemma float_repr_ascii f :
  float_ascii f = true -> forallb ascii_char (float_repr f) = true.
Proof. destruct f as [lit| |[|]]; cbn; auto. Qed.

Lemma parts_ascii {A} (f : A -> res pystr) (ok : A -> bool) l :
  Forall (fun x => ok x = true ->
                   match f x with
                   | Ok s => forallb ascii_char s = true
                   | Raise e => exists m, e = TypeError m
                   end) l ->
  forallb ok l = true ->
  match sequence (map f l) with
  | Ok parts => Forall (fun p => forallb ascii_char p = true) parts
  | Raise e => exists m, e = TypeError m
  end.
Proof.
  induction l as [|x l IHl]; intros HF Hok; cbn [map sequence].
  - constructor.
  - cbn [forallb] in Hok. apply andb_prop in Hok. destruct Hok as [Hx Hl].
    pose proof (Forall_inv HF Hx) as H1.
    pose proof (IHl (Forall_inv_tail HF) Hl) as H2.
    destruct (f x) as [s|e]; cbn [res_bind]; [|exact H1].
    destruct (sequence (map f l)) as [parts|e]; cbn [res_bind]; [|exact H2].
    constructor; assumption.
Qed.

(** What [json_dumps] writes is ASCII.  Having no limit on digits or on
    nesting, [json_dumps] raises nothing but a [TypeError]. *)
Lemma json_dumps_ascii v :
  floats_ascii v = true ->
  match json_dumps v with
  | Ok s => forallb ascii_char s = true
  | Raise e => exists m, e = TypeError m
  end.
Proof.
  induction v as [ |b|z|f|s|l IH|l IH|d IH|n] using pyval_induction;
    intros Hf; cbn [json_dumps].
  - reflexivity.
  - destruct b; reflexivity.
  - apply repr_int_ascii.
  - apply float_repr_ascii, Hf.
  - apply encode_str_ascii.
  - cbn [floats_ascii] in Hf.
    pose proof (parts_ascii json_dumps floats_ascii l IH Hf) as H.
    destruct (sequence (map json_dumps l)) as [parts|e]; cbn [res_bind];
      [|exact H].
    cbn [forallb]. rewrite forallb_app, (join_ascii (text ", ") _ eq_refl H).
    reflexivity.
  - cbn [floats_ascii] in Hf.
    pose proof (parts_ascii json_dumps floats_ascii l IH Hf) as H.
    destruct (sequence (map json_dumps l)) as [parts|e]; cbn [res_bind];
      [|exact H].
    cbn [forallb]. rewrite forallb_app, (join_ascii (text ", ") _ eq_refl H).
    reflexivity.
  - cbn [floats_ascii] in Hf.
    assert (HF : Forall
              (fun x : pykey * pyval =>
                 floats_ascii (snd x) = true ->
                 match
                   res_bind (json_dumps (snd x))
                     (fun t => Ok (encode_str (key_str (fst x))
                                   ++ text ": " ++ t))
                 with
                 | Ok s => forallb ascii_char s = true
                 | Raise e => exists m, e = TypeError m
                 end) d).
    { clear -IH.
      induction IH as [|x d Hx _ IHd]; constructor; [|exact IHd].
      intros Hk. specialize (Hx Hk).
      destruct (json_dumps (snd x)) as [t|e]; cbn [res_bind]; [|exact Hx].
      rewrite !forallb_app, encode_str_ascii, Hx. reflexivity. }
    pose proof (parts_ascii _ (fun kv => floats_ascii (snd kv)) d HF Hf) as H.
    match goal with |- context [sequence ?sq] =>
      assert (H' : match sequence sq with
                   | Ok parts =>
                       Forall (fun p => forallb ascii_char p = true) parts
                   | Raise e => exists msg, e = TypeError msg
                   end) by exact H;
      clear H; rename H' into H;
      destruct (sequence sq) as [parts|e]
    end; cbn [res_bind]; [|exact H].
    cbn [forallb]. rewrite forallb_app, (join_ascii (text ", ") _ eq_refl H).
    reflexivity.
  - eauto.
Qed.

Lemma ascii_bytes_ascii s :
  forallb ascii_char s = true -> forallb ascii_byte (ascii_bytes s) = true.
Proof.
  unfold ascii_bytes. induction s as [|c s IH]; [reflexivity|].
  cbn [forallb map]. intros H. apply andb_prop in H. destruct H as [Hc Hs].
  rewrite (IH Hs), andb_true_r. unfold ascii_byte.
  unfold ascii_char in Hc. apply N.ltb_lt in Hc.
  rewrite to_N_byte_of_N by lia. apply N.ltb_lt. exact Hc.
Qed.

(** X17. The request is pure ASCII whatever characters its strings hold, a
    lone surrogate included: encoding what [json.dumps] wrote to UTF-8
    never fails and gives one byte for each character, so that when
    building the request fails it is [json.dumps] that raised. *)
Theorem request_is_ascii command_type params :
  floats_ascii params = true ->
  (forall s,
      json_dumps (make_command command_type params) = Ok s ->
      forallb ascii_char s = true /\
      str_encode s = Ok (ascii_bytes s) /\
      encode_command (make_command command_type params)
      = Ok (ascii_bytes s)) /\
  (forall data,
      encode_command (make_command command_type params) = Ok data ->
      forallb ascii_byte data = true /\
      exists s, json_dumps (make_command command_type params) = Ok s /\
                data = ascii_bytes s) /\
  (forall e,
      encode_command (make_command command_type params) = Raise e ->
      json_dumps (make_command command_type params) = Raise e).
Proof.
  intros Hf.
  assert (Hc : floats_ascii (make_command command_type params) = true).
  { unfold make_command, py_or. cbn [floats_ascii forallb snd].
    destruct (truthy params); [rewrite Hf|]; reflexivity. }
  pose proof (json_dumps_ascii _ Hc) as H.
  unfold encode_command.
  destruct (json_dumps (make_command command_type params)) as [s|e];
    cbn [res_bind].
  - rewrite (str_encode_ascii _ H). split; [|split].
    + intros s' [= <-]. rewrite (str_encode_ascii _ H). auto.
    + intros data [= <-]. split; [apply ascii_bytes_ascii, H|eauto].
    + discriminate.
  - split; [|split]; [discriminate|discriminate|]. intros e' [= <-]. reflexivity.
Qed.

Lemma request_is_ascii_witness :
  let params := PDict [(KStr (text "name"), PStr [55296%N; 233%N; 128512%N])] in
  (forall s,
      json_dumps (make_command (text "call_api") params) = Ok s ->
      forallb ascii_char s = true /\
      str_encode s = Ok (ascii_bytes s) /\
      encode_command (make_command (text "call_api") params)
      = Ok (ascii_bytes s)) /\
  (forall data,
      encode_command (make_command (text "call_api") params) = Ok data ->
      forallb ascii_byte data = true /\
      exists s, json_dumps (make_command (text "call_api") params) = Ok s /\
                data = ascii_bytes s) /\
  (forall e,
      encode_command (make_command (text "call_api") params) = Raise e ->
      json_dumps (make_command (text "call_api") params) = Raise e).
Proof.
  refine (request_is_ascii (text "call_api")
            (PDict [(KStr (text "name"), PStr [55296%N; 233%N; 128512%N])])
            _).
  vm_compute; reflexivity.
Defined.

(** X18. A [params] argument that is falsy, such as [None], [0], an empty
    string, list or dict, goes out as the empty object: the request is the
    text [{"type": command_type, "params": {}}]. *)
Theorem falsy_params_sent_as_empty command_type params :
  truthy params = false ->
  encode_command (make_command command_type params)
  = Ok (ascii_bytes (quoted "{'type': " ++ encode_str command_type
                     ++ quoted ", 'params': {}}")).
Proof.
  intros Ht.
  assert (Hd : json_dumps (make_command command_type params)
               = Ok (quoted "{'type': " ++ encode_str command_type
                     ++ quoted ", 'params': {}}")).
  { unfold make_command, py_or. rewrite Ht.
    cbn [json_dumps map sequence res_bind fst snd join key_str].
    f_equal. generalize (encode_str command_type). intros x.
    rewrite <- !List.app_assoc. vm_compute. reflexivity. }
  unfold encode_command. rewrite Hd. cbn [res_bind].
  apply str_encode_ascii.
  rewrite !forallb_app, encode_str_ascii. reflexivity.
Qed.

Lemma falsy_params_sent_as_empty_witness :
  let expected :=
    Ok (ascii_bytes (quoted "{'type': 'ping', 'params': {}}")) in
  encode_command (make_command (text "ping") PNone) = expected /\
  encode_command (make_command (text "ping") (PInt 0)) = expected /\
  encode_command (make_command (text "ping") (PBool false)) = expected /\
  encode_command (make_command (text "ping") (PStr [])) = expected /\
  encode_command (make_command (text "ping") (PList [])) = expected /\
  encode_command (make_command (text "ping") (PDict [])) = expected /\
  encode_command (make_command (text "ping") (PFloat (FNum (text "0.0"))))
  = expected.
Proof.
  cbv zeta.
  split; [exact (falsy_params_sent_as_empty (text "ping") PNone eq_refl)|].
  split; [exact (falsy_params_sent_as_empty (text "ping") (PInt 0) eq_refl)|].
  split; [exact (falsy_params_sent_as_empty (text "ping") (PBool false)
                   eq_refl)|].
  split; [exact (falsy_params_sent_as_empty (text "ping") (PStr []) eq_refl)|].
  split; [exact (falsy_params_sent_as_empty (text "ping") (PList []) eq_refl)|].
  split; [exact (falsy_params_sent_as_empty (text "ping") (PDict []) eq_refl)|].
  exact (falsy_params_sent_as_empty (text "ping") (PFloat (FNum (text "0.0")))
           eq_refl).
Defined.



(* ================================================================= *)
(** ** A reply that is cut short *)

Local Open Scope N_scope.

(** More fuel does not change a result. *)
Lemma scan_fuel_mono f :
  (forall s r f', scan_once f s = Ok r -> (f <= f')%nat ->
                  scan_once f' s = Ok r) /\
  (forall s acc r f', parse_array f s acc = Ok r -> (f <= f')%nat ->
                      parse_array f' s acc = Ok r) /\
  (forall s acc r f', parse_object f s acc = Ok r -> (f <= f')%nat ->
                      parse_object f' s acc = Ok r).
Proof.
  induction f as [|f (IH1 & IH2 & IH3)].
  - repeat split; intros; discriminate.
  - split; [|split].
    + intros s r [|f'] H Hle; [lia|]. cbn [scan_once] in *.
      repeat (break_match; try discriminate; try assumption).
      all: try (eapply IH2; [eassumption|lia]).
      all: try (eapply IH3; [eassumption|lia]).
    + intros s acc r [|f'] H Hle; [lia|]. cbn [parse_array] in *.
      destruct (scan_once f s) as [p|e] eqn:E; [|discriminate].
      rewrite (IH1 _ _ f' E) by lia. cbn [res_bind] in *.
      repeat (break_match; try discriminate; try assumption).
      eapply IH2; [eassumption|lia].
    + intros s acc r [|f'] H Hle; [lia|]. cbn [parse_object] in *.
      destruct s as [|c s]; [discriminate|].
      destruct (c =? 34); [|discriminate].
      destruct (scanstring s) as [k|e]; [|discriminate]. cbn [res_bind] in *.
      destruct (skip_ws (snd k)) as [|c1 r1]; [discriminate|].
      destruct (c1 =? 58); [|discriminate].
      destruct (scan_once f (skip_ws r1)) as [p|e] eqn:E; [|discriminate].
      rewrite (IH1 _ _ f' E) by lia. cbn [res_bind] in *.
      repeat (break_match; try discriminate; try assumption).
      eapply IH3; [eassumption|lia].
Qed.

(** A value that was written reads back or, with too little fuel, raises. *)
Lemma reads_back_or_raise v rest f :
  json_native v = true -> number_stops rest = true ->
  scan_once f (render v ++ rest) = Ok (v, rest) \/
  exists e, scan_once f (render v ++ rest) = Raise e.
Proof.
  intros Hn Hs.
  destruct (scan_once f (render v ++ rest)) as [r|e] eqn:E; [left|eauto].
  pose proof (proj1 (scan_fuel_mono f) _ _ (Nat.max f (need v)) E
                (Nat.le_max_l _ _)) as H.
  rewrite (render_reads_back v Hn rest _ Hs (Nat.le_max_r _ _)) in H.
  congruence.
Qed.

(** *** Strings *)

Lemma plain_after_high_prefix p q :
  plain_after_high (p ++ q) = true -> plain_after_high p = true.
Proof.
  destruct p as [|a [|b [|c [|d [|e [|g p]]]]]]; try reflexivity.
  intros H. exact H.
Qed.

Lemma scanstring_nil : exists e, scanstring [] = Raise e.
Proof. eexists; reflexivity. Qed.

(** A strict prefix of one escape raises. *)
Lemma u_escape_cut c p q :
  p ++ q = u_escape c -> q <> [] -> exists e, scanstring p = Raise e.
Proof.
  unfold u_escape. intros H Hq.
  destruct p as [|x1 [|x2 [|x3 [|x4 [|x5 [|x6 p]]]]]];
    cbn [List.app] in H.
  - eexists; reflexivity.
  - injection H as -> _. eexists; reflexivity.
  - injection H as -> -> _. eexists; reflexivity.
  - injection H as -> -> _ _. eexists; reflexivity.
  - injection H as -> -> _ _ _. eexists; reflexivity.
  - injection H as -> -> _ _ _ _. eexists; reflexivity.
  - injection H as _ _ _ _ _ _ H. destruct p; [|discriminate].
    cbn in H. congruence.
Qed.

Lemma push_char_raise {A} c e : @push_char A c (Raise e) = Raise e.
Proof. reflexivity. Qed.

Lemma u_escape_then_cut u p q c2 :
  u < 65536 -> p ++ q = u_escape c2 -> q <> [] ->
  exists e, scanstring (u_escape u ++ p) = Raise e.
Proof.
  intros Hu H Hq.
  destruct (u_escape_cut c2 p q H Hq) as (e & He).
  assert (Hlen : (List.length p < 6)%nat).
  { apply (f_equal (@List.length N)) in H. rewrite length_app in H.
    cbn in H. destruct q; [congruence|]. cbn in H. lia. }
  exists e. unfold u_escape. cbn [List.app scanstring].
  change (92 =? 34) with false. change (92 =? 92) with true.
  change (117 =? 117) with true. cbv iota.
  rewrite (hex4_u_escape u Hu).
  destruct p as [|x1 [|x2 [|x3 [|x4 [|x5 [|x6 p]]]]]];
    try (rewrite He; reflexivity).
  cbn in Hlen. lia.
Qed.

Lemma escape_char_cut c p q :
  p ++ q = escape_char c -> q <> [] -> exists e, scanstring p = Raise e.
Proof.
  unfold escape_char. intros H Hq.
  assert (Two : forall a b, p ++ q = [a; b] -> a = 92 ->
                            exists e, scanstring p = Raise e).
  { intros a b H2 ->. destruct p as [|x1 [|x2 p]]; cbn [List.app] in H2.
    - eexists; reflexivity.
    - injection H2 as -> _. eexists; reflexivity.
    - injection H2 as _ _ H2. destruct p; [|discriminate].
      cbn in H2. congruence. }
  destruct (c =? 34); [eapply Two; [eassumption|reflexivity]|].
  destruct (c =? 92); [eapply Two; [eassumption|reflexivity]|].
  destruct (c =? 10); [eapply Two; [eassumption|reflexivity]|].
  destruct (c =? 13); [eapply Two; [eassumption|reflexivity]|].
  destruct (c =? 9); [eapply Two; [eassumption|reflexivity]|].
  destruct (c =? 8); [eapply Two; [eassumption|reflexivity]|].
  destruct (c =? 12); [eapply Two; [eassumption|reflexivity]|].
  destruct ((32 <=? c) && (c <=? 126)).
  { destruct p as [|x1 p]; cbn [List.app] in H.
    - eexists; reflexivity.
    - injection H as _ H. destruct p; [|discriminate]. cbn in H. congruence. }
  destruct (c <? 65536); [eapply u_escape_cut; eassumption|].
  cbv zeta in H.
  apply List.app_eq_app in H. destruct H as (m & [[-> H]|[H ->]]).
  - (* the first escape is whole *)
    eapply u_escape_then_cut; [|symmetry; exact H|exact Hq].
    pose proof (N.mod_upper_bound ((c - 65536) / 1024) 1024). lia.
  - destruct m as [|y m].
    + rewrite List.app_nil_r in H. subst p.
      rewrite <- (List.app_nil_r (u_escape _)).
      eapply (u_escape_then_cut _ [] _ 0); [|reflexivity|discriminate].
      pose proof (N.mod_upper_bound ((c - 65536) / 1024) 1024). lia.
    + eapply u_escape_cut; [symmetry; exact H|discriminate].
Qed.

(** A strict prefix of the text of a string, after its opening quote,
    raises. *)
Lemma encoded_string_cut s :
  str_ok s = true ->
  forall p q, p ++ q = flat_map escape_char s ++ [34] -> q <> [] ->
              exists e, scanstring p = Raise e.
Proof.
  unfold str_ok. induction s as [|c s IH]; intros H p q Hp Hq.
  - cbn in Hp. destruct p as [|x p]; [eexists; reflexivity|].
    injection Hp as _ Hp. destruct p; [|discriminate]. cbn in Hp. congruence.
  - apply andb_true_iff in H. destruct H as [Hcp Hnp].
    cbn [forallb] in Hcp. apply andb_true_iff in Hcp.
    destruct Hcp as [Hc Hs].
    cbn [no_surrogate_pair] in Hnp. apply andb_true_iff in Hnp.
    destruct Hnp as [Hpair Hnp].
    cbn [flat_map] in Hp. rewrite <- List.app_assoc in Hp.
    assert (Hplain : is_high_surrogate c = false \/
                     plain_after_high (flat_map escape_char s ++ [34]) = true).
    { destruct (is_high_surrogate c) eqn:Hh; [right|now left].
      destruct s as [|c' s'].
      - apply plain_after_high_quote.
      - cbn [flat_map]. rewrite <- List.app_assoc.
        cbn [andb] in Hpair. apply negb_true_iff in Hpair.
        cbn [forallb] in Hs. apply andb_true_iff in Hs.
        apply plain_after_high_escape; [apply Hs|assumption]. }
    assert (Whole : forall m, m ++ q = flat_map escape_char s ++ [34] ->
                              exists e, scanstring (escape_char c ++ m)
                                        = Raise e).
    { intros m Hm.
      destruct (IH (proj2 (andb_true_iff _ _) (conj Hs Hnp)) m q Hm Hq)
        as (e & He).
      exists e. rewrite scanstring_escape; [|assumption|].
      - rewrite He. reflexivity.
      - destruct Hplain as [Hh|Hh]; [now left|right].
        rewrite <- Hm in Hh. exact (plain_after_high_prefix _ _ Hh). }
    apply List.app_eq_app in Hp. destruct Hp as (m & [[-> Hm]|[Hm ->]]).
    + apply Whole. symmetry. exact Hm.
    + destruct m as [|y m].
      * rewrite List.app_nil_r in Hm. subst p.
        rewrite <- (List.app_nil_r (escape_char c)). apply Whole.
        reflexivity.
      * eapply escape_char_cut; [symmetry; exact Hm|discriminate].
Qed.

(** *** Constants and numbers *)

Lemma digit_num_char s :
  forallb is_digit s = true -> forallb num_char s = true.
Proof.
  induction s as [|c s IH]; [reflexivity|]. cbn [forallb].
  intros H. apply andb_prop in H. destruct H as [Hc Hs].
  unfold num_char at 1. rewrite Hc, (IH Hs). reflexivity.
Qed.

Lemma span_digits_split s :
  s = fst (span_digits s) ++ snd (span_digits s).
Proof.
  induction s as [|c s IH]; [reflexivity|]. cbn [span_digits].
  destruct (is_digit c); [|reflexivity].
  cbn [fst snd List.app]. now rewrite <- IH.
Qed.

Lemma scan_frac_split s :
  s = fst (scan_frac s) ++ snd (scan_frac s) /\
  forallb num_char (fst (scan_frac s)) = true.
Proof.
  destruct s as [|c s]; [split; reflexivity|]. cbn [scan_frac].
  destruct (N.eqb_spec c 46) as [->|]; [|split; reflexivity].
  pose proof (span_digits_split s) as H.
  pose proof (span_digits_fst s) as Hd.
  destruct (span_digits s) as [[|d ds] r]; [split; reflexivity|].
  cbn [fst snd] in *. split.
  - cbn [List.app] in *. congruence.
  - apply digit_num_char in Hd. cbn [forallb] in *. exact Hd.
Qed.

Lemma scan_exp_split s :
  s = fst (scan_exp s) ++ snd (scan_exp s) /\
  forallb num_char (fst (scan_exp s)) = true.
Proof.
  destruct s as [|c s]; [split; reflexivity|]. cbn [scan_exp].
  destruct ((c =? 101) || (c =? 69)) eqn:Ec; [|split; reflexivity].
  assert (Hc : num_char c = true).
  { apply orb_true_iff in Ec. destruct Ec as [E|E];
      apply N.eqb_eq in E; subst; reflexivity. }
  cbv zeta.
  destruct s as [|g s'].
  - cbn. split; reflexivity.
  - destruct ((g =? 43) || (g =? 45)) eqn:Eg.
    + assert (Hg : num_char g = true).
      { apply orb_true_iff in Eg. destruct Eg as [E|E];
          apply N.eqb_eq in E; subst; reflexivity. }
      cbn [fst snd].
      pose proof (span_digits_split s') as H.
      pose proof (span_digits_fst s') as Hd.
      destruct (span_digits s') as [[|d ds] r]; [split; reflexivity|].
      cbn [fst snd] in *. split.
      * cbn [List.app] in *. congruence.
      * apply digit_num_char in Hd. cbn [forallb List.app] in *.
        now rewrite Hc, Hg.
    + cbn [fst snd].
      pose proof (span_digits_split (g :: s')) as H.
      pose proof (span_digits_fst (g :: s')) as Hd.
      destruct (span_digits (g :: s')) as [[|d ds] r]; [split; reflexivity|].
      cbn [fst snd] in *. split.
      * cbn [List.app] in *. congruence.
      * apply digit_num_char in Hd. cbn [forallb List.app] in *.
        now rewrite Hc.
Qed.

(** What a number scan consumed is made of characters of numbers. *)
Lemma scan_unsigned_split neg s v r :
  scan_unsigned neg s = Some (v, r) ->
  exists c, s = c ++ r /\ forallb num_char c = true.
Proof.
  destruct s as [|c0 s]; [discriminate|]. unfold scan_unsigned.
  assert (Tail : forall ip r1,
             forallb num_char ip = true ->
             c0 :: s = ip ++ r1 ->
             match fst (scan_frac r1), fst (scan_exp (snd (scan_frac r1))) with
             | [], [] =>
                 Some (PInt (int_of_digits neg ip),
                       snd (scan_exp (snd (scan_frac r1))))
             | _, _ =>
                 Some (PFloat (FNum ((if neg then [45] else [])
                                     ++ ip ++ fst (scan_frac r1)
                                     ++ fst (scan_exp (snd (scan_frac r1))))),
                       snd (scan_exp (snd (scan_frac r1))))
             end = Some (v, r) ->
             exists c, c0 :: s = c ++ r /\ forallb num_char c = true).
  { intros ip r1 Hip Hs H.
    destruct (scan_frac_split r1) as [F1 F2].
    destruct (scan_exp_split (snd (scan_frac r1))) as [E1 E2].
    exists (ip ++ fst (scan_frac r1) ++ fst (scan_exp (snd (scan_frac r1)))).
    assert (Hr : r = snd (scan_exp (snd (scan_frac r1)))).
    { destruct (fst (scan_frac r1)), (fst (scan_exp (snd (scan_frac r1))));
        injection H as _ <-; reflexivity. }
    split.
    - rewrite Hs, Hr, <- !List.app_assoc, <- E1, <- F1. reflexivity.
    - rewrite !forallb_app, Hip, F2, E2. reflexivity. }
  destruct (N.eqb_spec c0 48) as [->|].
  - cbv zeta. apply Tail; reflexivity.
  - destruct (is_digit c0) eqn:Hd; [|discriminate]. cbv zeta. cbn [fst snd].
    apply Tail.
    + cbn [forallb]. unfold num_char at 1. rewrite Hd.
      rewrite (digit_num_char _ (span_digits_fst s)). reflexivity.
    + cbn [List.app]. now rewrite <- span_digits_split.
Qed.

Lemma scan_number_split s v r :
  scan_number s = Some (v, r) ->
  exists c, s = c ++ r /\ forallb num_char c = true.
Proof.
  destruct s as [|c0 s]; [discriminate|]. unfold scan_number.
  destruct (N.eqb_spec c0 45) as [->|].
  - intros H. destruct (scan_unsigned_split _ _ _ _ H) as (c & -> & Hc).
    exists (45 :: c). split; [reflexivity|]. cbn [forallb]. now rewrite Hc.
  - apply scan_unsigned_split.
Qed.

Lemma num_char_atom c : num_char c = true -> atom_char c = true.
Proof.
  unfold num_char, atom_char, is_digit, is_ws. intros H.
  repeat match goal with
         | |- context [?a =? ?b] => destruct (N.eqb_spec a b)
         end; subst; try reflexivity; try discriminate.
Qed.

Lemma num_chars_atom s :
  forallb num_char s = true -> forallb atom_char s = true.
Proof.
  induction s as [|c s IH]; [reflexivity|]. cbn [forallb]. intros H.
  apply andb_prop in H. destruct H as [Hc Hs].
  now rewrite (num_char_atom c Hc), (IH Hs).
Qed.

Lemma scan_atom_split s v r :
  scan_atom s = Ok (v, r) -> exists c, s = c ++ r.
Proof.
  unfold scan_atom. intros H.
  repeat match type of H with
         | match strip_prefix ?p s with _ => _ end = _ =>
             let E := fresh "E" in
             destruct (strip_prefix p s) eqn:E;
             [injection H as _ <-; exists p; exact (strip_prefix_app _ _ _ E)|]
         end.
  destruct (scan_number s) as [[v' r']|] eqn:En.
  - injection H as _ <-.
    destruct (scan_number_split _ _ _ En) as (c & Hc & _). eauto.
  - repeat match type of H with
           | match strip_prefix ?p s with _ => _ end = _ =>
               let E := fresh "E" in
               destruct (strip_prefix p s) eqn:E;
               [injection H as _ <-; exists p;
                exact (strip_prefix_app _ _ _ E)|]
           end.
    discriminate.
Qed.

(** The text of a constant or a number. *)
Lemma atom_text v :
  json_native v = true -> is_container v = false ->
  forallb atom_char (render v) = true.
Proof.
  destruct v as [ |[|]|z|[lit| |[|]]|s|l|l|d|n]; intros Hn Hc;
    try discriminate; try reflexivity.
  - apply num_chars_atom. destruct z as [|p|p]; cbn [render repr_int].
    + reflexivity.
    + apply digit_num_char, uint_digits_all_digits.
    + cbn [forallb].
      now rewrite (digit_num_char _ (uint_digits_all_digits _)).
  - cbn [json_native] in Hn. apply float_literal_scan in Hn.
    destruct (scan_number_split _ _ _ Hn) as (c & Hc' & Hnum).
    rewrite List.app_nil_r in Hc'. subst c. cbn [render float_repr].
    apply num_chars_atom, Hnum.
Qed.

Lemma atom_char_head c r f :
  atom_char c = true -> scan_once (S f) (c :: r) = scan_atom (c :: r).
Proof.
  intros H. apply scan_once_atom; intros ->; discriminate.
Qed.

(** A constant or a number that is cut short. *)
Lemma atom_cut v p q fuel :
  json_native v = true -> is_container v = false ->
  p ++ q = render v ->
  cut_short v (scan_once fuel p).
Proof.
  intros Hn Hc Hp.
  pose proof (atom_text v Hn Hc) as Ha. rewrite <- Hp, forallb_app in Ha.
  apply andb_prop in Ha. destruct Ha as [Ha _].
  destruct fuel as [|f]; [exact I|].
  destruct p as [|c p]; [exact I|].
  cbn [forallb] in Ha. apply andb_prop in Ha.
  rewrite atom_char_head by apply Ha.
  destruct (scan_atom (c :: p)) as [[v' r']|e] eqn:E; [|exact I].
  split; [exact Hc|]. cbn [snd].
  destruct (scan_atom_split _ _ _ E) as (c' & Hc').
  assert (Hall : forallb atom_char (c :: p) = true).
  { cbn [forallb]. now rewrite (proj1 Ha), (proj2 Ha). }
  rewrite Hc', forallb_app in Hall. apply andb_prop in Hall. apply Hall.
Qed.

(** *** Arrays *)

Lemma parse_array_nil f acc : exists e, parse_array f [] acc = Raise e.
Proof.
  destruct f as [|[|f]]; eexists; reflexivity.
Qed.

Lemma skip_ws_atom r :
  forallb atom_char r = true -> skip_ws r = r.
Proof.
  destruct r as [|c r]; [reflexivity|]. cbn [forallb]. intros H.
  apply andb_prop in H. destruct H as [H _].
  apply skip_ws_head. unfold atom_char in H.
  destruct (is_ws c); [discriminate|reflexivity].
Qed.

(** After a value that was cut short an array does not go on. *)
Lemma array_stops_after_cut v x f acc :
  cut_short v x ->
  exists e,
    res_bind x (fun p =>
      match skip_ws (snd p) with
      | c :: r =>
          if c =? 93 then Ok (PList (List.rev (fst p :: acc)), r)
          else if c =? 44 then parse_array f (skip_ws r) (fst p :: acc)
          else Raise (JSONDecodeError (text "Expecting ',' delimiter"))
      | [] => Raise (JSONDecodeError (text "Expecting ',' delimiter"))
      end) = Raise e.
Proof.
  destruct x as [[v' r']|e]; cbn [cut_short res_bind snd fst];
    [|eexists; reflexivity].
  intros [_ Ha]. rewrite (skip_ws_atom _ Ha).
  destruct r' as [|c r]; [eexists; reflexivity|].
  cbn [forallb] in Ha. apply andb_prop in Ha. destruct Ha as [Hc _].
  unfold atom_char in Hc.
  destruct (c =? 93); [rewrite !andb_false_r in Hc; discriminate|].
  destruct (c =? 44); [rewrite !andb_false_r in Hc; discriminate|].
  eexists; reflexivity.
Qed.

Lemma array_cut l :
  forall x p q acc f,
    Forall (fun y => json_native y = true -> cuts_short y) (x :: l) ->
    forallb json_native (x :: l) = true ->
    p ++ q = join (text ", ") (map render (x :: l)) ++ [93] ->
    q <> [] ->
    exists e, parse_array f p acc = Raise e.
Proof.
  induction l as [|y l IH]; intros x p q acc f HT Hn Hp Hq.
  - (* the last element *)
    destruct f as [|f]; [eexists; reflexivity|]. cbn [parse_array].
    cbn [forallb] in Hn. apply andb_prop in Hn. destruct Hn as [Hx _].
    pose proof (Forall_inv HT Hx) as Tx.
    cbn [map join] in Hp.
    apply List.app_eq_app in Hp. destruct Hp as (m & [[-> Hm]|[Hm ->]]).
    + (* the element is whole *)
      destruct m as [|c m].
      2:{ injection Hm as _ Hm. destruct m; [|discriminate].
          cbn in Hm. congruence. }
      rewrite List.app_nil_r.
      destruct (reads_back_or_raise x [] f Hx eq_refl) as [H|(e & H)];
        rewrite List.app_nil_r in H; rewrite H; eexists; reflexivity.
    + destruct m as [|c m].
      * rewrite List.app_nil_r in Hm. subst p.
        destruct (reads_back_or_raise x [] f Hx eq_refl) as [H|(e & H)];
          rewrite List.app_nil_r in H; rewrite H; eexists; reflexivity.
      * apply (array_stops_after_cut x). apply (Tx p (c :: m) f).
        -- symmetry; exact Hm.
        -- discriminate.
  - destruct f as [|f]; [eexists; reflexivity|]. cbn [parse_array].
    pose proof Hn as Hn'.
    cbn [forallb] in Hn. apply andb_prop in Hn. destruct Hn as [Hx Hl].
    pose proof (Forall_inv HT Hx) as Tx.
    cbn [map] in Hp. rewrite join_cons in Hp. cbn [map] in Hp.
    rewrite <- List.app_assoc in Hp.
    assert (Whole : forall m,
               (text ", " ++ join (text ", ") (render y :: map render l))
               ++ [93] = m ++ q ->
               exists e,
                 res_bind (scan_once f (render x ++ m)) (fun p0 =>
                   match skip_ws (snd p0) with
                   | c :: r =>
                       if c =? 93
                       then Ok (PList (List.rev (fst p0 :: acc)), r)
                       else if c =? 44
                            then parse_array f (skip_ws r) (fst p0 :: acc)
                            else Raise (JSONDecodeError
                                          (text "Expecting ',' delimiter"))
                   | [] => Raise (JSONDecodeError
                                    (text "Expecting ',' delimiter"))
                   end) = Raise e).
    { intros m Hm.
      remember (join (text ", ") (render y :: map render l)) as J eqn:HJ.
      change (text ", ") with [44; 32] in Hm. cbn [List.app] in Hm.
      assert (Hstop : number_stops m = true).
      { destruct m as [|c m]; [reflexivity|]. injection Hm as <- _.
        reflexivity. }
      destruct (reads_back_or_raise x m f Hx Hstop) as [H|(e & H)];
        rewrite H; cbn [res_bind fst snd]; [|eexists; reflexivity].
      destruct m as [|c m]; [eexists; reflexivity|].
      injection Hm as <- Hm.
      change (skip_ws (44 :: m)) with (44 :: m).
      change (44 =? 93) with false. change (44 =? 44) with true. cbv iota.
      destruct m as [|c m]; [apply parse_array_nil|].
      injection Hm as <- Hm.
      change (skip_ws (32 :: m)) with (skip_ws m).
      destruct m as [|c m]; [apply parse_array_nil|].
      cbn [forallb] in Hl. pose proof (proj1 (andb_prop _ _ Hl)) as Hy.
      destruct (render_head y Hy) as (c' & r' & Hr & Hws & _).
      assert (c = c').
      { rewrite HJ, join_cons, Hr in Hm. cbn [List.app] in Hm.
        injection Hm as -> _. reflexivity. }
      subst c'. rewrite (skip_ws_head c m Hws).
      apply (IH y (c :: m) q (x :: acc) f).
      - exact (Forall_inv_tail HT).
      - exact Hl.
      - rewrite <- Hm, HJ. reflexivity.
      - exact Hq. }
    apply List.app_eq_app in Hp. destruct Hp as (m & [[-> Hm]|[Hm ->]]).
    + apply Whole. exact Hm.
    + destruct m as [|c m].
      * rewrite List.app_nil_r in Hm. subst p.
        rewrite <- (List.app_nil_r (render x)). apply Whole. reflexivity.
      * apply (array_stops_after_cut x). apply (Tx p (c :: m) f).
        -- symmetry; exact Hm.
        -- discriminate.
Qed.

(** *** Objects *)

Lemma scan_once_nil f : exists e, scan_once f [] = Raise e.
Proof. destruct f; eexists; reflexivity. Qed.

Lemma parse_object_nil f acc : exists e, parse_object f [] acc = Raise e.
Proof. destruct f; eexists; reflexivity. Qed.

(** After a value that was cut short an object does not go on. *)
Lemma object_stops_after_cut v x f k acc :
  cut_short v x ->
  exists e,
    res_bind x (fun p =>
      let acc' := dict_set k (fst p) acc in
      match skip_ws (snd p) with
      | c2 :: r2 =>
          if c2 =? 125 then Ok (PDict acc', r2)
          else if c2 =? 44 then parse_object f (skip_ws r2) acc'
          else Raise (JSONDecodeError (text "Expecting ',' delimiter"))
      | [] => Raise (JSONDecodeError (text "Expecting ',' delimiter"))
      end) = Raise e.
Proof.
  destruct x as [[v' r']|e]; cbn [cut_short res_bind snd fst];
    [|eexists; reflexivity].
  intros [_ Ha]. cbv zeta. rewrite (skip_ws_atom _ Ha).
  destruct r' as [|c r]; [eexists; reflexivity|].
  cbn [forallb] in Ha. apply andb_prop in Ha. destruct Ha as [Hc _].
  unfold atom_char in Hc.
  destruct (c =? 125); [rewrite !andb_false_r in Hc; discriminate|].
  destruct (c =? 44); [rewrite !andb_false_r in Hc; discriminate|].
  eexists; reflexivity.
Qed.

(** One item of an object whose text is cut before [q]: the key, the
    colon, the value, and what follows it. *)
Lemma object_item_cut k v tl p q acc f :
  str_ok k = true -> json_native v = true -> cuts_short v ->
  p ++ q = encode_str k ++ text ": " ++ render v ++ tl ->
  q <> [] ->
  (forall m, tl = m ++ q -> number_stops m = true) ->
  (forall m acc', tl = m ++ q ->
     exists e,
       match skip_ws m with
       | c2 :: r2 =>
           if c2 =? 125 then Ok (PDict acc', r2)
           else if c2 =? 44 then parse_object f (skip_ws r2) acc'
           else Raise (JSONDecodeError (text "Expecting ',' delimiter"))
       | [] => Raise (JSONDecodeError (text "Expecting ',' delimiter"))
       end = Raise e) ->
  exists e, parse_object (S f) p acc = Raise e.
Proof.
  intros Hk Hv Tv Hp Hq Hstop Hnext.
  destruct p as [|c0 r]; [eexists; reflexivity|].
  unfold encode_str in Hp. change (text ": ") with [58; 32] in Hp.
  cbn [List.app] in Hp. injection Hp as -> Hp. cbn [parse_object].
  change (34 =? 34) with true. cbv iota.
  rewrite <- List.app_assoc in Hp. cbn [List.app] in Hp.
  assert (Hp' : r ++ q
                = (flat_map escape_char k ++ [34])
                  ++ 58 :: 32 :: render v ++ tl)
    by (rewrite Hp, <- List.app_assoc; reflexivity).
  clear Hp.
  (* after the key *)
  assert (Whole : forall m,
             m ++ q = 58 :: 32 :: render v ++ tl ->
             exists e,
               res_bind (scanstring ((flat_map escape_char k ++ [34]) ++ m))
                 (fun k0 =>
                    match skip_ws (snd k0) with
                    | c1 :: r1 =>
                        if c1 =? 58
                        then
                          res_bind (scan_once f (skip_ws r1)) (fun p0 =>
                            let acc' := dict_set (fst k0) (fst p0) acc in
                            match skip_ws (snd p0) with
                            | c2 :: r2 =>
                                if c2 =? 125 then Ok (PDict acc', r2)
                                else if c2 =? 44
                                     then parse_object f (skip_ws r2) acc'
                                     else Raise (JSONDecodeError
                                            (text "Expecting ',' delimiter"))
                            | [] => Raise (JSONDecodeError
                                             (text "Expecting ',' delimiter"))
                            end)
                        else Raise (JSONDecodeError
                                      (text "Expecting ':' delimiter"))
                    | [] => Raise (JSONDecodeError
                                     (text "Expecting ':' delimiter"))
                    end) = Raise e).
  { intros m Hm. rewrite <- List.app_assoc. cbn [List.app].
    rewrite (scanstring_encode k m Hk). cbn [res_bind fst snd].
    destruct m as [|c1 m]; [eexists; reflexivity|].
    injection Hm as -> Hm.
    change (skip_ws (58 :: m)) with (58 :: m).
    change (58 =? 58) with true. cbv iota.
    destruct m as [|c2 m].
    { destruct (scan_once_nil f) as (e & He).
      change (skip_ws []) with (@nil N). rewrite He.
      eexists; reflexivity. }
    injection Hm as -> Hm.
    change (skip_ws (32 :: m)) with (skip_ws m).
    destruct m as [|c3 m].
    { destruct (scan_once_nil f) as (e & He).
      change (skip_ws []) with (@nil N). rewrite He.
      eexists; reflexivity. }
    destruct (render_head v Hv) as (cv & rv & Hrv & Hws & _).
    assert (c3 = cv).
    { rewrite Hrv in Hm. cbn [List.app] in Hm. injection Hm as -> _.
      reflexivity. }
    subst c3. rewrite (skip_ws_head cv m Hws).
    assert (Value : forall m', tl = m' ++ q ->
               exists e,
                 res_bind (scan_once f (render v ++ m')) (fun p0 =>
                   let acc' := dict_set k (fst p0) acc in
                   match skip_ws (snd p0) with
                   | c2 :: r2 =>
                       if c2 =? 125 then Ok (PDict acc', r2)
                       else if c2 =? 44
                            then parse_object f (skip_ws r2) acc'
                            else Raise (JSONDecodeError
                                          (text "Expecting ',' delimiter"))
                   | [] => Raise (JSONDecodeError
                                    (text "Expecting ',' delimiter"))
                   end) = Raise e).
    { intros m' Hm'.
      destruct (reads_back_or_raise v m' f Hv (Hstop m' Hm')) as [H|(e & H)];
        rewrite H; cbn [res_bind fst snd]; [|eexists; reflexivity].
      cbv zeta. apply Hnext. exact Hm'. }
    apply List.app_eq_app in Hm. destruct Hm as (m' & [[Hm1 Hm2]|[Hm1 Hm2]]).
    - rewrite Hm1. apply Value. exact Hm2.
    - destruct m' as [|c4 m'].
      + rewrite List.app_nil_r in Hm1. cbn [List.app] in Hm2.
        rewrite <- Hm1, <- (List.app_nil_r (render v)).
        apply Value. symmetry. exact Hm2.
      + apply (object_stops_after_cut v). apply (Tv (cv :: m) (c4 :: m') f).
        * symmetry; exact Hm1.
        * discriminate. }
  apply List.app_eq_app in Hp'. destruct Hp' as (m & [[-> Hm]|[Hm ->]]).
  - apply Whole. symmetry. exact Hm.
  - destruct m as [|cm m].
    + rewrite List.app_nil_r in Hm. subst r.
      rewrite <- (List.app_nil_r (flat_map escape_char k ++ [34])).
      apply Whole. reflexivity.
    + destruct (encoded_string_cut k Hk r (cm :: m) (eq_sym Hm)
                  ltac:(discriminate)) as (e & ->).
      eexists; reflexivity.
Qed.

Lemma object_cut d :
  forall k v p q acc f,
    Forall (fun kv => json_native (snd kv) = true -> cuts_short (snd kv))
      ((KStr k, v) :: d) ->
    forallb (fun kv =>
               match fst kv with
               | KStr k => str_ok k
               | _ => false
               end && json_native (snd kv)) ((KStr k, v) :: d) = true ->
    p ++ q
    = join (text ", ")
        (map (fun kv => encode_str (key_str (fst kv))
                        ++ text ": " ++ render (snd kv))
           ((KStr k, v) :: d))
      ++ [125] ->
    q <> [] ->
    exists e, parse_object f p acc = Raise e.
Proof.
  induction d as [|kv' d IH]; intros k v p q acc f HT Hn Hp Hq.
  all: destruct f as [|f]; [eexists; reflexivity|].
  all: cbn [forallb fst snd] in Hn; apply andb_prop in Hn;
    destruct Hn as [Hkv Hd]; apply andb_prop in Hkv;
    destruct Hkv as [Hk Hv].
  all: pose proof (Forall_inv HT Hv) as Tv; cbn [snd] in Tv.
  - apply (object_item_cut k v [125] p q acc f Hk Hv Tv); [|exact Hq| |].
    + rewrite Hp. cbn [map join fst snd key_str].
      rewrite <- !List.app_assoc. reflexivity.
    + intros [|c m] Hm; [reflexivity|]. injection Hm as <- _. reflexivity.
    + intros [|c m] acc' Hm; [eexists; reflexivity|].
      injection Hm as _ Hm. destruct m; [|discriminate].
      cbn in Hm. congruence.
  - destruct kv' as [k' v']. cbn [fst snd] in Hd.
    apply andb_prop in Hd. destruct Hd as [Hkv' Hd].
    destruct k' as [k'| | | |]; try discriminate.
    remember (join (text ", ")
                (map (fun kv => encode_str (key_str (fst kv))
                                ++ text ": " ++ render (snd kv))
                   ((KStr k', v') :: d))) as J eqn:HJ.
    apply (object_item_cut k v (44 :: 32 :: J ++ [125]) p q acc f Hk Hv Tv);
      [|exact Hq| |].
    + rewrite Hp. cbn [map]. rewrite join_cons. cbn [map fst snd key_str].
      rewrite HJ. cbn [map fst snd key_str].
      rewrite <- !List.app_assoc. reflexivity.
    + intros [|c m] Hm; [reflexivity|]. injection Hm as <- _. reflexivity.
    + intros [|c m] acc' Hm; [eexists; reflexivity|].
      injection Hm as <- Hm.
      change (skip_ws (44 :: m)) with (44 :: m).
      change (44 =? 125) with false. change (44 =? 44) with true. cbv iota.
      destruct m as [|c m]; [apply parse_object_nil|].
      injection Hm as <- Hm.
      change (skip_ws (32 :: m)) with (skip_ws m).
      destruct m as [|c m]; [apply parse_object_nil|].
      assert (c = 34).
      { rewrite HJ in Hm. cbn [map] in Hm. rewrite join_cons in Hm.
        cbn [fst snd key_str] in Hm. unfold encode_str in Hm.
        cbn [List.app] in Hm. injection Hm as -> _. reflexivity. }
      subst c. change (skip_ws (34 :: m)) with (34 :: m).
      apply (IH k' v' (34 :: m) q acc' f).
      * exact (Forall_inv_tail HT).
      * cbn [forallb fst snd]. rewrite Hkv', Hd. reflexivity.
      * rewrite <- Hm, HJ. reflexivity.
      * exact Hq.
Qed.

(** *** Every value *)

Lemma cut_short_raise v x :
  (exists e, x = Raise e) -> cut_short v x.
Proof. intros (e & ->). exact I. Qed.

Lemma render_cuts_short v : json_native v = true -> cuts_short v.
Proof.
  induction v as [ |b|z|f|s|l IH|l IH|d IH|n] using pyval_induction;
    intros Hn p q fuel Hp Hq; try discriminate.
  - exact (atom_cut PNone p q fuel Hn eq_refl Hp).
  - exact (atom_cut (PBool b) p q fuel Hn eq_refl Hp).
  - exact (atom_cut (PInt z) p q fuel Hn eq_refl Hp).
  - exact (atom_cut (PFloat f) p q fuel Hn eq_refl Hp).
  - apply cut_short_raise.
    destruct fuel as [|fuel]; [eexists; reflexivity|].
    destruct p as [|c p]; [eexists; reflexivity|].
    cbn [render] in Hp. unfold encode_str in Hp. cbn [List.app] in Hp.
    injection Hp as -> Hp. cbn [scan_once].
    change (34 =? 34) with true. cbv iota.
    destruct (encoded_string_cut s Hn p q Hp Hq) as (e & ->).
    eexists; reflexivity.
  - apply cut_short_raise.
    destruct fuel as [|fuel]; [eexists; reflexivity|].
    destruct p as [|c p]; [eexists; reflexivity|].
    cbn [render] in Hp. cbn [List.app] in Hp.
    injection Hp as -> Hp. cbn [scan_once].
    change (91 =? 34) with false. change (91 =? 123) with false.
    change (91 =? 91) with true. cbv iota.
    destruct p as [|c p]; [apply parse_array_nil|].
    destruct l as [|x l].
    { cbn in Hp. injection Hp as _ Hp. destruct p; [|discriminate].
      cbn in Hp. congruence. }
    cbn [json_native] in Hn.
    pose proof (proj1 (andb_prop _ _ Hn)) as Hx.
    destruct (render_head x Hx) as (c' & r' & Hr & Hws & H93 & _).
    assert (c = c').
    { cbn [map] in Hp. rewrite join_cons, Hr in Hp. cbn [List.app] in Hp.
      injection Hp as -> _. reflexivity. }
    subst c'. rewrite (skip_ws_head c p Hws).
    destruct (N.eqb_spec c 93) as [->|_]; [congruence|].
    apply (array_cut l x (c :: p) q [] fuel IH Hn Hp Hq).
  - apply cut_short_raise.
    destruct fuel as [|fuel]; [eexists; reflexivity|].
    destruct p as [|c p]; [eexists; reflexivity|].
    cbn [render] in Hp. cbn [List.app] in Hp.
    injection Hp as -> Hp. cbn [scan_once].
    change (123 =? 34) with false. change (123 =? 123) with true. cbv iota.
    destruct p as [|c p]; [apply parse_object_nil|].
    destruct d as [|[k v] d].
    { cbn in Hp. injection Hp as _ Hp. destruct p; [|discriminate].
      cbn in Hp. congruence. }
    cbn [json_native] in Hn. apply andb_prop in Hn. destruct Hn as [Hn _].
    pose proof Hn as Hn'. cbn [forallb fst snd] in Hn'.
    destruct k as [k| | | |]; try discriminate.
    assert (c = 34).
    { cbn [map] in Hp. rewrite join_cons in Hp.
      cbn [fst snd key_str] in Hp. unfold encode_str in Hp.
      cbn [List.app] in Hp. injection Hp as -> _. reflexivity. }
    subst c. change (skip_ws (34 :: p)) with (34 :: p).
    change (34 =? 125) with false. cbv iota.
    apply (object_cut d k v (34 :: p) q [] fuel IH Hn Hp Hq).
Qed.

Local Close Scope N_scope.

Lemma forallb_firstn {A} (f : A -> bool) n l :
  forallb f l = true -> forallb f (firstn n l) = true.
Proof.
  revert l. induction n as [|n IH]; intros [|x l] H; try reflexivity.
  cbn [firstn forallb] in *. apply andb_prop in H.
  now rewrite (proj1 H), (IH l (proj2 H)).
Qed.

(** A strict prefix of the text of a string, an array or an object is no
    JSON document. *)
Lemma cut_document v n :
  json_native v = true -> is_container v = true ->
  n < List.length (render v) ->
  exists m, json_loads (firstn n (render v)) = Raise (JSONDecodeError m).
Proof.
  intros Hn Hc Hlen.
  assert (Hp : firstn n (render v) ++ skipn n (render v) = render v)
    by apply firstn_skipn.
  assert (Hq : skipn n (render v) <> []).
  { intros E. apply (f_equal (@List.length N)) in E.
    rewrite length_skipn in E. cbn in E. lia. }
  destruct (render_head v Hn) as (c & r & Hr & Hws & _).
  assert (Hhead : c = 34%N \/ c = 91%N \/ c = 123%N).
  { destruct v; try discriminate; cbn [render] in Hr; unfold encode_str in Hr;
      cbn [List.app] in Hr; injection Hr as <- _; auto. }
  pose proof (json_loads_ok (firstn n (render v))) as Hok.
  destruct (json_loads (firstn n (render v))) as [v0|e] eqn:E.
  - exfalso. unfold json_loads in E.
    pose proof (render_cuts_short v Hn (firstn n (render v))
                  (skipn n (render v))
                  (2 * List.length (firstn n (render v)) + 2) Hp Hq) as C.
    assert (Hskip : skip_ws (firstn n (render v)) = firstn n (render v)).
    { rewrite Hr. destruct n; [reflexivity|]. cbn [firstn].
      apply skip_ws_head, Hws. }
    assert (Hbom : startswith [65279%N] (firstn n (render v)) = false).
    { rewrite Hr. destruct n; [reflexivity|]. cbn [firstn].
      destruct Hhead as [->|[->| ->]]; reflexivity. }
    rewrite Hbom, Hskip in E.
    destruct (scan_once _ (firstn n (render v))) as [[v1 r1]|e1];
      [|discriminate].
    destruct C as [C _]. congruence.
  - destruct e; try discriminate. eauto.
Qed.

Lemma cut_reply v n :
  json_native v = true -> is_container v = true ->
  n < List.length (render v) ->
  exists m,
    decode_reply (firstn n (ascii_bytes (render v)))
    = Raise (JSONDecodeError m).
Proof.
  intros Hn Hc Hlen.
  destruct (cut_document v n Hn Hc Hlen) as (m & Hm). exists m.
  unfold decode_reply, ascii_bytes. rewrite firstn_map.
  fold (ascii_bytes (firstn n (render v))).
  rewrite bytes_decode_ascii by apply forallb_firstn, render_ascii, Hn.
  exact Hm.
Qed.

(** X20. A reply of more than 1024 bytes, written as [json.dumps] writes a
    string, an array or an object, is cut by the one read of at most 1024
    bytes: what was read is no JSON document, and [call_api] returns the
    decoding error behind the two error prefixes. *)
Theorem oversized_reply_fails W p a k st data reply :
  json_native reply = true ->
  is_container reply = true ->
  1024 < List.length (render reply) ->
  live W (connection_of st) (os st) data (ascii_bytes (render reply)) ->
  encode_command (api_command p a k) = Ok data ->
  exists m,
    decode_reply (firstn 1024 (ascii_bytes (render reply)))
    = Raise (JSONDecodeError m) /\
    snd (call_api W p a k st)
    = Ok (text "Error: Error communicating with GIMP: " ++ m).
Proof.
  intros Hn Hc Hlen Hl He.
  destruct (cut_reply reply 1024 Hn Hc Hlen) as (m & Hm).
  exists m. split; [exact Hm|].
  destruct (call_api_live W p a k st data _ Hl He) as (H1 & _).
  rewrite H1, Hm. reflexivity.
Qed.

Lemma oversized_reply_fails_witness :
  let reply := success_reply (PStr (List.repeat 97%N 1100)) in
  let W := plugin_world [(get_by_id, render reply)] in
  exists m,
    decode_reply (firstn 1024 (ascii_bytes (render reply)))
    = Raise (JSONDecodeError m) /\
    snd (call_api W get_by_id (PList [PInt 1]) (PDict []) initial_state)
    = Ok (text "Error: Error communicating with GIMP: " ++ m).
Proof.
  refine (oversized_reply_fails
            (plugin_world
               [(get_by_id,
                 render (success_reply (PStr (List.repeat 97%N 1100))))])
            get_by_id (PList [PInt 1]) (PDict []) initial_state
            (request_bytes get_by_id (PList [PInt 1]) (PDict []))
            (success_reply (PStr (List.repeat 97%N 1100))) _ _ _ _ _).
  - vm_compute; reflexivity.
  - reflexivity.
  - apply Nat.ltb_lt; vm_compute; reflexivity.
  - repeat split; vm_compute; reflexivity.
  - vm_compute; reflexivity.
Defined.
(* ================================================================= *)
(** ** UTF-8 on the wire *)

Local Open Scope N_scope.

(** The base-64 digits of a code point. *)
Lemma digits64 c :
  exists d0 d1 d2 d3,
    c = d0 + 64 * (d1 + 64 * (d2 + 64 * d3)) /\
    d0 < 64 /\ d1 < 64 /\ d2 < 64 /\
    c mod 64 = d0 /\ c / 64 = d1 + 64 * (d2 + 64 * d3) /\
    (c / 64) mod 64 = d1 /\ c / 4096 = d2 + 64 * d3 /\
    (c / 4096) mod 64 = d2 /\ c / 262144 = d3.
Proof.
  exists (c mod 64), ((c / 64) mod 64), ((c / 64 / 64) mod 64),
    (c / 64 / 64 / 64).
  pose proof (N.div_mod c 64 ltac:(discriminate)) as H0.
  pose proof (N.div_mod (c / 64) 64 ltac:(discriminate)) as H1.
  pose proof (N.div_mod (c / 64 / 64) 64 ltac:(discriminate)) as H2.
  pose proof (N.mod_upper_bound c 64 ltac:(discriminate)) as B0.
  pose proof (N.mod_upper_bound (c / 64) 64 ltac:(discriminate)) as B1.
  pose proof (N.mod_upper_bound (c / 64 / 64) 64 ltac:(discriminate)) as B2.
  assert (E1 : c / 4096 = c / 64 / 64)
    by (rewrite N.Div0.div_div; reflexivity).
  assert (E2 : c / 262144 = c / 64 / 64 / 64)
    by (rewrite !N.Div0.div_div; reflexivity).
  rewrite E1, E2.
  generalize dependent (c / 64 / 64 / 64). intros d3.
  generalize dependent ((c / 64 / 64) mod 64). intros d2.
  generalize dependent (c / 64 / 64). intros q2.
  generalize dependent ((c / 64) mod 64). intros d1.
  generalize dependent (c / 64). intros q1.
  generalize dependent (c mod 64). intros d0.
  intros. subst. repeat split; try assumption; lia.
Qed.

Lemma utf8_decode_cons b0 r :
  utf8_decode (b0 :: r)
  = if b0 <? 128 then option_map (cons b0) (utf8_decode r)
    else if (194 <=? b0) && (b0 <=? 223) then
      match r with
      | b1 :: r1 =>
          if is_cont b1 then
            option_map (cons ((b0 - 192) * 64 + (b1 - 128))) (utf8_decode r1)
          else None
      | _ => None
      end
    else if (224 <=? b0) && (b0 <=? 239) then
      match r with
      | b1 :: b2 :: r2 =>
          if ((if b0 =? 224 then 160 else 128) <=? b1)
             && (b1 <=? (if b0 =? 237 then 159 else 191))
             && is_cont b2 then
            option_map
              (cons ((b0 - 224) * 4096 + (b1 - 128) * 64 + (b2 - 128)))
              (utf8_decode r2)
          else None
      | _ => None
      end
    else if (240 <=? b0) && (b0 <=? 244) then
      match r with
      | b1 :: b2 :: b3 :: r3 =>
          if ((if b0 =? 240 then 144 else 128) <=? b1)
             && (b1 <=? (if b0 =? 244 then 143 else 191))
             && is_cont b2 && is_cont b3 then
            option_map
              (cons ((b0 - 240) * 262144 + (b1 - 128) * 4096
                     + (b2 - 128) * 64 + (b3 - 128)))
              (utf8_decode r3)
          else None
      | _ => None
      end
    else None.
Proof. reflexivity. Qed.

(** Decoding reads back one encoded character. *)
Lemma utf8_char_round_trip c bs rest :
  utf8_encode_char c = Some bs ->
  utf8_decode (bs ++ rest) = option_map (cons c) (utf8_decode rest).
Proof.
  unfold utf8_encode_char, is_surrogate.
  destruct (digits64 c)
    as (d0 & d1 & d2 & d3 & Hc & B0 & B1 & B2 & M0 & Q1 & M1 & Q2 & M2 & Q3).
  rewrite ?M0, ?M1, ?M2, ?Q1, ?Q2, ?Q3. clear M0 Q1 M1 Q2 M2 Q3.
  remember (192 + (d1 + 64 * (d2 + 64 * d3))) as x2 eqn:X2.
  remember (224 + (d2 + 64 * d3)) as x3 eqn:X3.
  remember (240 + d3) as x4 eqn:X4.
  remember (128 + d0) as y0 eqn:Y0.
  remember (128 + d1) as y1 eqn:Y1.
  remember (128 + d2) as y2 eqn:Y2.
  destruct (N.ltb_spec c 128).
  { intros E. assert (Hb : bs = [c]) by congruence. subst bs. clear E.
    change ([c] ++ rest) with (c :: rest).
    rewrite utf8_decode_cons. decide_tests. reflexivity. }
  destruct (N.ltb_spec c 2048).
  { intros E. assert (Hb : bs = [x2; y0]) by congruence. subst bs. clear E.
    change ([x2; y0] ++ rest) with (x2 :: y0 :: rest).
    rewrite utf8_decode_cons. unfold is_cont.
    decide_tests. cbv beta iota delta [andb]. do 2 f_equal. lia. }
  destruct (N.ltb_spec c 65536).
  { destruct (N.leb_spec 55296 c); destruct (N.leb_spec c 57343);
      cbv beta iota delta [andb]; try discriminate.
    all: intros E; assert (Hb : bs = [x3; y1; y0]) by congruence;
      subst bs; clear E;
      change ([x3; y1; y0] ++ rest) with (x3 :: y1 :: y0 :: rest);
      rewrite utf8_decode_cons; unfold is_cont.
    all: decide_tests;
      repeat match goal with
             | |- context [?a =? ?b] => destruct (N.eqb_spec a b)
             end;
      cbv beta iota delta [andb]; decide_tests;
      cbv beta iota delta [andb]; do 2 f_equal; lia. }
  destruct (N.ltb_spec c 1114112); [|discriminate].
  intros E. assert (Hb : bs = [x4; y2; y1; y0]) by congruence.
  subst bs. clear E.
  change ([x4; y2; y1; y0] ++ rest) with (x4 :: y2 :: y1 :: y0 :: rest).
  rewrite utf8_decode_cons. unfold is_cont.
  decide_tests;
    repeat match goal with
           | |- context [?a =? ?b] => destruct (N.eqb_spec a b)
           end;
    cbv beta iota delta [andb]; decide_tests;
    cbv beta iota delta [andb]; do 2 f_equal; lia.
Qed.

Lemma utf8_char_bytes c bs :
  utf8_encode_char c = Some bs -> Forall (fun b => b < 256) bs.
Proof.
  unfold utf8_encode_char.
  destruct (digits64 c)
    as (d0 & d1 & d2 & d3 & Hc & B0 & B1 & B2 & M0 & Q1 & M1 & Q2 & M2 & Q3).
  rewrite ?M0, ?M1, ?M2, ?Q1, ?Q2, ?Q3. clear M0 Q1 M1 Q2 M2 Q3.
  destruct (N.ltb_spec c 128).
  { intros E. assert (Hb : bs = [c]) by congruence. subst bs.
    repeat constructor. lia. }
  destruct (N.ltb_spec c 2048).
  { intros E.
    assert (Hb : bs = [192 + (d1 + 64 * (d2 + 64 * d3)); 128 + d0])
      by congruence.
    subst bs. repeat constructor; lia. }
  destruct (N.ltb_spec c 65536).
  { destruct (is_surrogate c); [discriminate|]. intros E.
    assert (Hb : bs = [224 + (d2 + 64 * d3); 128 + d1; 128 + d0])
      by congruence.
    subst bs. repeat constructor; lia. }
  destruct (N.ltb_spec c 1114112); [|discriminate].
  intros E.
  assert (Hb : bs = [240 + d3; 128 + d2; 128 + d1; 128 + d0]) by congruence.
  subst bs. repeat constructor; lia.
Qed.

Lemma utf8_char_scalar c :
  scalar c = true -> exists bs, utf8_encode_char c = Some bs.
Proof.
  unfold scalar, code_point, utf8_encode_char. intros H.
  apply andb_prop in H. destruct H as [H1 H2].
  apply negb_true_iff in H2. rewrite H1, H2.
  repeat match goal with
         | |- context [if ?t then _ else _] => destruct t
         end; eauto.
Qed.

(** [bytes.decode] reads back what [str.encode] wrote. *)
Lemma utf8_round_trip s :
  forall bs, utf8_encode s = Some bs ->
             utf8_decode bs = Some s /\ Forall (fun b => b < 256) bs.
Proof.
  induction s as [|c s IH]; intros bs H; cbn [utf8_encode] in H.
  - injection H as <-. split; [reflexivity|constructor].
  - destruct (utf8_encode_char c) as [cs|] eqn:Ec; [|discriminate].
    destruct (utf8_encode s) as [rs|]; [|discriminate].
    injection H as <-. destruct (IH rs eq_refl) as [Hd Hb].
    rewrite (utf8_char_round_trip c cs rs Ec), Hd. split; [reflexivity|].
    apply Forall_app. split; [exact (utf8_char_bytes c cs Ec)|exact Hb].
Qed.

Lemma utf8_encode_scalar s :
  forallb scalar s = true -> exists bs, utf8_encode s = Some bs.
Proof.
  induction s as [|c s IH]; intros H; [eexists; reflexivity|].
  cbn [forallb] in H. apply andb_prop in H. destruct H as [Hc Hs].
  destruct (utf8_char_scalar c Hc) as (cs & Ec).
  destruct (IH Hs) as (rs & Er).
  exists (cs ++ rs). cbn [utf8_encode]. now rewrite Ec, Er.
Qed.

Lemma to_N_bytes bs :
  Forall (fun b => b < 256) bs -> map Byte.to_N (map byte_of_N bs) = bs.
Proof.
  induction 1 as [|b bs Hb _ IH]; [reflexivity|].
  cbn [map]. now rewrite (to_N_byte_of_N b Hb), IH.
Qed.

Local Close Scope N_scope.

(** X22. A reply that holds raw UTF-8 text is decoded to that text: every
    document without surrogates has a UTF-8 encoding, and decoding the
    bytes of that encoding gives what [json.loads] gives for the
    document. *)
Theorem utf8_reply_round_trip doc :
  forallb scalar doc = true ->
  exists b,
    str_encode doc = Ok b /\
    bytes_decode b = Ok doc /\
    decode_reply b = json_loads doc.
Proof.
  intros H. destruct (utf8_encode_scalar doc H) as (bs & E).
  destruct (utf8_round_trip doc bs E) as [Hd Hb].
  exists (map byte_of_N bs).
  assert (Hdec : bytes_decode (map byte_of_N bs) = Ok doc).
  { unfold bytes_decode. now rewrite (to_N_bytes bs Hb), Hd. }
  unfold str_encode, decode_reply. rewrite E, Hdec. auto.
Qed.

Lemma utf8_reply_round_trip_witness :
  let doc :=
    quoted "{'status': 'success', 'result': '"
    ++ [233%N; 8364%N; 128512%N] ++ quoted "'}" in
  exists b,
    str_encode doc = Ok b /\
    bytes_decode b = Ok doc /\
    decode_reply b = json_loads doc.
Proof.
  refine (utf8_reply_round_trip
            (quoted "{'status': 'success', 'result': '"
             ++ [233%N; 8364%N; 128512%N] ++ quoted "'}") _).
  vm_compute; reflexivity.
Defined.
(* ================================================================= *)
(** ** Calls in sequence and the text of [get_image_info] *)

(** X23. The text [get_image_info] returns parses back: [json.loads] gives
    the object whose width, height and layers fields are the three strings
    the sub-calls returned, each still a string to be parsed again. *)
Theorem image_info_text_parses w h l :
  str_ok w = true -> str_ok h = true -> str_ok l = true ->
  json_dumps (PDict [(KStr (text "width"), PStr w);
                     (KStr (text "height"), PStr h);
                     (KStr (text "layers"), PStr l)])
  = Ok (image_info_text w h l) /\
  json_loads (image_info_text w h l)
  = Ok (PDict [(KStr (text "width"), PStr w);
               (KStr (text "height"), PStr h);
               (KStr (text "layers"), PStr l)]).
Proof.
  intros Hw Hh Hl.
  assert (Hn : json_native
                 (PDict [(KStr (text "width"), PStr w);
                         (KStr (text "height"), PStr h);
                         (KStr (text "layers"), PStr l)]) = true).
  { cbn [json_native forallb fst snd]. rewrite Hw, Hh, Hl. reflexivity. }
  pose proof (dumps_image_info w h l) as Hd.
  split; [exact Hd|].
  rewrite (dumps_render _ Hn) in Hd.
  assert (E : render (PDict [(KStr (text "width"), PStr w);
                             (KStr (text "height"), PStr h);
                             (KStr (text "layers"), PStr l)])
              = image_info_text w h l) by congruence.
  rewrite <- E. apply json_loads_render, Hn.
Qed.

Lemma image_info_text_parses_witness :
  let w := text "800" in
  let h := quoted "Error: 'boom'" in
  let l := text "[0]" in
  json_dumps (PDict [(KStr (text "width"), PStr w);
                     (KStr (text "height"), PStr h);
                     (KStr (text "layers"), PStr l)])
  = Ok (image_info_text w h l) /\
  json_loads (image_info_text w h l)
  = Ok (PDict [(KStr (text "width"), PStr w);
               (KStr (text "height"), PStr h);
               (KStr (text "layers"), PStr l)]).
Proof.
  refine (image_info_text_parses (text "800") (quoted "Error: 'boom'")
            (text "[0]") _ _ _); vm_compute; reflexivity.
Defined.

Lemma connects_of_wire t :
  filter is_connect (wire_events t) = filter is_connect t.
Proof.
  unfold wire_events. induction t as [|e t IH]; [reflexivity|].
  destruct e; cbn; rewrite ?IH; reflexivity.
Qed.

(** X24. Two calls of [call_api] in a row use two connections: each call
    opens the next socket, connects it, writes its request and reads once,
    and leaves no handle for the call after it. *)
Theorem two_calls_two_connections W p1 a1 k1 p2 a2 k2 st data1 bytes1
  data2 bytes2 :
  live W (connection_of st) (os st) data1 bytes1 ->
  encode_command (api_command p1 a1 k1) = Ok data1 ->
  socket_create W (S (sockets (os st))) = None ->
  socket_connect W (S (sockets (os st)))
    (host (connection_of st)) (port (connection_of st)) = None ->
  socket_sendall W (S (sockets (os st))) data2 = None ->
  socket_recv W (S (sockets (os st))) data2 = inr bytes2 ->
  encode_command (api_command p2 a2 k2) = Ok data2 ->
  let st1 := fst (call_api W p1 a1 k1 st) in
  let st2 := fst (call_api W p2 a2 k2 st1) in
  wire_events (trace (os st2))
  = wire_events (trace (os st))
    ++ exchange_events (sockets (os st)) data1
    ++ exchange_events (S (sockets (os st))) data2 /\
  count_connect (os st2) = 2 + count_connect (os st) /\
  option_map sock (gimp_connection st2) = Some None.
Proof.
  intros Hl1 He1 Hc Hk Hw Hr He2. cbv zeta.
  destruct (call_api_live W p1 a1 k1 st data1 bytes1 Hl1 He1)
    as (_ & G1 & S1 & T1 & _).
  assert (Hl2 : live W (connection_of (fst (call_api W p1 a1 k1 st)))
                  (os (fst (call_api W p1 a1 k1 st))) data2 bytes2).
  { unfold live, connection_of. rewrite G1, S1. cbn [sock host port].
    repeat split; assumption. }
  destruct (call_api_live W p2 a2 k2 _ data2 bytes2 Hl2 He2)
    as (_ & G2 & _ & T2 & _).
  rewrite T2, T1, S1, G2, <- List.app_assoc.
  split; [reflexivity|]. split; [|reflexivity].
  unfold count_connect.
  rewrite <- (connects_of_wire (trace (os st))), <- connects_of_wire, T2, T1,
    S1.
  rewrite !filter_app, !length_app. cbn. lia.
Qed.

Lemma two_calls_two_connections_witness :
  let W := image_world in
  let st1 := fst (call_api W get_width (PList [PInt 1]) (PDict [])
                    initial_state) in
  let st2 := fst (call_api W get_height (PList [PInt 1]) (PDict []) st1) in
  wire_events (trace (os st2))
  = wire_events (trace (os initial_state))
    ++ exchange_events 0 (request_bytes get_width (PList [PInt 1]) (PDict []))
    ++ exchange_events 1
         (request_bytes get_height (PList [PInt 1]) (PDict [])) /\
  count_connect (os st2) = 2 + count_connect (os initial_state) /\
  option_map sock (gimp_connection st2) = Some None.
Proof.
  refine (two_calls_two_connections image_world
            get_width (PList [PInt 1]) (PDict [])
            get_height (PList [PInt 1]) (PDict []) initial_state
            (request_bytes get_width (PList [PInt 1]) (PDict []))
            (ascii_bytes (quoted "{'status':'success','result':800}"))
            (request_bytes get_height (PList [PInt 1]) (PDict []))
            (ascii_bytes (quoted "{'status':'success','result':600}"))
            _ _ _ _ _ _ _).
  - repeat split; vm_compute; reflexivity.
  - vm_compute; reflexivity.
  - vm_compute; reflexivity.
  - vm_compute; reflexivity.
  - vm_compute; reflexivity.
  - vm_compute; reflexivity.
  - vm_compute; reflexivity.
Defined.

